(** * Message-stream simulation and deduplication strategies

    A shallow embedding of
      - [labs/day04_pubsub/dedup_strategies.py] and
        [labs/day05_configdriven/src/strategies/dedup.py]
        (the Eager, Bronze and Merge strategies over a Polars DataFrame), and
      - [labs/day04_pubsub/day04_pubsub_sim.py]
        (publisher, delayed sender, subscriber and analyzer on an asyncio
        event loop with a bounded queue),
    together with the properties stated about them. *)

From Stdlib Require Import ZArith NArith List Ascii String DecimalString Permutation Sorted Lia Bool.
From stdpp Require Import gmap strings list fin_maps lexico sorting.

Local Open Scope string_scope.

(* ===================================================================== *)
(** * hashlib.sha256 *)
(* ===================================================================== *)

(** [hashlib.sha256(data).hexdigest()]: FIPS 180-4 SHA-256 over a byte
    string, rendered as 64 lowercase hexadecimal digits.  Words are 32-bit
    values held in [N], reduced with [mask32] after every addition. *)
Module SHA256.

Local Open Scope N_scope.

Definition mask32 (x : N) : N := N.land x 0xFFFFFFFF.

Definition add32 (x y : N) : N := mask32 (x + y).

Definition rotr (n x : N) : N :=
  N.lor (N.shiftr x n) (mask32 (N.shiftl x (32 - n))).

Definition not32 (x : N) : N := N.lxor x 0xFFFFFFFF.

Definition Ch (x y z : N) : N := N.lxor (N.land x y) (N.land (not32 x) z).
Definition Maj (x y z : N) : N :=
  N.lxor (N.lxor (N.land x y) (N.land x z)) (N.land y z).
Definition Sigma0 (x : N) : N := N.lxor (N.lxor (rotr 2 x) (rotr 13 x)) (rotr 22 x).
Definition Sigma1 (x : N) : N := N.lxor (N.lxor (rotr 6 x) (rotr 11 x)) (rotr 25 x).
Definition sigma0 (x : N) : N := N.lxor (N.lxor (rotr 7 x) (rotr 18 x)) (N.shiftr x 3).
Definition sigma1 (x : N) : N := N.lxor (N.lxor (rotr 17 x) (rotr 19 x)) (N.shiftr x 10).

(** The constants, as the standard defines them: the first 32 bits of the
    fractional parts of the cube roots (round constants) and of the square
    roots (initial hash value) of the first primes. *)
Definition is_prime (n : N) : bool :=
  List.forallb (fun d => negb (n mod N.of_nat d =? 0)) (List.seq 2 (N.to_nat n - 2)).

Definition primes : list N :=
  List.filter is_prime (List.map N.of_nat (List.seq 2 310)).

Fixpoint icbrt_bits (bits : nat) (x r : N) : N :=
  match bits with
  | O => r
  | S b =>
      let c := r + 2 ^ N.of_nat b in
      if c * c * c <=? x then icbrt_bits b x c else icbrt_bits b x r
  end.

Definition frac_cbrt32 (p : N) : N := mask32 (icbrt_bits 40 (p * 2 ^ 96) 0).
Definition frac_sqrt32 (p : N) : N := mask32 (N.sqrt (p * 2 ^ 64)).

Definition K : list N := Eval vm_compute in List.map frac_cbrt32 (List.firstn 64 primes).

Definition H0 : list N := Eval vm_compute in List.map frac_sqrt32 (List.firstn 8 primes).

(** Padding: one [0x80] byte, zero bytes up to 56 modulo 64, then the
    message length in bits as a 64-bit big-endian integer. *)
Definition be_bytes (width : nat) (x : N) : list N :=
  List.map (fun i => N.land (N.shiftr x (8 * N.of_nat i)) 0xFF) (List.rev (List.seq 0 width)).

Definition pad (msg : list N) : list N :=
  let len := N.of_nat (List.length msg) in
  let zeros := N.to_nat ((119 - len mod 64) mod 64) in
  msg ++ 0x80 :: List.repeat 0 zeros ++ be_bytes 8 (8 * len).

Fixpoint be_words (fuel : nat) (bs : list N) : list N :=
  match fuel, bs with
  | S fuel', b0 :: b1 :: b2 :: b3 :: rest =>
      (N.shiftl b0 24 + N.shiftl b1 16 + N.shiftl b2 8 + b3) :: be_words fuel' rest
  | _, _ => []
  end.

Fixpoint chunks16 (fuel : nat) (ws : list N) : list (list N) :=
  match fuel, ws with
  | S fuel', _ :: _ => List.firstn 16 ws :: chunks16 fuel' (List.skipn 16 ws)
  | _, _ => []
  end.

(** Message schedule: [w] holds W[t-1], W[t-2], ... (most recent first). *)
Fixpoint schedule (n : nat) (w : list N) : list N :=
  match n with
  | O => w
  | S n' =>
      let nth' i := List.nth i w 0 in
      let x := add32 (add32 (sigma1 (nth' 1%nat)) (nth' 6%nat))
                     (add32 (sigma0 (nth' 14%nat)) (nth' 15%nat)) in
      schedule n' (x :: w)
  end.

Definition round (st : list N) (kw : N * N) : list N :=
  match st with
  | [a; b; c; d; e; f; g; h] =>
      let t1 := add32 (add32 (add32 h (Sigma1 e)) (add32 (Ch e f g) (fst kw))) (snd kw) in
      let t2 := add32 (Sigma0 a) (Maj a b c) in
      [add32 t1 t2; a; b; c; add32 d t1; e; f; g]
  | _ => st
  end.

Definition compress (h : list N) (block : list N) : list N :=
  let w := List.rev (schedule 48 (List.rev block)) in
  let st := List.fold_left round (List.combine K w) h in
  List.map (fun p => add32 (fst p) (snd p)) (List.combine h st).

Definition digest (msg : list N) : list N :=
  let bs := pad msg in
  let ws := be_words (List.length bs) bs in
  List.fold_left compress (chunks16 (List.length ws) ws) H0.

Definition hex_digit (d : N) : ascii :=
  if d <? 10 then ascii_of_N (48 + d) else ascii_of_N (87 + d).

Definition hex_word (w : N) : string :=
  List.fold_right
    (fun i acc => String (hex_digit (N.land (N.shiftr w (4 * N.of_nat i)) 0xF)) acc)
    EmptyString (List.rev (List.seq 0 8)).

Definition bytes_of_string (s : string) : list N :=
  List.map N_of_ascii (list_ascii_of_string s).

(** [hashlib.sha256(s.encode()).hexdigest()] *)
Definition hexdigest (s : string) : string :=
  List.fold_right (fun w acc => hex_word w ++ acc)%string EmptyString
                  (digest (bytes_of_string s)).

End SHA256.

Example sha256_abc :
  SHA256.hexdigest "abc"
  = "ba7816bf8f01cfea414140de5dae2223b00361a396177a9cb410ff61f20015ad".
Proof. vm_compute. reflexivity. Qed.

Example sha256_empty :
  SHA256.hexdigest EmptyString
  = "e3b0c44298fc1c149afbf4c8996fb92427ae41e4649b934ca495991b7852b855".
Proof. vm_compute. reflexivity. Qed.

Example sha256_two_blocks :
  SHA256.hexdigest "abcdbcdecdefdefgefghfghighijhijkijkljklmklmnlmnomnopnopq"
  = "248d6a61d20638b8e5c026930c3e6039a33ce45964ff2167f6ecedd419db06c1".
Proof. vm_compute. reflexivity. Qed.

(* ===================================================================== *)
(** * Cells, rows and frames *)
(* ===================================================================== *)

(** A cell of a Polars frame as the pipeline meets them: null, Int64,
    Float64, Utf8 and Date.  A float is held as a fixed-point number of
    microseconds: the code only compares floats ([sort]) and prints them
    ([json.dumps], f-strings); [created_at] and [arrival_ts] are epoch
    seconds read from [time.time()], never NaN. *)
Inductive Value : Type :=
  | VNull
  | VInt (z : Z)
  | VFloat (micros : Z)
  | VStr (s : string)
  | VDate (days : Z).

Global Instance Value_eq_dec : EqDecision Value.
Proof. solve_decision. Defined.

(** A row is a dict from column name to cell. *)
Abbreviation Row := (gmap string Value).

Record DataFrame : Type := mkDF {
  columns : list string;      (* df.columns, in order *)
  rows : list Row             (* the rows, in frame order *)
}.

Global Instance DataFrame_eq_dec : EqDecision DataFrame.
Proof. solve_decision. Defined.

Definition height (df : DataFrame) : nat := length (rows df).

(** A missing key of a row reads as null, as after [pl.DataFrame(records)]. *)
Definition cell (r : Row) (c : string) : Value := default VNull (r !! c).

(** Exceptions the strategies can raise. *)
Inductive Exception : Type :=
  | ColumnNotFoundError (name : string)
  | KeyError (key : string)
  | TypeError (what : string)
  | SchemaMismatchError (table : string)
  | InvalidOperationError (what : string).

Inductive result (A : Type) : Type :=
  | Ok (a : A)
  | Err (e : Exception).
Arguments Ok {A} a.
Arguments Err {A} e.

Definition rbind {A B} (m : result A) (f : A -> result B) : result B :=
  match m with
  | Ok a => f a
  | Err e => Err e
  end.

Notation "'do' x <- m ; k" := (rbind m (fun x => k))
  (at level 10, x name, m at level 100, k at level 200, only parsing).

Fixpoint rmap {A B} (f : A -> result B) (l : list A) : result (list B) :=
  match l with
  | [] => Ok []
  | a :: l' => do b <- f a; do bs <- rmap f l'; Ok (b :: bs)
  end.

(* --------------------------------------------------------------------- *)
(** ** Rendering cells as text *)

Definition str_of_Z (z : Z) : string := NilZero.string_of_int (Z.to_int z).

Definition pad_left (width : nat) (s : string) : string :=
  string_of_list_ascii (List.repeat "0"%char (width - String.length s)) ++ s.

Fixpoint strip_zeros (ds : list ascii) : list ascii :=
  match ds with
  | [] => []
  | d :: rest =>
      match strip_zeros rest with
      | [] => if Ascii.eqb d "0" then [] else [d]
      | rest' => d :: rest'
      end
  end.

(** [repr] of a float in fixed notation: the integer part, a point and the
    fraction without trailing zeros, at least one digit ([1.0], [2.5]). *)
Definition float_repr (micros : Z) : string :=
  let a := Z.abs micros in
  let frac := strip_zeros (list_ascii_of_string (pad_left 6 (str_of_Z (a mod 1000000)))) in
  (if (micros <? 0)%Z then "-" else EmptyString)
  ++ str_of_Z (a / 1000000) ++ "."
  ++ string_of_list_ascii (match frac with [] => ["0"%char] | _ => frac end).

(** [date.isoformat()], days counted from 1970-01-01. *)
Definition iso_date (days : Z) : string :=
  let z := (days + 719468)%Z in
  let era := (z / 146097)%Z in
  let doe := (z - era * 146097)%Z in
  let yoe := ((doe - doe / 1460 + doe / 36524 - doe / 146096) / 365)%Z in
  let doy := (doe - (365 * yoe + yoe / 4 - yoe / 100))%Z in
  let mp := ((5 * doy + 2) / 153)%Z in
  let d := (doy - (153 * mp + 2) / 5 + 1)%Z in
  let m := (if (mp <? 10)%Z then mp + 3 else mp - 9)%Z in
  let y := (yoe + era * 400 + (if (m <=? 2)%Z then 1 else 0))%Z in
  pad_left 4 (str_of_Z y) ++ "-" ++ pad_left 2 (str_of_Z m) ++ "-" ++ pad_left 2 (str_of_Z d).

(** [str(x)], as an f-string formats a field. *)
Definition py_str (v : Value) : string :=
  match v with
  | VNull => "None"
  | VInt z => str_of_Z z
  | VFloat m => float_repr m
  | VStr s => s
  | VDate d => iso_date d
  end.

Example py_str_int : py_str (VInt 12) = "12". Proof. reflexivity. Qed.
Example py_str_neg : py_str (VInt (-7)) = "-7". Proof. reflexivity. Qed.
Example py_str_float : py_str (VFloat 2500000) = "2.5". Proof. reflexivity. Qed.
Example py_str_float1 : py_str (VFloat 1000000) = "1.0". Proof. reflexivity. Qed.
Example py_str_float2 : py_str (VFloat 1730000000000042) = "1730000000.000042". Proof. reflexivity. Qed.
Example py_str_date : py_str (VDate 20000) = "2024-10-04". Proof. reflexivity. Qed.
Example py_str_date0 : py_str (VDate 0) = "1970-01-01". Proof. reflexivity. Qed.

(* --------------------------------------------------------------------- *)
(** ** Ordering of cells *)

(** The order [DataFrame.sort] puts cells in: nulls first, then by value
    (numbers numerically, text by code point).  A column holds one type;
    cells of different types are ranked by type to keep the order total. *)
Definition order_key (v : Value) : nat * (Z * list N) :=
  match v with
  | VNull => (0%nat, (0%Z, []))
  | VInt z => (1%nat, (z, []))
  | VFloat m => (2%nat, (m, []))
  | VDate d => (3%nat, (d, []))
  | VStr s => (4%nat, (0%Z, SHA256.bytes_of_string s))
  end.

Definition key_lt (k1 k2 : nat * (Z * list N)) : Prop := lexico k1 k2.

Definition value_leb (v1 v2 : Value) : bool :=
  match trichotomyT lexico (order_key v2) (order_key v1) with
  | inleft (left _) => false
  | _ => true
  end.

Example value_leb_ex1 : value_leb (VFloat 1000000) (VFloat 3000000) = true.
Proof. vm_compute. reflexivity. Qed.
Example value_leb_ex2 : value_leb (VFloat 3000000) (VFloat 2000000) = false.
Proof. vm_compute. reflexivity. Qed.
Example value_leb_ex3 : value_leb (VStr "abc") (VStr "abd") = true.
Proof. vm_compute. reflexivity. Qed.
Example value_leb_ex4 : value_leb (VStr "b") (VStr "abd") = false.
Proof. vm_compute. reflexivity. Qed.
Example value_leb_ex5 : value_leb VNull (VFloat (-5)) = true.
Proof. vm_compute. reflexivity. Qed.

Lemma value_leb_true (v1 v2 : Value) :
  value_leb v1 v2 = true <-> ~ key_lt (order_key v2) (order_key v1).
Proof.
  unfold value_leb, key_lt.
  destruct (trichotomyT lexico (order_key v2) (order_key v1)) as [[Hlt|Heq]|Hgt].
  - split; [discriminate | intros H; destruct (H Hlt)].
  - split; [intros _ | reflexivity]. rewrite Heq. apply irreflexivity, _.
  - split; [intros _ | reflexivity].
    intros Hlt. exact (irreflexivity lexico _ (transitivity Hlt Hgt)).
Qed.

Lemma value_leb_total (v1 v2 : Value) :
  value_leb v1 v2 = true \/ value_leb v2 v1 = true.
Proof.
  destruct (value_leb v1 v2) eqn:E; [left; reflexivity | right].
  apply value_leb_true. intros Hlt.
  assert (Hn : ~ ~ key_lt (order_key v2) (order_key v1)).
  { intros Hc. apply value_leb_true in Hc. congruence. }
  apply Hn. intros Hlt'.
  exact (irreflexivity lexico _ (transitivity Hlt Hlt')).
Qed.

Lemma value_leb_trans (v1 v2 v3 : Value) :
  value_leb v1 v2 = true -> value_leb v2 v3 = true -> value_leb v1 v3 = true.
Proof.
  rewrite !value_leb_true. unfold key_lt. intros H12 H23 H31.
  destruct (trichotomyT lexico (order_key v2) (order_key v1)) as [[Hlt|Heq]|Hgt].
  - exact (H12 Hlt).
  - apply H23. rewrite Heq. exact H31.
  - apply H23. exact (transitivity H31 Hgt).
Qed.

Lemma value_leb_refl (v : Value) : value_leb v v = true.
Proof. destruct (value_leb_total v v); assumption. Qed.

(* --------------------------------------------------------------------- *)
(** ** Frame operations *)

Definition has_column (df : DataFrame) (c : string) : bool :=
  bool_decide (c ∈ columns df).

(** Resolving column names against the schema: the first name that is not
    a column raises [ColumnNotFoundError]. *)
Fixpoint check_columns (cs : list string) (df : DataFrame) : result unit :=
  match cs with
  | [] => Ok tt
  | c :: cs' =>
      if has_column df c then check_columns cs' df
      else Err (ColumnNotFoundError c)
  end.

(** A Python dict with its keys in insertion order. *)
Abbreviation dict := (list (string * Value)).

(** [row[key]] *)
Fixpoint dict_get (d : dict) (key : string) : result Value :=
  match d with
  | [] => Err (KeyError key)
  | (k, v) :: d' => if String.eqb k key then Ok v else dict_get d' key
  end.

(** [pl.struct(cols)]: per row, the dict of the named columns. *)
Definition struct_of (cols : list string) (r : Row) : dict :=
  List.map (fun c => (c, cell r c)) cols.

(** [pl.struct(cols).map_elements(f, return_dtype=pl.Utf8)] *)
Definition map_elements (f : dict -> result string) (cols : list string)
    (df : DataFrame) : result (list Value) :=
  do _ <- check_columns cols df;
  rmap (fun r => do h <- f (struct_of cols r); Ok (VStr h)) (rows df).

(** [df.with_columns(expr.alias(name))] with the values of [expr] already
    computed: an existing column of that name is replaced in place, a new
    one is appended to the schema. *)
Definition with_column (name : string) (vals : list Value) (df : DataFrame) : DataFrame :=
  {| columns := if has_column df name then columns df else columns df ++ [name];
     rows := zip_with (fun r v => <[name := v]> r) (rows df) vals |}.

Definition with_columns (new : list (string * list Value)) (df : DataFrame) : DataFrame :=
  List.fold_left (fun d nv => with_column (fst nv) (snd nv) d) new df.

(** *** unique *)

Inductive Keep : Type := KeepFirst | KeepLast.

Definition row_key (subset : list string) (r : Row) : list Value :=
  List.map (cell r) subset.

Section Unique.
Context {K : Type} `{EqDecision K}.
Variable key : Row -> K.

(** One pass with a seen-set: a row is kept when its key is new. *)
Fixpoint keep_first (seen : list K) (l : list Row) : list Row :=
  match l with
  | [] => []
  | r :: l' =>
      if decide (key r ∈ seen) then keep_first seen l'
      else r :: keep_first (key r :: seen) l'
  end.

(** A row is kept when no later row has its key. *)
Fixpoint keep_last (l : list Row) : list Row :=
  match l with
  | [] => []
  | r :: l' =>
      if decide (key r ∈ List.map key l') then keep_last l'
      else r :: keep_last l'
  end.
End Unique.

(** [unique(subset, keep, maintain_order=True)] on the rows. *)
Definition unique_stable (subset : list string) (keep : Keep) (l : list Row) : list Row :=
  match keep with
  | KeepFirst => keep_first (row_key subset) [] l
  | KeepLast => keep_last (row_key subset) l
  end.

(** *** sort *)

Definition cell_leb (by_ : string) (r1 r2 : Row) : bool :=
  value_leb (cell r1 by_) (cell r2 by_).

Definition cell_le (by_ : string) (r1 r2 : Row) : Prop :=
  cell_leb by_ r1 r2 = true.

Fixpoint insert_sorted (by_ : string) (x : Row) (l : list Row) : list Row :=
  match l with
  | [] => [x]
  | y :: l' =>
      if cell_leb by_ x y then x :: y :: l'
      else y :: insert_sorted by_ x l'
  end.

(** [sort(by, maintain_order=True)] on the rows: rows with equal cells keep
    their order. *)
Definition sort_stable (by_ : string) (l : list Row) : list Row :=
  List.fold_right (insert_sorted by_) [] l.

(** *** The engine

    The strategies call [sort] and [unique] without [maintain_order]; Polars
    then promises a sorted permutation, and the rows [unique] selects, but
    not the order of tied rows nor the row order of the result.  An [Engine]
    is any implementation within that contract. *)
Record Engine : Type := mkEngine {
  sort_rows : string -> list Row -> list Row;
  sort_rows_perm : forall by_ l, sort_rows by_ l ≡ₚ l;
  sort_rows_sorted : forall by_ l, Sorted (cell_le by_) (sort_rows by_ l);
  unique_rows : list string -> Keep -> list Row -> list Row;
  unique_rows_perm : forall subset keep l,
    unique_rows subset keep l ≡ₚ unique_stable subset keep l
}.

(** [df.sort(by)] *)
Definition df_sort (E : Engine) (by_ : string) (df : DataFrame) : result DataFrame :=
  do _ <- check_columns [by_] df;
  Ok {| columns := columns df; rows := sort_rows E by_ (rows df) |}.

(** [df.unique(subset=subset, keep=keep)] *)
Definition df_unique (E : Engine) (subset : list string) (keep : Keep)
    (df : DataFrame) : result DataFrame :=
  do _ <- check_columns subset df;
  Ok {| columns := columns df; rows := unique_rows E subset keep (rows df) |}.

(** [df.select(c).n_unique()] *)
Definition n_unique (c : string) (df : DataFrame) : nat :=
  length (remove_dups (List.map (fun r => cell r c) (rows df))).

(* ===================================================================== *)
(** * json.dumps and the two hashes *)
(* ===================================================================== *)

Definition dquote : string := String (ascii_of_nat 34) EmptyString.
Definition backslash : string := String (ascii_of_nat 92) EmptyString.

Definition hex4 (n : N) : string :=
  string_of_list_ascii
    (List.map (fun i => SHA256.hex_digit (N.land (N.shiftr n (4 * N.of_nat i)) 0xF))
              [3; 2; 1; 0]%nat).

(** String escaping of [json.dumps] (ASCII text). *)
Definition json_escape_char (c : ascii) : string :=
  let n := N_of_ascii c in
  if (n =? 34)%N then backslash ++ dquote
  else if (n =? 92)%N then backslash ++ backslash
  else if (n =? 10)%N then backslash ++ "n"
  else if (n =? 13)%N then backslash ++ "r"
  else if (n =? 9)%N then backslash ++ "t"
  else if (n =? 8)%N then backslash ++ "b"
  else if (n =? 12)%N then backslash ++ "f"
  else if (n <? 32)%N then backslash ++ "u" ++ hex4 n
  else String c EmptyString.

Fixpoint json_escape (s : string) : string :=
  match s with
  | EmptyString => EmptyString
  | String c s' => json_escape_char c ++ json_escape s'
  end.

Definition json_string (s : string) : string := dquote ++ json_escape s ++ dquote.

Definition json_value (v : Value) : result string :=
  match v with
  | VNull => Ok "null"
  | VInt z => Ok (str_of_Z z)
  | VFloat m => Ok (float_repr m)
  | VStr s => Ok (json_string s)
  | VDate _ => Err (TypeError "Object of type date is not JSON serializable")
  end.

Definition key_leb (a b : string * Value) : Prop := String.leb (fst a) (fst b) = true.

Global Instance key_leb_dec : RelDecision key_leb.
Proof. intros a b. unfold key_leb. solve_decision. Defined.

Fixpoint join (sep : string) (parts : list string) : string :=
  match parts with
  | [] => EmptyString
  | [p] => p
  | p :: rest => p ++ sep ++ join sep rest
  end.

(** [json.dumps(row, sort_keys=True)] *)
Definition json_dumps_sorted (row : dict) : result string :=
  do items <- rmap (fun kv => do j <- json_value (snd kv);
                              Ok (json_string (fst kv) ++ ": " ++ j))
                   (merge_sort key_leb row);
  Ok ("{" ++ join ", " items ++ "}").

(** The key fields of a record. *)
Definition composite_key_columns : list string :=
  ["message_id"; "sequence_id"; "partition_id"].

Module Day04.

(** [compute_composite_hash(row)]:
    [key = f"{row['message_id']}{row['sequence_id']}{row['partition_id']}"],
    then [hashlib.sha256(key.encode()).hexdigest()]. *)
Definition compute_composite_hash (row : dict) : result string :=
  do m <- dict_get row "message_id";
  do s <- dict_get row "sequence_id";
  do p <- dict_get row "partition_id";
  let key := py_str m ++ py_str s ++ py_str p in
  Ok (SHA256.hexdigest key).

(** [compute_payload_hash(row)] *)
Definition compute_payload_hash (row : dict) : result string :=
  do payload <- json_dumps_sorted row;
  Ok (SHA256.hexdigest payload).

(** The metrics dict: its names and counts.  The percentage string
    [dedup_rate] and the free-text notes are left out. *)
Abbreviation metrics := (list (string * Value)).

Definition VNat (n : nat) : Value := VInt (Z.of_nat n).

(** [eager_dedup(df)] *)
Definition eager_dedup (E : Engine) (df : DataFrame) : result (DataFrame * metrics) :=
  do hashes <- map_elements compute_composite_hash composite_key_columns df;
  let df := with_column "composite_hash" hashes df in
  let initial_count := height df in
  do deduped <- df_unique E ["composite_hash"] KeepFirst df;
  let final_count := height deduped in
  let dropped_count := (initial_count - final_count)%nat in
  Ok (deduped,
      [ ("strategy", VStr "eager_dedup");
        ("initial_records", VNat initial_count);
        ("final_records", VNat final_count);
        ("dropped_duplicates", VNat dropped_count) ]).

(** [pl.from_epoch(pl.col(c), time_unit="s").dt.date()] on one cell. *)
Definition epoch_date (v : Value) : result Value :=
  match v with
  | VNull => Ok VNull
  | VInt s => Ok (VDate (s / 86400))
  | VFloat m => Ok (VDate (Z.quot m 1000000 / 86400))
  | VStr _ | VDate _ => Err (InvalidOperationError "from_epoch")
  end.

Definition from_epoch_date (c : string) (df : DataFrame) : result (list Value) :=
  do _ <- check_columns [c] df;
  rmap (fun r => epoch_date (cell r c)) (rows df).

(** [add_hashes(df)].  The three expressions of the one [with_columns]
    call are resolved against the schema before any of them is
    evaluated. *)
Definition add_hashes (df : DataFrame) : result (DataFrame * metrics) :=
  let initial_count := height df in
  do _ <- check_columns (composite_key_columns ++ columns df ++ ["created_at"]) df;
  do composite <- map_elements compute_composite_hash composite_key_columns df;
  do payload <- map_elements compute_payload_hash (columns df) df;
  do dates <- from_epoch_date "created_at" df;
  let df_with_hashes :=
    with_columns [ ("composite_hash", composite);
                   ("payload_hash", payload);
                   ("partition_date", dates) ] df in
  let unique_composite := n_unique "composite_hash" df_with_hashes in
  let unique_payload := n_unique "payload_hash" df_with_hashes in
  Ok (df_with_hashes,
      [ ("strategy", VStr "add_hashes");
        ("total_records", VNat initial_count);
        ("unique_composite_keys", VNat unique_composite);
        ("unique_payloads", VNat unique_payload);
        ("potential_duplicates", VNat (initial_count - unique_composite)) ]).

(** [merge_dedup_polars(df, table_path)]; the path is not used. *)
Definition merge_dedup_polars (E : Engine) (df : DataFrame) : result (DataFrame * metrics) :=
  let initial_count := height df in
  do hashes <- map_elements compute_composite_hash composite_key_columns df;
  let df := with_column "composite_hash" hashes df in
  do sorted <- df_sort E "created_at" df;
  do deduped <- df_unique E ["message_id"] KeepLast sorted;
  let final_count := height deduped in
  Ok (deduped,
      [ ("strategy", VStr "merge_dedup_polars");
        ("initial_records", VNat initial_count);
        ("final_records", VNat final_count);
        ("merged_duplicates", VNat (initial_count - final_count));
        ("dedup_method", VStr "last-write-wins by message_id") ]).

End Day04.

(* ===================================================================== *)
(** * Messages and received records *)
(* ===================================================================== *)

(** [@dataclass class Message] *)
Record Message : Type := mkMessage {
  message_id : string;
  sequence_id : Z;
  partition_id : Z;
  created_at : Z;        (* epoch seconds, in microseconds *)
  value : Z;
  zipcode : string
}.

Global Instance Message_eq_dec : EqDecision Message.
Proof. solve_decision. Defined.

(** What the subscriber knows of a record beyond the message. *)
Record Received : Type := mkReceived {
  item : Message;
  arrival_ts : Z;        (* epoch seconds, in microseconds *)
  arrival_index : Z
}.

Global Instance Received_eq_dec : EqDecision Received.
Proof. solve_decision. Defined.

(** The [record] dict the subscriber builds, key by key. *)
Definition record_dict (r : Received) : dict :=
  [ ("event", VStr "message_received");
    ("message_id", VStr (message_id (item r)));
    ("sequence_id", VInt (sequence_id (item r)));
    ("partition_id", VInt (partition_id (item r)));
    ("created_at", VFloat (created_at (item r)));
    ("arrival_ts", VFloat (arrival_ts r));
    ("arrival_index", VInt (arrival_index r));
    ("value", VInt (value (item r)));
    ("zipcode", VStr (zipcode (item r))) ].

Definition record_columns : list string :=
  [ "event"; "message_id"; "sequence_id"; "partition_id"; "created_at";
    "arrival_ts"; "arrival_index"; "value"; "zipcode" ].

Definition record_row (r : Received) : Row := list_to_map (record_dict r).

(** [load_jsonl]: the frame of a batch of received records. *)
Definition load_jsonl (batch : list Received) : DataFrame :=
  {| columns := record_columns; rows := List.map record_row batch |}.

(* ===================================================================== *)
(** * Engines *)
(* ===================================================================== *)

Lemma insert_sorted_perm by_ x l : insert_sorted by_ x l ≡ₚ x :: l.
Proof.
  induction l as [|y l IH]; simpl; [reflexivity|].
  destruct (cell_leb by_ x y); [reflexivity|].
  rewrite IH. apply perm_swap.
Qed.

Lemma sort_stable_perm by_ l : sort_stable by_ l ≡ₚ l.
Proof.
  induction l as [|x l IH]; simpl; [reflexivity|].
  rewrite insert_sorted_perm. by rewrite IH.
Qed.

Lemma cell_le_total by_ r1 r2 : cell_le by_ r1 r2 \/ cell_le by_ r2 r1.
Proof. apply value_leb_total. Qed.

Lemma cell_le_trans by_ r1 r2 r3 :
  cell_le by_ r1 r2 -> cell_le by_ r2 r3 -> cell_le by_ r1 r3.
Proof. apply value_leb_trans. Qed.

Global Instance cell_le_transitive by_ : Transitive (cell_le by_).
Proof. intros r1 r2 r3. apply cell_le_trans. Qed.

Lemma insert_sorted_HdRel by_ a x l :
  cell_le by_ a x -> HdRel (cell_le by_) a l -> HdRel (cell_le by_) a (insert_sorted by_ x l).
Proof.
  intros Hax Hl. destruct l as [|y l]; simpl.
  - by constructor.
  - destruct (cell_leb by_ x y); constructor; [assumption|].
    by inversion Hl.
Qed.

Lemma insert_sorted_sorted by_ x l :
  Sorted (cell_le by_) l -> Sorted (cell_le by_) (insert_sorted by_ x l).
Proof.
  induction 1 as [|y l Hs IH Hhd]; simpl.
  - repeat constructor.
  - destruct (cell_leb by_ x y) eqn:E.
    + constructor; [by constructor|]. by constructor.
    + constructor; [exact IH|].
      apply insert_sorted_HdRel; [|exact Hhd].
      destruct (cell_le_total by_ x y) as [H|H]; [|exact H].
      unfold cell_le in H. congruence.
Qed.

Lemma sort_stable_sorted by_ l : Sorted (cell_le by_) (sort_stable by_ l).
Proof.
  induction l as [|x l IH]; simpl; [constructor|].
  by apply insert_sorted_sorted.
Qed.

(** The engine of [maintain_order=True]: a stable sort, and [unique] in
    frame order. *)
Definition stable_engine : Engine :=
  {| sort_rows := sort_stable;
     sort_rows_perm := sort_stable_perm;
     sort_rows_sorted := sort_stable_sorted;
     unique_rows := unique_stable;
     unique_rows_perm := fun _ _ _ => reflexivity _ |}.

(** An engine within the contract that breaks ties the other way round and
    returns the rows of [unique] last first.  It is not Polars: it stands
    for what the contract of [sort] and [unique] called without
    [maintain_order] leaves open. *)
Definition reversing_engine : Engine.
Proof.
  refine {| sort_rows := fun by_ l => sort_stable by_ (List.rev l);
            unique_rows := fun subset keep l => List.rev (unique_stable subset keep l) |}.
  - intros by_ l. rewrite sort_stable_perm. symmetry. apply Permutation_rev.
  - intros by_ l. apply sort_stable_sorted.
  - intros subset keep l. symmetry. apply Permutation_rev.
Defined.

(** ** Worked batches *)

Definition msg (mid : string) (seq part : Z) (created : Z) (val : Z) : Message :=
  mkMessage mid seq part created val "12345".

Definition recv (m : Message) (idx : Z) : Received := mkReceived m (created_at m + 1000) idx.

(** Three records sharing [message_id = "abc"], created at 1.0, 3.0, 2.0. *)
Definition batch_abc : list Received :=
  [ recv (msg "abc" 1 0 1000000 100) 1;
    recv (msg "abc" 2 0 3000000 200) 2;
    recv (msg "abc" 3 0 2000000 300) 3 ].

Example merge_abc :
  match Day04.merge_dedup_polars stable_engine (load_jsonl batch_abc) with
  | Ok (out, _) => List.map (fun r => cell r "created_at") (rows out) = [VFloat 3000000]
  | Err _ => False
  end.
Proof. vm_compute. reflexivity. Qed.

Example eager_abc :
  match Day04.eager_dedup stable_engine (load_jsonl (batch_abc ++ batch_abc)) with
  | Ok (out, m) =>
      List.map (fun r => cell r "sequence_id") (rows out) = [VInt 1; VInt 2; VInt 3]
      /\ dict_get m "dropped_duplicates" = Ok (VInt 3)
  | Err _ => False
  end.
Proof. vm_compute. split; reflexivity. Qed.

Example payload_json :
  json_dumps_sorted (record_dict (recv (msg "abc" 1 0 1500000 100) 1))
  = Ok ("{" ++ dquote ++ "arrival_index" ++ dquote ++ ": 1, "
            ++ dquote ++ "arrival_ts" ++ dquote ++ ": 1.501, "
            ++ dquote ++ "created_at" ++ dquote ++ ": 1.5, "
            ++ dquote ++ "event" ++ dquote ++ ": " ++ dquote ++ "message_received" ++ dquote ++ ", "
            ++ dquote ++ "message_id" ++ dquote ++ ": " ++ dquote ++ "abc" ++ dquote ++ ", "
            ++ dquote ++ "partition_id" ++ dquote ++ ": 0, "
            ++ dquote ++ "sequence_id" ++ dquote ++ ": 1, "
            ++ dquote ++ "value" ++ dquote ++ ": 100, "
            ++ dquote ++ "zipcode" ++ dquote ++ ": " ++ dquote ++ "12345" ++ dquote ++ "}").
Proof. vm_compute. reflexivity. Qed.

(* ===================================================================== *)
(** * Delta tables *)
(* ===================================================================== *)

(** The tables on disk, by path. *)
Abbreviation DeltaStore := (gmap string DataFrame).

Inductive WriteMode : Type := Overwrite | Append.

(** [write_deltalake(path, df.to_arrow(), mode=mode)]: a new table is
    created; an existing one is replaced or extended, and its schema must
    be that of the data. *)
Definition write_deltalake (path : string) (df : DataFrame) (mode : WriteMode)
    (store : DeltaStore) : result DeltaStore :=
  match store !! path with
  | None => Ok (<[path := df]> store)
  | Some t =>
      if decide (columns t = columns df) then
        match mode with
        | Overwrite => Ok (<[path := df]> store)
        | Append => Ok (<[path := {| columns := columns t; rows := rows t ++ rows df |}]> store)
        end
      else Err (SchemaMismatchError path)
  end.

(** A computation that may raise and may write tables: an exception leaves
    the store as the last completed write left it. *)
Definition Persist (A : Type) : Type := DeltaStore -> result A * DeltaStore.

Definition pure_ {A} (m : result A) : Persist A := fun store => (m, store).

Definition pbind {A B} (m : Persist A) (f : A -> Persist B) : Persist B :=
  fun store =>
    match m store with
    | (Ok a, store') => f a store'
    | (Err e, store') => (Err e, store')
    end.

Notation "'perform' x <- m ; k" := (pbind m (fun x => k))
  (at level 10, x name, m at level 100, k at level 200, only parsing).

Definition write_table (path : string) (df : DataFrame) (mode : WriteMode) : Persist unit :=
  fun store =>
    match write_deltalake path df mode store with
    | Ok store' => (Ok tt, store')
    | Err e => (Err e, store)
    end.

Definition read_table (path : string) : Persist (option DataFrame) :=
  fun store => (Ok (store !! path), store).

Module Day04Delta.
Import Day04.

(** [pl.concat([existing_df, df])]: the schemas must agree. *)
Definition concat (a b : DataFrame) : result DataFrame :=
  if decide (columns a = columns b)
  then Ok {| columns := columns a; rows := rows a ++ rows b |}
  else Err (SchemaMismatchError "concat").

(** [merge_dedup_delta(df, table_path)] *)
Definition merge_dedup_delta (E : Engine) (df : DataFrame) (table_path : string)
    : Persist (DataFrame * metrics) :=
  let initial_count := height df in
  perform hashes <- pure_ (map_elements compute_composite_hash composite_key_columns df);
  let df := with_column "composite_hash" hashes df in
  perform existing <- read_table table_path;
  perform deduped <- pure_
    (match existing with
     | Some existing_df =>
         do combined <- concat existing_df df;
         do sorted <- df_sort E "created_at" combined;
         df_unique E ["message_id"] KeepLast sorted
     | None =>
         do sorted <- df_sort E "created_at" df;
         df_unique E ["message_id"] KeepLast sorted
     end);
  let final_count := height deduped in
  perform _ <- write_table table_path deduped Overwrite;
  pure_ (Ok (deduped,
      [ ("strategy", VStr "merge_dedup_delta");
        ("initial_records", VNat initial_count);
        ("final_records_in_table", VNat final_count);
        ("merged_duplicates", VInt (Z.of_nat initial_count - Z.of_nat final_count));
        ("dedup_method", VStr "Delta MERGE (last-write-wins)");
        ("table_path", VStr table_path) ])).

End Day04Delta.

Module Day05.

Abbreviation metrics := (list (string * Value)).

(** [compute_composite_hash(key_string)] *)
Definition compute_composite_hash (key_string : string) : string :=
  SHA256.hexdigest key_string.

(** [compute_payload_hash(row_dict)] *)
Definition compute_payload_hash (row_dict : dict) : result string :=
  do payload <- json_dumps_sorted row_dict;
  Ok (SHA256.hexdigest payload).

(** [.cast(pl.Utf8)] on one cell. *)
Definition cast_utf8 (v : Value) : Value :=
  match v with
  | VNull => VNull
  | _ => VStr (py_str v)
  end.

(** [pl.concat_str(exprs)] on one row: the texts joined with no separator,
    null as soon as one of them is null. *)
Fixpoint concat_str (vs : list Value) : Value :=
  match vs with
  | [] => VStr EmptyString
  | v :: vs' =>
      match cast_utf8 v, concat_str vs' with
      | VStr a, VStr b => VStr (a ++ b)
      | _, _ => VNull
      end
  end.

(** [add_composite_hash_column(df)]; [map_elements] skips nulls. *)
Definition add_composite_hash_column (df : DataFrame) : result DataFrame :=
  do _ <- check_columns composite_key_columns df;
  let hashes :=
    List.map (fun r =>
      match concat_str [ cell r "message_id";
                         cast_utf8 (cell r "sequence_id");
                         cast_utf8 (cell r "partition_id") ] with
      | VStr key_string => VStr (compute_composite_hash key_string)
      | _ => VNull
      end) (rows df) in
  Ok (with_column "composite_hash" hashes df).

(** The strategy's section of the configuration; an absent entry takes the
    default of [config.get]. *)
Record Config : Type := mkConfig {
  dedup_key : option string;
  sort_by : option string;
  keep : option Keep;
  partition_by : option (list string)
}.

Definition default_config : Config := mkConfig None None None None.

(** [Strategy.get_table_path] *)
Definition get_table_path (delta_base_path table_name : string) : string :=
  delta_base_path ++ "/" ++ table_name.

(** [EagerDedupStrategy.process(df)] *)
Definition eager_process (E : Engine) (delta_base_path : string) (df : DataFrame)
    : Persist (DataFrame * metrics * string) :=
  let initial_count := height df in
  perform df <- pure_ (add_composite_hash_column df);
  perform deduped <- pure_ (df_unique E ["composite_hash"] KeepFirst df);
  let final_count := height deduped in
  let table_path := get_table_path delta_base_path "pubsub_eager_dedup" in
  perform _ <- write_table table_path deduped Overwrite;
  pure_ (Ok (deduped,
      [ ("strategy", VStr "eager_dedup");
        ("initial_records", Day04.VNat initial_count);
        ("final_records", Day04.VNat final_count);
        ("dropped_duplicates", VInt (Z.of_nat initial_count - Z.of_nat final_count)) ],
      table_path)).

(** [BronzeAppendStrategy.process(df)].  The two expressions of the second
    [with_columns] call are resolved before either is evaluated. *)
Definition bronze_process (delta_base_path : string) (df : DataFrame)
    : Persist (DataFrame * metrics * string) :=
  let initial_count := height df in
  let original_cols := columns df in
  perform df_with_hashes <- pure_ (add_composite_hash_column df);
  perform _ <- pure_ (check_columns (original_cols ++ ["created_at"]) df_with_hashes);
  perform payload <- pure_ (map_elements compute_payload_hash original_cols df_with_hashes);
  perform dates <- pure_ (Day04.from_epoch_date "created_at" df_with_hashes);
  let df_with_hashes :=
    with_columns [ ("payload_hash", payload); ("partition_date", dates) ] df_with_hashes in
  let unique_composite := n_unique "composite_hash" df_with_hashes in
  let unique_payload := n_unique "payload_hash" df_with_hashes in
  let table_path := get_table_path delta_base_path "pubsub_bronze_append" in
  perform _ <- write_table table_path df_with_hashes Append;
  pure_ (Ok (df_with_hashes,
      [ ("strategy", VStr "bronze_append");
        ("total_records", Day04.VNat initial_count);
        ("unique_composite_keys", Day04.VNat unique_composite);
        ("unique_payloads", Day04.VNat unique_payload);
        ("potential_duplicates", VInt (Z.of_nat initial_count - Z.of_nat unique_composite)) ],
      table_path)).

(** [PolarsMergeStrategy.process(df)] *)
Definition merge_process (E : Engine) (config : Config) (delta_base_path : string)
    (df : DataFrame) : Persist (DataFrame * metrics * string) :=
  let initial_count := height df in
  perform df <- pure_ (add_composite_hash_column df);
  let dedup_key_ := default "message_id" (dedup_key config) in
  let sort_by_ := default "created_at" (sort_by config) in
  let keep_ := default KeepLast (keep config) in
  perform sorted <- pure_ (df_sort E sort_by_ df);
  perform deduped <- pure_ (df_unique E [dedup_key_] keep_ sorted);
  let final_count := height deduped in
  let table_path := get_table_path delta_base_path "pubsub_polars_merge" in
  perform _ <- write_table table_path deduped Overwrite;
  pure_ (Ok (deduped,
      [ ("strategy", VStr "polars_merge");
        ("initial_records", Day04.VNat initial_count);
        ("final_records", Day04.VNat final_count);
        ("merged_duplicates", VInt (Z.of_nat initial_count - Z.of_nat final_count));
        ("dedup_method", VStr ("last-write-wins by " ++ dedup_key_)) ],
      table_path)).

End Day05.

(* ===================================================================== *)
(** * The publisher/subscriber simulation *)
(* ===================================================================== *)

Module Sim.

Local Open Scope list_scope.
Local Open Scope Z_scope.

(** ** The random module

    The generator is any state machine with the two primitives the
    [random] module builds on: [random()], here a fraction in millionths,
    and [_randbelow(n)].  Results are reduced into their range, so every
    generator is a legal one. *)
Class RandomGen (G : Type) : Type := {
  gen_random : G -> Z * G;
  gen_below : Z -> G -> Z * G;
  gen_seed : Z -> G
}.

Section Random.
Context {G : Type} `{RandomGen G}.

(** [random.random()]: in [0, 1), in millionths. *)
Definition random (g : G) : Z * G :=
  let '(r, g) := gen_random g in (r mod 1000000, g).

(** [random._randbelow(n)], for [n > 0]. *)
Definition randbelow (n : Z) (g : G) : Z * G :=
  let '(r, g) := gen_below n g in (r mod n, g).

(** [random.uniform(a, b)] is [a + (b - a) * random()]. *)
Definition uniform (a b : Z) (g : G) : Z * G :=
  let '(r, g) := random g in (a + (b - a) * r / 1000000, g).

(** [random.randint(a, b)]; an empty range raises [ValueError]. *)
Definition randint (a b : Z) (g : G) : option (Z * G) :=
  if b <? a then None
  else let '(r, g) := randbelow (b - a + 1) g in Some (a + r, g).

(** [random.choice(seq)]; an empty sequence raises [IndexError]. *)
Definition choice {A} (seq : list A) (g : G) : option (A * G) :=
  match seq with
  | [] => None
  | x :: _ =>
      let '(i, g) := randbelow (Z.of_nat (length seq)) g in
      Some (List.nth (Z.to_nat i) seq x, g)
  end.

Definition chars : list ascii :=
  list_ascii_of_string "abcdefghijklmnopqrstuvwxyz0123456789".

(** [random_id(length)] *)
Fixpoint random_id (length : nat) (g : G) : string * G :=
  match length with
  | O => (EmptyString, g)
  | S n =>
      match choice chars g with
      | Some (c, g) => let '(s, g) := random_id n g in (String c s, g)
      | None => (EmptyString, g)
      end
  end.

(** [random_zipcode()] *)
Definition random_zipcode (g : G) : string * G :=
  match randint 10000 99999 g with
  | Some (z, g) => (str_of_Z z, g)
  | None => (EmptyString, g)
  end.
End Random.

(** ** Coroutines

    A coroutine is the tree of what it does next: one constructor per call
    that reaches the event loop, the queue, the clock or the output file,
    with the rest of the coroutine as continuation. *)
Inductive Coro (R : Type) : Type :=
  | Ret (r : R)                                      (* return r *)
  | Raise (e : string)                               (* an exception escapes *)
  | Sleep (delay : Z) (k : Coro R)                   (* await asyncio.sleep(delay) *)
  | TimeTime (k : Z -> Coro R)                       (* time.time() *)
  | Put (x : option Message) (k : Coro R)            (* await queue.put(x) *)
  | Get (k : option Message -> Coro R)               (* await queue.get() *)
  | TaskDone (k : Coro R)                            (* queue.task_done() *)
  | Join (k : Coro R)                                (* await queue.join() *)
  | CreateDelayedSend (m : Message) (extra_delay : Z) (k : Coro R)
        (* asyncio.create_task(delayed_send(queue, msg, extra_delay)) *)
  | CreateSubscriber (k : Coro R)
        (* subscriber_task = asyncio.create_task(subscriber(queue, output_file)) *)
  | AwaitSubscriber (k : list Received -> Coro R)    (* await subscriber_task *)
  | FileWrite (line : Received) (k : Coro R).        (* f.write(json.dumps(record) + "\n") *)

Arguments Ret {R} r.
Arguments Raise {R} e.
Arguments Sleep {R} delay k.
Arguments TimeTime {R} k.
Arguments Put {R} x k.
Arguments Get {R} k.
Arguments TaskDone {R} k.
Arguments Join {R} k.
Arguments CreateDelayedSend {R} m extra_delay k.
Arguments CreateSubscriber {R} k.
Arguments AwaitSubscriber {R} k.
Arguments FileWrite {R} line k.

(** [x = await c; k x] *)
Fixpoint bind {A B} (c : Coro A) (f : A -> Coro B) : Coro B :=
  match c with
  | Ret r => f r
  | Raise e => Raise e
  | Sleep d k => Sleep d (bind k f)
  | TimeTime k => TimeTime (fun t => bind (k t) f)
  | Put x k => Put x (bind k f)
  | Get k => Get (fun x => bind (k x) f)
  | TaskDone k => TaskDone (bind k f)
  | Join k => Join (bind k f)
  | CreateDelayedSend m d k => CreateDelayedSend m d (bind k f)
  | CreateSubscriber k => CreateSubscriber (bind k f)
  | AwaitSubscriber k => AwaitSubscriber (fun r => bind (k r) f)
  | FileWrite l k => FileWrite l (bind k f)
  end.

(** The command line, times and probabilities in millionths. *)
Record Args : Type := mkArgs {
  messages : Z;
  partitions : Z;
  buffer : Z;
  base_delay : Z;
  jitter : Z;
  dup_prob : Z;
  slow_prob : Z;
  seed : option Z
}.

Section Programs.
Context {G : Type} `{RandomGen G}.

(** [delayed_send(queue, msg, extra_delay)] *)
Definition delayed_send (m : Message) (extra_delay : Z) : Coro unit :=
  Sleep extra_delay (Put (Some m) (Ret tt)).

(** The body of [for seq in range(1, total_messages + 1)], [todo]
    iterations from [seq] on, then the sentinel and [return produced]. *)
Fixpoint publisher_loop (partitions base_delay jitter dup_prob slow_prob : Z)
    (todo : nat) (seq : Z) (g : G) (produced : list Message) : Coro (list Message) :=
  match todo with
  | O => Put None (Ret produced)
  | S todo' =>
      let '(u, g) := uniform (base_delay - jitter) (base_delay + jitter) g in
      let delay := Z.max 0 u in
      Sleep delay
        match randint 0 (partitions - 1) g with
        | None => Raise "ValueError"
        | Some (partition_id, g) =>
            let '(mid, g) := random_id 8 g in
            TimeTime (fun now =>
              match randint 100 10000 g with
              | None => Raise "ValueError"
              | Some (val, g) =>
                  let '(zip, g) := random_zipcode g in
                  let msg := mkMessage mid seq partition_id now val zip in
                  let produced := produced ++ [msg] in
                  let '(r, g) := random g in
                  let rest (g : G) :=
                    publisher_loop partitions base_delay jitter dup_prob slow_prob
                                   todo' (seq + 1) g produced in
                  let duplicate :=
                    match produced with
                    | [] => rest g
                    | _ :: _ =>
                        let '(r, g) := random g in
                        if r <? dup_prob then
                          match choice produced g with
                          | Some (dup_msg, g) => Put (Some dup_msg) (rest g)
                          | None => Raise "IndexError"
                          end
                        else rest g
                    end in
                  if r <? slow_prob
                  then CreateDelayedSend msg 200000 duplicate
                  else Put (Some msg) duplicate
              end)
        end
  end.

(** [publisher(queue, total_messages, partitions, base_delay, jitter,
    dup_prob, slow_prob)] *)
Definition publisher (total_messages partitions base_delay jitter dup_prob slow_prob : Z)
    (g : G) : Coro (list Message) :=
  publisher_loop partitions base_delay jitter dup_prob slow_prob
                 (Z.to_nat total_messages) 1 g [].

(** One turn of the subscriber's [while True], from [records] and
    [arrival_index]: [inl] goes round again, [inr] is [return records]. *)
Definition subscriber_turn (st : list Received * Z)
    : Coro (list Received * Z + list Received) :=
  let '(records, arrival_index) := st in
  Get (fun item =>
    match item with
    | None => TaskDone (Ret (inr records))
    | Some item =>
        let arrival_index := arrival_index + 1 in
        TimeTime (fun arrival_ts =>
          let record := mkReceived item arrival_ts arrival_index in
          let records := records ++ [record] in
          FileWrite record (TaskDone (Ret (inl (records, arrival_index)))))
    end).

(** [parse_args]: the generator the run starts from.  [entropy] is the
    state the module was left in at import. *)
Definition parse_args (args : Args) (entropy : G) : G :=
  match seed args with
  | Some s => if s =? 0 then entropy else gen_seed s
  | None => entropy
  end.

(** [main(args)], up to the call of [analyze]. *)
Definition main (args : Args) (g : G) : Coro (list Message * list Received) :=
  CreateSubscriber
    (bind (publisher (messages args) (partitions args) (base_delay args)
                     (jitter args) (dup_prob args) (slow_prob args) g)
          (fun produced =>
             Join (AwaitSubscriber (fun received => Ret (produced, received))))).
End Programs.

(** ** The analyzer *)

Record Report : Type := mkReport {
  missing : list Z;                       (* produced, never received *)
  duplicates : list Z;                    (* received more than once *)
  by_partition : list (Z * list Z);       (* sequence_ids as received, per partition *)
  out_of_order : list Z                   (* partitions not received in order *)
}.

Definition sorted_Z (l : list Z) : list Z := merge_sort Z.le l.

(** [by_partition.setdefault(pid, []).append(seq)] *)
Fixpoint setdefault_append (pid seq : Z) (d : list (Z * list Z)) : list (Z * list Z) :=
  match d with
  | [] => [(pid, [seq])]
  | (p, seqs) :: d' =>
      if p =? pid then (p, seqs ++ [seq]) :: d'
      else (p, seqs) :: setdefault_append pid seq d'
  end.

(** The loop over [received_seq_ids] that fills [seen] and [dupes]. *)
Fixpoint find_dupes (seen dupes : list Z) (seqs : list Z) : list Z :=
  match seqs with
  | [] => dupes
  | seq :: rest =>
      if bool_decide (seq ∈ seen)
      then find_dupes seen (if bool_decide (seq ∈ dupes) then dupes else seq :: dupes) rest
      else find_dupes (seq :: seen) dupes rest
  end.

(** [analyze(produced, received)], its findings as data. *)
Definition analyze (produced : list Message) (received : list Received) : Report :=
  let produced_seq_ids := remove_dups (List.map sequence_id produced) in
  let received_seq_ids := List.map (fun r => sequence_id (item r)) received in
  let missing :=
    sorted_Z (List.filter (fun s => negb (bool_decide (s ∈ received_seq_ids)))
                          produced_seq_ids) in
  let dupes := find_dupes [] [] received_seq_ids in
  let by_partition :=
    List.fold_left
      (fun d r => setdefault_append (partition_id (item r)) (sequence_id (item r)) d)
      received [] in
  {| missing := missing;
     duplicates := sorted_Z dupes;
     by_partition := by_partition;
     out_of_order :=
       List.map fst
         (List.filter (fun ps => negb (bool_decide (snd ps = sorted_Z (snd ps))))
                      by_partition) |}.

(** ** The event loop

    One thread; a task runs from one suspension point to the next without
    interruption.  Time stands still while a task runs and moves on to the
    next timer when none is ready. *)

Inductive TaskId : Type := TMain | TSubscriber | TDelayed (n : nat).

Global Instance TaskId_eq_dec : EqDecision TaskId.
Proof. solve_decision. Defined.

(** [asyncio.Queue(maxsize)] *)
Record Queue : Type := mkQueue {
  maxsize : Z;
  items : list (option Message);      (* None is the sentinel *)
  unfinished_tasks : Z;
  getters : list TaskId;              (* tasks suspended in get *)
  putters : list TaskId;              (* tasks suspended in put *)
  finished_waiters : list TaskId      (* tasks suspended in join *)
}.

(** [Queue.full] *)
Definition full (q : Queue) : bool :=
  if maxsize q <=? 0 then false
  else maxsize q <=? Z.of_nat (length (items q)).

(** [Queue.put_nowait]: the item goes in, the count of unfinished tasks up,
    and the first waiting getter is woken. *)
Definition put_nowait (x : option Message) (q : Queue) : Queue * list TaskId :=
  ({| maxsize := maxsize q;
      items := items q ++ [x];
      unfinished_tasks := unfinished_tasks q + 1;
      getters := List.tl (getters q);
      putters := putters q;
      finished_waiters := finished_waiters q |},
   List.firstn 1 (getters q)).

(** [Queue.get_nowait] on a queue that is not empty: the first waiting
    putter is woken. *)
Definition get_nowait (q : Queue) : Queue * list TaskId :=
  ({| maxsize := maxsize q;
      items := List.tl (items q);
      unfinished_tasks := unfinished_tasks q;
      getters := getters q;
      putters := List.tl (putters q);
      finished_waiters := finished_waiters q |},
   List.firstn 1 (putters q)).

(** [Queue.task_done] with the count still positive: at zero every task
    waiting in [join] is woken. *)
Definition task_done (q : Queue) : Queue * list TaskId :=
  let n := unfinished_tasks q - 1 in
  ({| maxsize := maxsize q;
      items := items q;
      unfinished_tasks := n;
      getters := getters q;
      putters := putters q;
      finished_waiters := if n =? 0 then [] else finished_waiters q |},
   if n =? 0 then finished_waiters q else []).

Definition wait_getter (t : TaskId) (q : Queue) : Queue :=
  mkQueue (maxsize q) (items q) (unfinished_tasks q) (getters q ++ [t]) (putters q)
          (finished_waiters q).

Definition wait_putter (t : TaskId) (q : Queue) : Queue :=
  mkQueue (maxsize q) (items q) (unfinished_tasks q) (getters q) (putters q ++ [t])
          (finished_waiters q).

Definition wait_finished (t : TaskId) (q : Queue) : Queue :=
  mkQueue (maxsize q) (items q) (unfinished_tasks q) (getters q) (putters q)
          (finished_waiters q ++ [t]).

Definition MainResult : Type := list Message * list Received.
Definition SubscriberTurn : Type := list Received * Z + list Received.

Record World : Type := mkWorld {
  now : Z;                                  (* loop.time() *)
  running : option TaskId;                  (* the task being stepped *)
  ready : list TaskId;                      (* callbacks to run, first in first out *)
  timers : list (Z * TaskId);               (* pending call_later handles *)
  queue : Queue;
  main_coro : Coro MainResult;
  sub_coro : Coro SubscriberTurn;
  sub_result : option (list Received);      (* set once the subscriber has returned *)
  sub_waiters : list TaskId;                (* tasks awaiting the subscriber *)
  delayed : list (nat * Coro unit);         (* the delayed_send tasks alive *)
  next_id : nat;
  file : list Received                      (* the lines of output_file *)
}.

Definition set_queue (q : Queue) (woken : list TaskId) (w : World) : World :=
  mkWorld (now w) (running w) (ready w ++ woken) (timers w) q (main_coro w) (sub_coro w)
          (sub_result w) (sub_waiters w) (delayed w) (next_id w) (file w).

Definition call_soon (ts : list TaskId) (w : World) : World :=
  set_queue (queue w) ts w.

Definition call_later (d : Z) (t : TaskId) (w : World) : World :=
  mkWorld (now w) (running w) (ready w) (timers w ++ [(now w + d, t)]) (queue w)
          (main_coro w) (sub_coro w) (sub_result w) (sub_waiters w) (delayed w)
          (next_id w) (file w).

(** What became of the running task after one step. *)
Inductive Status (R : Type) : Type :=
  | Continue (c : Coro R)       (* it runs on *)
  | Suspend (c : Coro R)        (* it waits; [c] is where it resumes *)
  | Returned (r : R)
  | Failed (e : string).
Arguments Continue {R} c.
Arguments Suspend {R} c.
Arguments Returned {R} r.
Arguments Failed {R} e.

(** One step of task [t], whose coroutine is [c]. [wall] reads the wall
    clock at a loop time. *)
Definition exec {R} (wall : Z -> Z) (t : TaskId) (c : Coro R) (w : World)
    : World * Status R :=
  match c with
  | Ret r => (w, Returned r)
  | Raise e => (w, Failed e)
  | Sleep d k =>
      if d <=? 0 then (call_soon [t] w, Suspend k)
      else (call_later d t w, Suspend k)
  | TimeTime k => (w, Continue (k (wall (now w))))
  | Put x k =>
      if full (queue w) then (set_queue (wait_putter t (queue w)) [] w, Suspend (Put x k))
      else let '(q, woken) := put_nowait x (queue w) in (set_queue q woken w, Continue k)
  | Get k =>
      match items (queue w) with
      | [] => (set_queue (wait_getter t (queue w)) [] w, Suspend (Get k))
      | x :: _ => let '(q, woken) := get_nowait (queue w) in (set_queue q woken w, Continue (k x))
      end
  | TaskDone k =>
      if unfinished_tasks (queue w) <=? 0 then (w, Failed "ValueError")
      else let '(q, woken) := task_done (queue w) in (set_queue q woken w, Continue k)
  | Join k =>
      if 0 <? unfinished_tasks (queue w)
      then (set_queue (wait_finished t (queue w)) [] w, Suspend k)
      else (w, Continue k)
  | CreateDelayedSend m d k =>
      (mkWorld (now w) (running w) (ready w ++ [TDelayed (next_id w)]) (timers w) (queue w)
               (main_coro w) (sub_coro w) (sub_result w) (sub_waiters w)
               (delayed w ++ [(next_id w, delayed_send m d)]) (S (next_id w)) (file w),
       Continue k)
  | CreateSubscriber k =>
      (mkWorld (now w) (running w) (ready w ++ [TSubscriber]) (timers w) (queue w)
               (main_coro w) (subscriber_turn ([], 0)) None (sub_waiters w)
               (delayed w) (next_id w) [],
       Continue k)
  | AwaitSubscriber k =>
      match sub_result w with
      | Some received => (w, Continue (k received))
      | None =>
          (mkWorld (now w) (running w) (ready w) (timers w) (queue w) (main_coro w)
                   (sub_coro w) (sub_result w) (sub_waiters w ++ [t]) (delayed w)
                   (next_id w) (file w),
           Suspend (AwaitSubscriber k))
      end
  | FileWrite line k =>
      (mkWorld (now w) (running w) (ready w) (timers w) (queue w) (main_coro w)
               (sub_coro w) (sub_result w) (sub_waiters w) (delayed w) (next_id w)
               (file w ++ [line]),
       Continue k)
  end.

(** How a run ends. *)
Inductive Outcome : Type :=
  | Finished (r : MainResult) (final : World)   (* main returned; the rest is cancelled *)
  | Crashed (e : string)                        (* an exception escaped a task *)
  | Deadlock.                                   (* nothing ready, no timer pending *)

Definition set_running (o : option TaskId) (w : World) : World :=
  mkWorld (now w) o (ready w) (timers w) (queue w) (main_coro w) (sub_coro w)
          (sub_result w) (sub_waiters w) (delayed w) (next_id w) (file w).

Definition set_main (c : Coro MainResult) (w : World) : World :=
  mkWorld (now w) (running w) (ready w) (timers w) (queue w) c (sub_coro w)
          (sub_result w) (sub_waiters w) (delayed w) (next_id w) (file w).

Definition set_sub (c : Coro SubscriberTurn) (w : World) : World :=
  mkWorld (now w) (running w) (ready w) (timers w) (queue w) (main_coro w) c
          (sub_result w) (sub_waiters w) (delayed w) (next_id w) (file w).

Definition set_delayed (d : list (nat * Coro unit)) (w : World) : World :=
  mkWorld (now w) (running w) (ready w) (timers w) (queue w) (main_coro w) (sub_coro w)
          (sub_result w) (sub_waiters w) d (next_id w) (file w).

(** The subscriber's coroutine is done: its waiters are woken. *)
Definition finish_subscriber (received : list Received) (w : World) : World :=
  mkWorld (now w) None (ready w ++ sub_waiters w) (timers w) (queue w) (main_coro w)
          (sub_coro w) (Some received) [] (delayed w) (next_id w) (file w).

Fixpoint lookup_task (n : nat) (d : list (nat * Coro unit)) : option (Coro unit) :=
  match d with
  | [] => None
  | (i, c) :: d' => if Nat.eqb i n then Some c else lookup_task n d'
  end.

Fixpoint update_task (n : nat) (c : Coro unit) (d : list (nat * Coro unit))
    : list (nat * Coro unit) :=
  match d with
  | [] => []
  | (i, c0) :: d' => if Nat.eqb i n then (i, c) :: d' else (i, c0) :: update_task n c d'
  end.

Fixpoint remove_task (n : nat) (d : list (nat * Coro unit)) : list (nat * Coro unit) :=
  match d with
  | [] => []
  | (i, c0) :: d' => if Nat.eqb i n then d' else (i, c0) :: remove_task n d'
  end.

(** With nothing ready the loop sleeps until the earliest timer and makes
    the tasks due then ready, in the order their timers were set.  Loop
    time moves only here: the time a task takes to run counts as nothing,
    so a deadline is the sum of the sleeps before it.  Which of two timers
    comes first when their deadlines are closer than the running time of
    the tasks is therefore the model's choice, not asyncio's. *)
Definition fire_timers (w : World) : option World :=
  match timers w with
  | [] => None
  | (t0, _) :: rest =>
      let tmin := List.fold_left (fun m p => Z.min m (fst p)) rest t0 in
      let due := List.filter (fun p => fst p <=? tmin) (timers w) in
      let later := List.filter (fun p => negb (fst p <=? tmin)) (timers w) in
      Some (mkWorld (Z.max (now w) tmin) None (List.map snd due) later (queue w)
                    (main_coro w) (sub_coro w) (sub_result w) (sub_waiters w)
                    (delayed w) (next_id w) (file w))
  end.

(** One step of the loop. *)
Definition step (wall : Z -> Z) (w : World) : World + Outcome :=
  match running w with
  | None =>
      match ready w with
      | t :: rest =>
          inl (mkWorld (now w) (Some t) rest (timers w) (queue w) (main_coro w)
                       (sub_coro w) (sub_result w) (sub_waiters w) (delayed w)
                       (next_id w) (file w))
      | [] =>
          match fire_timers w with
          | Some w' => inl w'
          | None => inr Deadlock
          end
      end
  | Some TMain =>
      let '(w', st) := exec wall TMain (main_coro w) w in
      match st with
      | Continue c => inl (set_main c w')
      | Suspend c => inl (set_running None (set_main c w'))
      | Returned r => inr (Finished r w')
      | Failed e => inr (Crashed e)
      end
  | Some TSubscriber =>
      let '(w', st) := exec wall TSubscriber (sub_coro w) w in
      match st with
      | Continue c => inl (set_sub c w')
      | Suspend c => inl (set_running None (set_sub c w'))
      | Returned (inl st) => inl (set_sub (subscriber_turn st) w')
      | Returned (inr received) => inl (finish_subscriber received w')
      | Failed e => inr (Crashed e)
      end
  | Some (TDelayed n) =>
      match lookup_task n (delayed w) with
      | None => inl (set_running None w)
      | Some c =>
          let '(w', st) := exec wall (TDelayed n) c w in
          match st with
          | Continue c => inl (set_delayed (update_task n c (delayed w')) w')
          | Suspend c => inl (set_running None (set_delayed (update_task n c (delayed w')) w'))
          | Returned _ => inl (set_running None (set_delayed (remove_task n (delayed w')) w'))
          | Failed e => inr (Crashed e)
          end
      end
  end.

(** [loop.run_until_complete], at most [fuel] steps. *)
Fixpoint run_loop (wall : Z -> Z) (fuel : nat) (w : World) : option Outcome :=
  match fuel with
  | O => None
  | S fuel' =>
      match step wall w with
      | inl w' => run_loop wall fuel' w'
      | inr o => Some o
      end
  end.

(** [asyncio.run(main(args))] on a fresh loop; [main] makes the queue. *)
Definition init_world (args : Args) (c : Coro MainResult) : World :=
  mkWorld 0 None [TMain] [] (mkQueue (buffer args) [] 0 [] [] []) c
          (Ret (inr [])) None [] [] 0 [].

(** The environment of a run: the generator state left by the import of
    [random], and the wall clock as a function of loop time. *)
Definition simulate {G} `{RandomGen G} (entropy : G) (wall : Z -> Z) (args : Args)
    (fuel : nat) : option Outcome :=
  run_loop wall fuel (init_world args (main args (parse_args args entropy))).

(** ** Two generators *)

(** A linear congruential generator. *)
Definition lcg_next (x : Z) : Z := (x * 1103515245 + 12345) mod 2147483648.

Definition LcgGen : RandomGen Z :=
  {| gen_random := fun x => (lcg_next x / 2048, lcg_next x);
     gen_below := fun _ x => (lcg_next x / 65536, lcg_next x);
     gen_seed := fun s => s |}.

(** A generator that replays a tape of draws, then draws zeros. *)
Definition TapeGen : RandomGen (list Z) :=
  {| gen_random := fun t => (List.hd 0 t, List.tl t);
     gen_below := fun _ t => (List.hd 0 t, List.tl t);
     gen_seed := fun s => [s] |}.

End Sim.

(* ===================================================================== *)
(** * Properties of the frame operations *)
(* ===================================================================== *)

Local Open Scope list_scope.

Lemma map_fmap {A B} (f : A -> B) (l : list A) : List.map f l = f <$> l.
Proof. reflexivity. Qed.

Lemma rbind_ok {A B} (m : result A) (f : A -> result B) a :
  m = Ok a -> rbind m f = f a.
Proof. intros ->. reflexivity. Qed.

Lemma rmap_ok {A B} (f : A -> result B) (g : A -> B) (l : list A) :
  (forall x, x ∈ l -> f x = Ok (g x)) -> rmap f l = Ok (List.map g l).
Proof.
  induction l as [|a l IH]; intros Hf; simpl; [reflexivity|].
  rewrite (Hf a); [|by left]. simpl.
  rewrite IH; [reflexivity|]. intros x Hx. apply Hf. by right.
Qed.

Lemma rmap_length {A B} (f : A -> result B) (l : list A) (bs : list B) :
  rmap f l = Ok bs -> length bs = length l.
Proof.
  revert bs. induction l as [|a l IH]; intros bs; simpl.
  - intros [= <-]. reflexivity.
  - destruct (f a) as [b|e]; simpl; [|discriminate].
    destruct (rmap f l) as [bs'|e]; simpl; [|discriminate].
    intros [= <-]. simpl. f_equal. by apply IH.
Qed.

Definition has_columns (cs : list string) (df : DataFrame) : Prop :=
  Forall (fun c => c ∈ columns df) cs.

Global Instance has_columns_dec cs df : Decision (has_columns cs df).
Proof. unfold has_columns. apply _. Defined.

Lemma check_columns_ok cs df : has_columns cs df -> check_columns cs df = Ok tt.
Proof.
  induction 1 as [|c cs Hc _ IH]; simpl; [reflexivity|].
  unfold has_column. by rewrite bool_decide_eq_true_2.
Qed.

Lemma check_columns_inv cs df : check_columns cs df = Ok tt -> has_columns cs df.
Proof.
  induction cs as [|c cs IH]; simpl; [constructor|].
  unfold has_column. case_bool_decide; [|discriminate].
  intros Hcs. constructor; [assumption|]. by apply IH.
Qed.

(** A required column that is absent is reported, and nothing else is. *)
Lemma check_columns_missing cs df :
  ~ has_columns cs df ->
  exists c, c ∈ cs /\ (c ∉ columns df) /\ check_columns cs df = Err (ColumnNotFoundError c).
Proof.
  induction cs as [|c cs IH]; intros Hn.
  - destruct Hn. constructor.
  - simpl. unfold has_column. case_bool_decide as Hc.
    + destruct IH as (c' & Hin & Hout & Heq).
      { intros Hcs. apply Hn. by constructor. }
      exists c'. split; [by right|]. by split.
    + exists c. split; [by left|]. by split.
Qed.

Lemma zip_with_insert_map (name : string) (g : Row -> Value) (l : list Row) :
  zip_with (fun r v => <[name := v]> r) l (List.map g l)
  = List.map (fun r => <[name := g r]> r) l.
Proof. induction l as [|r l IH]; simpl; [reflexivity|]. by rewrite IH. Qed.

Lemma with_column_columns name vals df c :
  c ∈ columns df -> c ∈ columns (with_column name vals df).
Proof.
  intros Hc. unfold with_column, has_column; simpl.
  case_bool_decide; [assumption|]. apply elem_of_app. by left.
Qed.

Lemma with_column_has name vals df : name ∈ columns (with_column name vals df).
Proof.
  unfold with_column, has_column; simpl.
  case_bool_decide; [assumption|]. apply elem_of_app. right. by left.
Qed.

Lemma with_column_columns_id name vals df :
  name ∈ columns df -> columns (with_column name vals df) = columns df.
Proof.
  intros Hc. unfold with_column, has_column; simpl. by rewrite bool_decide_eq_true_2.
Qed.

Lemma cell_insert_eq (r : Row) c v : cell (<[c := v]> r) c = v.
Proof. unfold cell. by rewrite lookup_insert_eq. Qed.

Lemma cell_insert_ne (r : Row) c c' v : c <> c' -> cell (<[c := v]> r) c' = cell r c'.
Proof. intros Hne. unfold cell. by rewrite lookup_insert_ne. Qed.

(* --------------------------------------------------------------------- *)
(** ** keep_first and keep_last *)

Section UniqueFacts.
Context {K : Type} `{EqDecision K}.
Variable key : Row -> K.

Lemma keep_first_elem seen l o :
  o ∈ keep_first key seen l -> o ∈ l /\ key o ∉ seen.
Proof.
  revert seen. induction l as [|r l IH]; intros seen; simpl.
  - intros Ho. by apply not_elem_of_nil in Ho.
  - destruct (decide (key r ∈ seen)) as [Hin|Hout].
    + intros Ho. destruct (IH _ Ho). split; [by right|assumption].
    + rewrite elem_of_cons. intros [->|Ho].
      * split; [by left|assumption].
      * destruct (IH _ Ho) as [Hl Hk]. split; [by right|].
        intros Hs. apply Hk. by right.
Qed.

Lemma keep_first_NoDup seen l : NoDup (List.map key (keep_first key seen l)).
Proof.
  revert seen. induction l as [|r l IH]; intros seen; simpl; [constructor|].
  destruct (decide (key r ∈ seen)); [apply IH|].
  simpl. apply NoDup_cons. split; [|apply IH].
  rewrite map_fmap. intros Hin. apply list_elem_of_fmap in Hin as (o & Heq & Ho).
  apply keep_first_elem in Ho as [_ Hk]. apply Hk. rewrite <- Heq. by left.
Qed.

Lemma keep_first_covers seen l r :
  r ∈ l -> key r ∉ seen -> key r ∈ List.map key (keep_first key seen l).
Proof.
  revert seen. induction l as [|x l IH]; intros seen Hr Hk.
  - by apply not_elem_of_nil in Hr.
  - simpl. apply elem_of_cons in Hr.
    destruct (decide (key x ∈ seen)) as [Hin|Hout].
    + destruct Hr as [->|Hr]; [contradiction|]. by apply IH.
    + simpl. destruct (decide (key r = key x)) as [->|Hne]; [by left|].
      right. destruct Hr as [->|Hr]; [congruence|].
      apply IH; [assumption|]. intros Hs. apply elem_of_cons in Hs as [?|?]; congruence.
Qed.

(** A kept row is the first of its key. *)
Lemma keep_first_first seen l o :
  o ∈ keep_first key seen l ->
  exists l1 l2, l = l1 ++ o :: l2 /\ key o ∉ List.map key l1.
Proof.
  revert seen. induction l as [|r l IH]; intros seen; simpl.
  - intros Ho. by apply not_elem_of_nil in Ho.
  - destruct (decide (key r ∈ seen)) as [Hin|Hout].
    + intros Ho. destruct (IH _ Ho) as (l1 & l2 & -> & Hk).
      exists (r :: l1), l2. split; [reflexivity|].
      simpl. apply not_elem_of_cons. split; [|assumption].
      apply keep_first_elem in Ho as [_ Hs]. congruence.
    + rewrite elem_of_cons. intros [->|Ho].
      * exists [], l. split; [reflexivity|]. apply not_elem_of_nil.
      * destruct (IH _ Ho) as (l1 & l2 & -> & Hk).
        exists (r :: l1), l2. split; [reflexivity|].
        simpl. apply not_elem_of_cons. split; [|assumption].
        apply keep_first_elem in Ho as [_ Hs].
        intros Heq. apply Hs. rewrite Heq. by left.
Qed.

Lemma keep_first_id seen l :
  NoDup (List.map key l) -> (forall r, r ∈ l -> key r ∉ seen) ->
  keep_first key seen l = l.
Proof.
  revert seen. induction l as [|r l IH]; intros seen Hnd Hs; simpl; [reflexivity|].
  simpl in Hnd. apply NoDup_cons in Hnd as [Hr Hnd].
  destruct (decide (key r ∈ seen)) as [Hin|Hout].
  - destruct (Hs r); [by left|assumption].
  - f_equal. apply IH; [assumption|].
    intros x Hx Hk. apply elem_of_cons in Hk as [Heq|Hk].
    + apply Hr. rewrite <- Heq, map_fmap. by apply list_elem_of_fmap_2.
    + apply (Hs x); [by right|assumption].
Qed.

Lemma keep_first_sublist seen l : keep_first key seen l `sublist_of` l.
Proof.
  revert seen. induction l as [|r l IH]; intros seen; simpl; [constructor|].
  destruct (decide (key r ∈ seen)).
  - by apply sublist_cons.
  - by apply sublist_skip.
Qed.

Lemma keep_last_elem l o : o ∈ keep_last key l -> o ∈ l.
Proof.
  induction l as [|r l IH]; simpl; [done|].
  destruct (decide (key r ∈ List.map key l)).
  - intros Ho. right. by apply IH.
  - rewrite !elem_of_cons. intros [->|Ho]; [by left|right; by apply IH].
Qed.

Lemma keep_last_NoDup l : NoDup (List.map key (keep_last key l)).
Proof.
  induction l as [|r l IH]; simpl; [constructor|].
  destruct (decide (key r ∈ List.map key l)) as [Hin|Hout]; [exact IH|].
  simpl. apply NoDup_cons. split; [|exact IH].
  intros Hk. apply Hout. rewrite map_fmap in Hk |- *.
  apply list_elem_of_fmap in Hk as (o & Heq & Ho).
  apply list_elem_of_fmap. exists o. split; [assumption|]. by apply keep_last_elem.
Qed.

Lemma keep_last_covers l r :
  r ∈ l -> key r ∈ List.map key (keep_last key l).
Proof.
  revert r. induction l as [|x l IH]; intros r Hr.
  - by apply not_elem_of_nil in Hr.
  - simpl. destruct (decide (key x ∈ List.map key l)) as [Hin|Hout].
    + apply elem_of_cons in Hr as [->|Hr]; [|by apply IH].
      rewrite map_fmap in Hin. apply list_elem_of_fmap in Hin as (y & Heq & Hy).
      rewrite Heq. by apply IH.
    + simpl. apply elem_of_cons in Hr as [->|Hr]; [by left|].
      right. by apply IH.
Qed.

(** A kept row is the last of its key, and the other way round. *)
Lemma keep_last_last l o :
  o ∈ keep_last key l <->
  exists l1 l2, l = l1 ++ o :: l2 /\ key o ∉ List.map key l2.
Proof.
  induction l as [|r l IH]; simpl.
  - split.
    + intros Ho. by apply not_elem_of_nil in Ho.
    + intros (l1 & l2 & Heq & _). by destruct l1.
  - split.
    + destruct (decide (key r ∈ List.map key l)) as [Hin|Hout].
      * intros Ho. apply IH in Ho as (l1 & l2 & -> & Hk).
        by exists (r :: l1), l2.
      * rewrite elem_of_cons. intros [->|Ho].
        -- by exists [], l.
        -- apply IH in Ho as (l1 & l2 & -> & Hk). by exists (r :: l1), l2.
    + intros (l1 & l2 & Heq & Hk).
      destruct l1 as [|x l1]; simpl in Heq; injection Heq as -> ->.
      * rewrite decide_False by assumption. by left.
      * assert (Ho : o ∈ keep_last key (l1 ++ o :: l2)).
        { apply IH. by exists l1, l2. }
        destruct (decide _); [assumption|by right].
Qed.

Lemma keep_last_id l : NoDup (List.map key l) -> keep_last key l = l.
Proof.
  induction l as [|r l IH]; simpl; [reflexivity|].
  intros Hnd. apply NoDup_cons in Hnd as [Hr Hnd].
  rewrite decide_False by assumption. f_equal. by apply IH.
Qed.

Lemma keep_last_sublist l : keep_last key l `sublist_of` l.
Proof.
  induction l as [|r l IH]; simpl; [constructor|].
  destruct (decide _); [by apply sublist_cons|by apply sublist_skip].
Qed.
End UniqueFacts.

Lemma keep_first_pair_same {K} `{EqDecision K} (key : Row -> K) (x y : Row) :
  key x = key y -> keep_first key [] [x; y] = [x].
Proof.
  intros Heq. simpl.
  destruct (decide (key x ∈ [])) as [Hin|_]; [by apply not_elem_of_nil in Hin|].
  destruct (decide (key y ∈ [key x])) as [_|Hout]; [reflexivity|].
  destruct Hout. rewrite Heq. by left.
Qed.

Lemma keep_last_pair_same {K} `{EqDecision K} (key : Row -> K) (x y : Row) :
  key x = key y -> keep_last key [x; y] = [y].
Proof.
  intros Heq. simpl.
  destruct (decide (key x ∈ [key y])) as [_|Hout]; [|destruct Hout; rewrite Heq; by left].
  destruct (decide (key y ∈ [])) as [Hin|_]; [by apply not_elem_of_nil in Hin|].
  reflexivity.
Qed.

Lemma sort_stable_pair by_ (x y : Row) :
  cell_leb by_ x y = true -> sort_stable by_ [x; y] = [x; y].
Proof. intros Hle. unfold sort_stable. simpl. by rewrite Hle. Qed.

Lemma Ok_pair_inj {A B} (a a' : A) (b b' : B) :
  Ok (a, b) = Ok (a', b') -> a = a' /\ b = b'.
Proof. intros [= -> ->]. by split. Qed.

(* --------------------------------------------------------------------- *)
(** ** The composite hash of a row *)

(** The text that is hashed: the three fields, one after the other. *)
Definition composite_text (r : Row) : string :=
  (py_str (cell r "message_id") ++ py_str (cell r "sequence_id")
   ++ py_str (cell r "partition_id"))%string.

Definition row_hash (r : Row) : string := SHA256.hexdigest (composite_text r).

(** The row with its [composite_hash] cell. *)
Definition annotate (r : Row) : Row := <["composite_hash" := VStr (row_hash r)]> r.

Definition composite_key (r : Row) : Value * Value * Value :=
  (cell r "message_id", cell r "sequence_id", cell r "partition_id").

Lemma compute_composite_hash_struct (r : Row) :
  Day04.compute_composite_hash (struct_of composite_key_columns r) = Ok (row_hash r).
Proof. reflexivity. Qed.

Lemma composite_hash_column df :
  has_columns composite_key_columns df ->
  map_elements Day04.compute_composite_hash composite_key_columns df
  = Ok (List.map (fun r => VStr (row_hash r)) (rows df)).
Proof.
  intros Hc. unfold map_elements. rewrite (check_columns_ok _ _ Hc). simpl.
  apply rmap_ok. intros r _. reflexivity.
Qed.

Lemma with_composite_hash_rows df :
  rows (with_column "composite_hash" (List.map (fun r => VStr (row_hash r)) (rows df)) df)
  = List.map annotate (rows df).
Proof. unfold with_column; simpl. apply zip_with_insert_map. Qed.

Lemma composite_text_annotate r : composite_text (annotate r) = composite_text r.
Proof.
  unfold composite_text, annotate. by rewrite !cell_insert_ne.
Qed.

Lemma row_hash_annotate r : row_hash (annotate r) = row_hash r.
Proof. unfold row_hash. by rewrite composite_text_annotate. Qed.

Lemma annotate_idem r : annotate (annotate r) = annotate r.
Proof.
  unfold annotate at 1. rewrite row_hash_annotate. unfold annotate.
  apply insert_insert_eq.
Qed.

Lemma cell_annotate_hash r : cell (annotate r) "composite_hash" = VStr (row_hash r).
Proof. apply cell_insert_eq. Qed.

Lemma cell_annotate r c : c <> "composite_hash" -> cell (annotate r) c = cell r c.
Proof. intros Hc. apply cell_insert_ne. congruence. Qed.

Lemma row_key_hash_annotate r :
  row_key ["composite_hash"] (annotate r) = [VStr (row_hash r)].
Proof. unfold row_key; simpl. by rewrite cell_annotate_hash. Qed.

Lemma row_key_hash_inj r r' :
  row_key ["composite_hash"] (annotate r) = row_key ["composite_hash"] (annotate r')
  <-> row_hash r = row_hash r'.
Proof. rewrite !row_key_hash_annotate. split; [by intros [= ->]|by intros ->]. Qed.

(** The frame after the hash column is added. *)
Definition hashed (df : DataFrame) : DataFrame :=
  with_column "composite_hash" (List.map (fun r => VStr (row_hash r)) (rows df)) df.

Lemma hashed_rows df : rows (hashed df) = List.map annotate (rows df).
Proof. apply with_composite_hash_rows. Qed.

Lemma hashed_columns df c : c ∈ columns df -> c ∈ columns (hashed df).
Proof. apply with_column_columns. Qed.

Lemma hashed_has_hash df : "composite_hash" ∈ columns (hashed df).
Proof. apply with_column_has. Qed.

Lemma height_hashed df : height (hashed df) = height df.
Proof. unfold height. rewrite hashed_rows. apply length_map. Qed.

(** [eager_dedup] on a frame that has the key columns. *)
Lemma eager_dedup_eq E df :
  has_columns composite_key_columns df ->
  Day04.eager_dedup E df
  = Ok ({| columns := columns (hashed df);
           rows := unique_rows E ["composite_hash"] KeepFirst (List.map annotate (rows df)) |},
        [ ("strategy", VStr "eager_dedup");
          ("initial_records", Day04.VNat (height df));
          ("final_records",
           Day04.VNat (length (unique_rows E ["composite_hash"] KeepFirst
                                           (List.map annotate (rows df)))));
          ("dropped_duplicates",
           Day04.VNat (height df
                       - length (unique_rows E ["composite_hash"] KeepFirst
                                             (List.map annotate (rows df))))) ]).
Proof.
  intros Hc. unfold Day04.eager_dedup.
  rewrite (composite_hash_column _ Hc). simpl rbind. fold (hashed df).
  unfold df_unique. rewrite check_columns_ok.
  2:{ constructor; [apply hashed_has_hash|constructor]. }
  simpl rbind. rewrite !zip_with_insert_map, height_hashed. reflexivity.
Qed.

(** [merge_dedup_polars] on a frame that has the key columns and
    [created_at]. *)
Lemma merge_dedup_polars_eq E df :
  has_columns ("created_at" :: composite_key_columns) df ->
  exists m,
    Day04.merge_dedup_polars E df
    = Ok ({| columns := columns (hashed df);
             rows := unique_rows E ["message_id"] KeepLast
                       (sort_rows E "created_at" (List.map annotate (rows df))) |}, m).
Proof.
  intros Hc. inversion Hc as [|? ? Hcreated Hkey]; subst.
  unfold Day04.merge_dedup_polars.
  rewrite (composite_hash_column _ Hkey). simpl rbind. fold (hashed df).
  unfold df_sort. rewrite check_columns_ok.
  2:{ constructor; [by apply hashed_columns|constructor]. }
  simpl rbind. unfold df_unique. rewrite check_columns_ok.
  2:{ constructor; [|constructor]. simpl. apply hashed_columns.
      by inversion Hkey. }
  simpl rbind. rewrite !zip_with_insert_map. eexists. reflexivity.
Qed.

(* ===================================================================== *)
(** * The Eager strategy *)
(* ===================================================================== *)

(** Two records with different composite keys: [("a", 12, 3)] and
    [("a1", 2, 3)]. *)
Definition collision_a : Received := recv (msg "a" 12 3 1000000 100) 1.
Definition collision_b : Received := recv (msg "a1" 2 3 2000000 200) 2.
Definition collision_batch : list Received := [collision_a; collision_b].

Lemma collision_frame_columns :
  has_columns composite_key_columns (load_jsonl collision_batch).
Proof. repeat constructor. Qed.

(** C10.  The composite hash is the SHA-256 of the three key fields written
    one after the other with nothing between them.  The records
    [("a", 12, 3)] and [("a1", 2, 3)] have different composite keys and the
    same hashed text ["a123"], hence the same composite hash, in the day04
    function and in the day05 column; and the Eager strategy, whatever the
    engine, returns one record for the two of them. *)
Theorem composite_hash_collision :
  (forall r : Row,
     Day04.compute_composite_hash (struct_of composite_key_columns r)
     = Ok (SHA256.hexdigest
             (py_str (cell r "message_id") ++ py_str (cell r "sequence_id")
              ++ py_str (cell r "partition_id"))%string))
  /\ composite_key (record_row collision_a) <> composite_key (record_row collision_b)
  /\ composite_text (record_row collision_a) = "a123"
  /\ composite_text (record_row collision_b) = "a123"
  /\ Day04.compute_composite_hash (struct_of composite_key_columns (record_row collision_a))
     = Day04.compute_composite_hash (struct_of composite_key_columns (record_row collision_b))
  /\ (exists df,
        Day05.add_composite_hash_column (load_jsonl collision_batch) = Ok df
        /\ List.map (fun r => cell r "composite_hash") (rows df)
           = [VStr (SHA256.hexdigest "a123"); VStr (SHA256.hexdigest "a123")])
  /\ (forall E : Engine,
        exists out m,
          Day04.eager_dedup E (load_jsonl collision_batch) = Ok (out, m)
          /\ rows out = [annotate (record_row collision_a)]).
Proof.
  split; [intros r; reflexivity|].
  split; [intros Heq; apply (f_equal (fun k => fst (fst k))) in Heq;
          vm_compute in Heq; discriminate|].
  split; [vm_compute; reflexivity|].
  split; [vm_compute; reflexivity|].
  split; [vm_compute; reflexivity|].
  split.
  { eexists. split; [vm_compute; reflexivity|]. vm_compute. reflexivity. }
  intros E. rewrite (eager_dedup_eq E _ collision_frame_columns).
  eexists _, _. split; [reflexivity|]. cbn [rows load_jsonl collision_batch List.map].
  apply Permutation_singleton_r.
  rewrite unique_rows_perm. cbn [unique_stable].
  rewrite keep_first_pair_same; [reflexivity|]. apply row_key_hash_inj.
  unfold row_hash. apply (f_equal SHA256.hexdigest). vm_compute. reflexivity.
Qed.

(** *** The claim as the specification words it

    For each composite key, the first record met, in arrival order. *)
Definition first_per_composite_key (l : list Row) : list Row :=
  keep_first composite_key [] l.

Definition eager_keeps_first_per_key (E : Engine) (df : DataFrame) : Prop :=
  exists out m,
    Day04.eager_dedup E df = Ok (out, m)
    /\ List.map (delete "composite_hash") (rows out) = first_per_composite_key (rows df).

(** On the two colliding records the first record of the key
    [("a1", 2, 3)] is dropped, with the engine that maintains order. *)
Lemma eager_drops_a_first_record :
  ~ eager_keeps_first_per_key stable_engine (load_jsonl collision_batch).
Proof.
  intros (out & m & Hrun & Heq).
  rewrite (eager_dedup_eq _ _ collision_frame_columns) in Hrun.
  apply Ok_pair_inj in Hrun as [<- _].
  cbn [rows load_jsonl collision_batch List.map stable_engine unique_rows unique_stable] in Heq.
  rewrite keep_first_pair_same in Heq.
  2:{ apply row_key_hash_inj. unfold row_hash. apply (f_equal SHA256.hexdigest). vm_compute. reflexivity. }
  unfold first_per_composite_key in Heq. cbn [keep_first] in Heq.
  rewrite decide_False in Heq by apply not_elem_of_nil.
  rewrite decide_False in Heq.
  - discriminate.
  - intros Hin. apply list_elem_of_singleton in Hin.
    apply (f_equal (fun k => fst (fst k))) in Hin. vm_compute in Hin. discriminate.
Qed.

(** Nor is arrival order kept by every engine: on three distinct records
    the reversing engine returns them last first. *)
Lemma eager_order_not_kept :
  exists out m,
    Day04.eager_dedup reversing_engine (load_jsonl batch_abc) = Ok (out, m)
    /\ List.map (fun r => cell r "sequence_id") (rows out) = [VInt 3; VInt 2; VInt 1].
Proof. eexists _, _. split; vm_compute; reflexivity. Qed.

(** What the code does: first record per composite hash. *)
Definition eager_first_per_hash (E : Engine) (df : DataFrame) : Prop :=
  exists out m,
    Day04.eager_dedup E df = Ok (out, m)
    (* a surviving record is an input record with its hash, and no record
       before it has that hash *)
    /\ (forall o, o ∈ rows out ->
          exists l1 r l2,
            rows df = l1 ++ r :: l2 /\ o = annotate r
            /\ forall r', r' ∈ l1 -> row_hash r' <> row_hash r)
    (* every hash of the input survives *)
    /\ (forall r, r ∈ rows df ->
          exists o, o ∈ rows out /\ cell o "composite_hash" = VStr (row_hash r))
    (* once *)
    /\ NoDup (List.map (fun o => cell o "composite_hash") (rows out))
    (* the survivors are the first occurrences, in some order *)
    /\ rows out ≡ₚ keep_first (row_key ["composite_hash"]) [] (List.map annotate (rows df))
    (* in arrival order when the engine maintains order *)
    /\ (unique_rows E = unique_stable ->
          rows out `sublist_of` List.map annotate (rows df)).

(** C5, amended.  For every batch with the three key columns, the output of
    Eager holds, for each composite hash of the batch, the first record
    with that hash and no other; the rows come in an order of the engine's
    choosing, which is arrival order when the engine maintains order. *)
Theorem eager_keeps_first_per_hash (E : Engine) (df : DataFrame) :
  has_columns composite_key_columns df -> eager_first_per_hash E df.
Proof.
  intros Hc. unfold eager_first_per_hash.
  rewrite (eager_dedup_eq E df Hc). eexists _, _. split; [reflexivity|].
  simpl rows.
  pose proof (unique_rows_perm E ["composite_hash"] KeepFirst (List.map annotate (rows df)))
    as Hperm.
  simpl in Hperm.
  set (firsts := keep_first (row_key ["composite_hash"]) [] (List.map annotate (rows df))) in *.
  split; [|split; [|split; [|split]]].
  - intros o Ho. rewrite Hperm in Ho.
    apply keep_first_first in Ho as (a1 & a2 & Hsplit & Hk).
    rewrite map_fmap in Hsplit.
    apply fmap_app_inv in Hsplit as (l1 & l2' & -> & Hl2 & Hrows).
    symmetry in Hl2. apply fmap_cons_inv in Hl2 as (r & l2 & -> & -> & ->).
    exists l1, r, l2. split; [assumption|]. split; [reflexivity|].
    intros r' Hr' Heq. apply Hk. rewrite map_fmap.
    apply list_elem_of_fmap. exists (annotate r'). split.
    + by apply row_key_hash_inj.
    + by apply list_elem_of_fmap_2.
  - intros r Hr.
    assert (Hcov : row_key ["composite_hash"] (annotate r)
                   ∈ List.map (row_key ["composite_hash"]) firsts).
    { apply keep_first_covers; [|apply not_elem_of_nil].
      rewrite map_fmap. by apply list_elem_of_fmap_2. }
    rewrite map_fmap in Hcov. apply list_elem_of_fmap in Hcov as (o & Heq & Ho).
    exists o. split; [by rewrite Hperm|].
    rewrite row_key_hash_annotate in Heq. unfold row_key in Heq; simpl in Heq.
    by injection Heq as <-.
  - assert (Hnd : NoDup (List.map (row_key ["composite_hash"]) firsts))
      by apply keep_first_NoDup.
    rewrite Hperm.
    rewrite map_fmap in Hnd. rewrite map_fmap.
    eapply (NoDup_fmap_1 (fun v => [v])).
    rewrite <- list_fmap_compose. exact Hnd.
  - exact Hperm.
  - intros Hst. rewrite Hst. simpl. apply keep_first_sublist.
Qed.

Lemma eager_keeps_first_per_hash_witness :
  has_columns composite_key_columns (load_jsonl batch_abc)
  /\ eager_first_per_hash stable_engine (load_jsonl batch_abc).
Proof.
  split; [repeat constructor|].
  apply eager_keeps_first_per_hash. repeat constructor.
Defined.

(* ===================================================================== *)
(** * The Merge strategy *)
(* ===================================================================== *)

(** Where [insert_sorted] puts a row: after the rows it is strictly
    greater than. *)
Lemma insert_sorted_split by_ x l :
  exists l1 l2,
    l = l1 ++ l2 /\ insert_sorted by_ x l = l1 ++ x :: l2
    /\ forall y, y ∈ l1 -> cell_leb by_ x y = false.
Proof.
  induction l as [|y l IH]; simpl.
  - exists [], []. repeat split. intros y Hy. by apply not_elem_of_nil in Hy.
  - destruct (cell_leb by_ x y) eqn:E.
    + exists [], (y :: l). repeat split. intros z Hz. by apply not_elem_of_nil in Hz.
    + destruct IH as (l1 & l2 & -> & -> & Hl1).
      exists (y :: l1), l2. repeat split.
      intros z Hz. apply elem_of_cons in Hz as [->|Hz]; [assumption|by apply Hl1].
Qed.

Section StableMerge.
Context {K : Type} `{EqDecision K}.
Variable key : Row -> K.
Variable by_ : string.

(** After a stable sort the last row of a key is, among the rows of that
    key, one that no later row of the batch equals or exceeds. *)
Lemma stable_last_wins l o :
  o ∈ keep_last key (sort_stable by_ l) ->
  exists l1 l2,
    l = l1 ++ o :: l2
    /\ forall r', r' ∈ l2 -> key r' = key o -> cell_leb by_ o r' = false.
Proof.
  revert o. induction l as [|x l IH]; intros o Ho.
  - simpl in Ho. by apply not_elem_of_nil in Ho.
  - simpl in Ho.
    destruct (insert_sorted_split by_ x (sort_stable by_ l)) as (S1 & S2 & HS & Hins & HS1).
    rewrite Hins in Ho. apply keep_last_last in Ho as (L1 & L2 & Heq & Hk).
    assert (Hstep : o ∈ keep_last key (sort_stable by_ l) ->
              exists l1 l2, x :: l = l1 ++ o :: l2
                /\ forall r', r' ∈ l2 -> key r' = key o -> cell_leb by_ o r' = false).
    { intros Ho. destruct (IH o Ho) as (l1 & l2 & -> & Hl2).
      by exists (x :: l1), l2. }
    apply app_eq_app in Heq as [m [[HS1eq Hm]|[HL1 Hm]]].
    + destruct m as [|o' m]; simpl in Hm.
      * injection Hm as -> ->.
        exists [], l. split; [reflexivity|].
        intros r' Hr' Hkey.
        assert (Hin : r' ∈ sort_stable by_ l) by (by rewrite sort_stable_perm).
        rewrite HS in Hin. apply elem_of_app in Hin as [Hin|Hin]; [by apply HS1|].
        destruct Hk. rewrite <- Hkey, map_fmap. by apply list_elem_of_fmap_2.
      * injection Hm as -> ->. apply Hstep. apply keep_last_last.
        exists L1, (m ++ S2). split.
        -- rewrite HS, HS1eq, <- app_assoc. reflexivity.
        -- intros Hin. apply Hk. rewrite map_fmap in Hin |- *.
           rewrite fmap_app in Hin |- *. rewrite fmap_cons.
           apply elem_of_app in Hin as [Hin|Hin]; apply elem_of_app;
             [by left|right; by right].
    + destruct m as [|x' m]; simpl in Hm.
      * injection Hm as -> ->.
        exists [], l. split; [reflexivity|].
        intros r' Hr' Hkey.
        assert (Hin : r' ∈ sort_stable by_ l) by (by rewrite sort_stable_perm).
        rewrite HS in Hin. apply elem_of_app in Hin as [Hin|Hin]; [by apply HS1|].
        destruct Hk. rewrite <- Hkey, map_fmap. by apply list_elem_of_fmap_2.
      * injection Hm as -> ->. apply Hstep. apply keep_last_last.
        exists (S1 ++ m), L2. split; [|assumption].
        rewrite HS, <- app_assoc. reflexivity.
Qed.

(** After any sort the last row of a key is greatest among its key. *)
Lemma sorted_last_is_greatest (s : list Row) o r' :
  Sorted (cell_le by_) s ->
  o ∈ keep_last key s -> r' ∈ s -> key r' = key o -> cell_le by_ r' o.
Proof.
  intros Hs Ho Hr' Hkey.
  apply Sorted_StronglySorted in Hs; [|apply _].
  apply keep_last_last in Ho as (s1 & s2 & -> & Hk).
  apply elem_of_app in Hr' as [Hr'|Hr'].
  - eapply StronglySorted_app_1_elem_of; [exact Hs|exact Hr'|by left].
  - apply elem_of_cons in Hr' as [->|Hr'].
    + apply value_leb_refl.
    + destruct Hk. rewrite <- Hkey, map_fmap. by apply list_elem_of_fmap_2.
Qed.
End StableMerge.

(** Two records that share [message_id] and [created_at]. *)
Definition tie_batch : list Received :=
  [ recv (msg "abc" 1 0 1000000 100) 1;
    recv (msg "abc" 2 0 1000000 200) 2 ].

Lemma tie_frame_columns :
  has_columns ("created_at" :: composite_key_columns) (load_jsonl tie_batch).
Proof. repeat constructor. Qed.

(** *** The tie-break

    The record kept for a [message_id] has the greatest [created_at], and
    among equals it is the one latest in the batch: no later record of the
    batch with its [message_id] is created at the same time or after. *)
Definition merge_breaks_ties_by_position (E : Engine) (df : DataFrame) : Prop :=
  exists out m,
    Day04.merge_dedup_polars E df = Ok (out, m)
    /\ forall o, o ∈ rows out ->
         exists l1 r l2,
           rows df = l1 ++ r :: l2 /\ o = annotate r
           /\ forall r', r' ∈ l2 -> cell r' "message_id" = cell r "message_id" ->
                value_leb (cell r "created_at") (cell r' "created_at") = false.

(** What the code does with any engine. *)
Definition merge_last_write_wins (E : Engine) (df : DataFrame) : Prop :=
  exists out m,
    Day04.merge_dedup_polars E df = Ok (out, m)
    (* one record for each message_id of the batch *)
    /\ NoDup (List.map (fun o => cell o "message_id") (rows out))
    /\ (forall r, r ∈ rows df ->
          exists o, o ∈ rows out /\ cell o "message_id" = cell r "message_id")
    (* an input record, of greatest created_at for its message_id *)
    /\ (forall o, o ∈ rows out ->
          exists r, r ∈ rows df /\ o = annotate r
            /\ forall r', r' ∈ rows df ->
                 cell r' "message_id" = cell r "message_id" ->
                 value_leb (cell r' "created_at") (cell r "created_at") = true)
    (* the last of its message_id in the frame as the engine sorted it *)
    /\ rows out ≡ₚ keep_last (row_key ["message_id"])
                     (sort_rows E "created_at" (List.map annotate (rows df)))
    (* with a stable sort, the latest in the batch among the greatest *)
    /\ (sort_rows E = sort_stable -> merge_breaks_ties_by_position E df).

Lemma row_key_mid r r' :
  row_key ["message_id"] r = row_key ["message_id"] r'
  <-> cell r "message_id" = cell r' "message_id".
Proof. unfold row_key; simpl. split; [by intros [= ->]|by intros ->]. Qed.

(** For every batch with the key columns and [created_at], the output of
    Merge holds one record for each [message_id] of the batch: the record
    that comes last in the engine's sort by [created_at], which has the
    greatest [created_at] of its [message_id]; with the sort that leaves
    equal rows in place it is, among the greatest, the one latest in the
    batch. *)
Lemma merge_keeps_last_write (E : Engine) (df : DataFrame) :
  has_columns ("created_at" :: composite_key_columns) df -> merge_last_write_wins E df.
Proof.
  intros Hc. unfold merge_last_write_wins, merge_breaks_ties_by_position.
  destruct (merge_dedup_polars_eq E df Hc) as [m Heq]. rewrite Heq.
  eexists _, m. split; [reflexivity|]. simpl rows.
  set (A := List.map annotate (rows df)).
  set (S := sort_rows E "created_at" A).
  pose proof (unique_rows_perm E ["message_id"] KeepLast S) as Hperm. simpl in Hperm.
  assert (HSA : forall r, r ∈ S <-> r ∈ A).
  { intros r. unfold S. by rewrite sort_rows_perm. }
  assert (Hback : forall o, o ∈ keep_last (row_key ["message_id"]) S ->
            exists r, r ∈ rows df /\ o = annotate r).
  { intros o Ho. apply keep_last_elem, HSA in Ho. unfold A in Ho.
    rewrite map_fmap in Ho. apply list_elem_of_fmap in Ho as (r & -> & Hr). by exists r. }
  split; [|split; [|split; [|split]]].
  - rewrite Hperm.
    pose proof (keep_last_NoDup (row_key ["message_id"]) S) as Hnd.
    rewrite map_fmap in Hnd. rewrite map_fmap.
    eapply (NoDup_fmap_1 (fun v => [v])). rewrite <- list_fmap_compose. exact Hnd.
  - intros r Hr.
    assert (Hcov : row_key ["message_id"] (annotate r)
                   ∈ List.map (row_key ["message_id"]) (keep_last (row_key ["message_id"]) S)).
    { apply keep_last_covers, HSA. unfold A. rewrite map_fmap.
      by apply list_elem_of_fmap_2. }
    rewrite map_fmap in Hcov. apply list_elem_of_fmap in Hcov as (o & Hk & Ho).
    exists o. split; [by rewrite Hperm|].
    apply row_key_mid in Hk. rewrite <- Hk. by apply cell_annotate.
  - intros o Ho. rewrite Hperm in Ho.
    destruct (Hback o Ho) as (r & Hr & ->). exists r. split; [assumption|].
    split; [reflexivity|]. intros r' Hr' Hmid.
    assert (Hle : cell_le "created_at" (annotate r') (annotate r)).
    { apply (sorted_last_is_greatest (row_key ["message_id"]) "created_at" S).
      - apply sort_rows_sorted.
      - assumption.
      - apply HSA. unfold A. rewrite map_fmap. by apply list_elem_of_fmap_2.
      - apply row_key_mid. by rewrite !cell_annotate. }
    unfold cell_le, cell_leb in Hle. by rewrite !cell_annotate in Hle.
  - exact Hperm.
  - intros Hst. eexists _, m. split; [reflexivity|]. simpl rows.
    intros o Ho. fold A in Ho. fold S in Ho. rewrite Hperm in Ho.
    unfold S in Ho. rewrite Hst in Ho.
    apply stable_last_wins in Ho as (a1 & a2 & Hsplit & Hlater).
    unfold A in Hsplit. rewrite map_fmap in Hsplit.
    apply fmap_app_inv in Hsplit as (l1 & l2' & -> & Hl2 & Hrows).
    symmetry in Hl2. apply fmap_cons_inv in Hl2 as (r & l2 & -> & -> & ->).
    exists l1, r, l2. split; [assumption|]. split; [reflexivity|].
    intros r' Hr' Hmid.
    specialize (Hlater (annotate r')). unfold cell_leb in Hlater.
    rewrite !cell_annotate in Hlater by done. apply Hlater.
    + by apply list_elem_of_fmap_2.
    + apply row_key_mid. by rewrite !cell_annotate.
Qed.

(** *** The record kept for a message_id

    [out] holds one record for each [message_id] of the batch [l], each the
    batch record [r] with its hash column ([f r]): [r] has the greatest
    [created_at] of its [message_id], and every record of that
    [message_id] later in the batch is strictly older. *)
Definition latest_per_message_id (f : Row -> Row) (l out : list Row) : Prop :=
  NoDup (List.map (fun o => cell o "message_id") out)
  /\ (forall r, r ∈ l -> exists o, o ∈ out /\ cell o "message_id" = cell r "message_id")
  /\ (forall o, o ∈ out ->
        exists l1 r l2,
          l = l1 ++ r :: l2 /\ o = f r
          /\ (forall r', r' ∈ l ->
                 cell r' "message_id" = cell r "message_id" ->
                 value_leb (cell r' "created_at") (cell r "created_at") = true)
          /\ (forall r', r' ∈ l2 ->
                 cell r' "message_id" = cell r "message_id" ->
                 value_leb (cell r "created_at") (cell r' "created_at") = false)).

(** The last row of each [message_id] after the sort that leaves equal rows
    in place. *)
Lemma latest_of_stable_sort (f : Row -> Row) (l out : list Row) :
  (forall r c, c <> "composite_hash" -> cell (f r) c = cell r c) ->
  out ≡ₚ keep_last (row_key ["message_id"]) (sort_stable "created_at" (List.map f l)) ->
  latest_per_message_id f l out.
Proof.
  intros Hf Hperm.
  set (S := sort_stable "created_at" (List.map f l)) in *.
  assert (HSA : forall r, r ∈ S <-> r ∈ List.map f l).
  { intros r. unfold S. by rewrite sort_stable_perm. }
  split; [|split].
  - rewrite Hperm.
    pose proof (keep_last_NoDup (row_key ["message_id"]) S) as Hnd.
    rewrite map_fmap in Hnd. rewrite map_fmap.
    eapply (NoDup_fmap_1 (fun v => [v])). rewrite <- list_fmap_compose. exact Hnd.
  - intros r Hr.
    assert (Hcov : row_key ["message_id"] (f r)
                   ∈ List.map (row_key ["message_id"]) (keep_last (row_key ["message_id"]) S)).
    { apply keep_last_covers, HSA. rewrite map_fmap. by apply list_elem_of_fmap_2. }
    rewrite map_fmap in Hcov. apply list_elem_of_fmap in Hcov as (o & Hk & Ho).
    exists o. split; [by rewrite Hperm|].
    apply row_key_mid in Hk. rewrite <- Hk. by apply Hf.
  - intros o Ho. rewrite Hperm in Ho.
    pose proof Ho as Hlast. unfold S in Hlast.
    apply stable_last_wins in Hlast as (a1 & a2 & Hsplit & Hlater).
    rewrite map_fmap in Hsplit.
    apply fmap_app_inv in Hsplit as (l1 & l2' & -> & Hl2 & Hrows).
    symmetry in Hl2. apply fmap_cons_inv in Hl2 as (r & l2 & -> & -> & ->).
    exists l1, r, l2. split; [exact Hrows|]. split; [reflexivity|]. split.
    + intros r' Hr' Hmid.
      assert (Hle : cell_le "created_at" (f r') (f r)).
      { apply (sorted_last_is_greatest (row_key ["message_id"]) "created_at" S).
        - apply sort_stable_sorted.
        - exact Ho.
        - apply HSA. rewrite map_fmap. by apply list_elem_of_fmap_2.
        - apply row_key_mid. by rewrite !Hf. }
      unfold cell_le, cell_leb in Hle. by rewrite !Hf in Hle.
    + intros r' Hr' Hmid.
      specialize (Hlater (f r')). unfold cell_leb in Hlater.
      rewrite !Hf in Hlater by done. apply Hlater.
      * by apply list_elem_of_fmap_2.
      * apply row_key_mid. by rewrite !Hf.
Qed.

(* ===================================================================== *)
(** * Idempotence of Eager and Merge *)
(* ===================================================================== *)

Lemma map_id_on {A} (f : A -> A) (l : list A) :
  (forall x, x ∈ l -> f x = x) -> List.map f l = l.
Proof.
  induction l as [|a l IH]; intros Hf; simpl; [reflexivity|].
  rewrite Hf by (by left). f_equal. apply IH. intros x Hx. apply Hf. by right.
Qed.

Lemma sort_stable_sorted_id by_ l :
  Sorted (cell_le by_) l -> sort_stable by_ l = l.
Proof.
  induction 1 as [|x l Hs IH Hhd]; [reflexivity|].
  unfold sort_stable in *. simpl. rewrite IH.
  destruct Hhd as [|y l' Hxy]; simpl; [reflexivity|].
  unfold cell_le in Hxy. by rewrite Hxy.
Qed.

Lemma keep_last_sorted {K} `{EqDecision K} (key : Row -> K) by_ l :
  Sorted (cell_le by_) l -> Sorted (cell_le by_) (keep_last key l).
Proof.
  intros Hs. apply Sorted_StronglySorted in Hs; [|apply _].
  apply StronglySorted_Sorted.
  induction Hs as [|x l Hs IH Hx]; simpl; [constructor|].
  destruct (decide _); [exact IH|].
  constructor; [exact IH|].
  apply Forall_forall. intros y Hy. rewrite Forall_forall in Hx.
  apply Hx. eapply keep_last_elem. exact Hy.
Qed.

Lemma NoDup_map_perm {A B} (f : A -> B) (l k : list A) :
  l ≡ₚ k -> NoDup (List.map f k) -> NoDup (List.map f l).
Proof. intros Hp. rewrite !map_fmap. by rewrite Hp. Qed.

(** Rows that carry their hash already are left as they are. *)
Lemma annotate_fixed (rs : list Row) (l : list Row) :
  (forall o, o ∈ l -> o ∈ List.map annotate rs) -> List.map annotate l = l.
Proof.
  intros Hl. apply map_id_on. intros o Ho. apply Hl in Ho.
  rewrite map_fmap in Ho. apply list_elem_of_fmap in Ho as (r & -> & _).
  apply annotate_idem.
Qed.

Lemma hashed_columns_id df :
  "composite_hash" ∈ columns df -> columns (hashed df) = columns df.
Proof. apply with_column_columns_id. Qed.

Lemma has_columns_hashed cs df : has_columns cs df -> has_columns cs (hashed df).
Proof. unfold has_columns. rewrite !Forall_forall. intros H c Hc. by apply hashed_columns, H. Qed.

(** Applying a strategy to its own output: the same columns and the same
    records; the same frame, row for row, when the engines maintain
    order. *)
Definition eager_idempotent (E1 E2 : Engine) (df : DataFrame) : Prop :=
  exists out1 m1 out2 m2,
    Day04.eager_dedup E1 df = Ok (out1, m1)
    /\ Day04.eager_dedup E2 out1 = Ok (out2, m2)
    /\ columns out2 = columns out1
    /\ rows out2 ≡ₚ rows out1
    /\ (unique_rows E2 = unique_stable -> out2 = out1).

Definition merge_idempotent (E1 E2 : Engine) (df : DataFrame) : Prop :=
  exists out1 m1 out2 m2,
    Day04.merge_dedup_polars E1 df = Ok (out1, m1)
    /\ Day04.merge_dedup_polars E2 out1 = Ok (out2, m2)
    /\ columns out2 = columns out1
    /\ rows out2 ≡ₚ rows out1
    /\ (sort_rows E1 = sort_stable -> unique_rows E1 = unique_stable ->
        sort_rows E2 = sort_stable -> unique_rows E2 = unique_stable ->
        out2 = out1).

Lemma eager_dedup_idempotent E1 E2 df :
  has_columns composite_key_columns df -> eager_idempotent E1 E2 df.
Proof.
  intros Hc. unfold eager_idempotent.
  set (A := List.map annotate (rows df)).
  set (R1 := unique_rows E1 ["composite_hash"] KeepFirst A).
  set (out1 := {| columns := columns (hashed df); rows := R1 |}).
  assert (Hc1 : has_columns composite_key_columns out1) by (by apply has_columns_hashed).
  eexists out1, _, _, _.
  split; [apply (eager_dedup_eq E1 df Hc)|].
  split; [apply (eager_dedup_eq E2 out1 Hc1)|]. cbn [rows columns].
  change (rows out1) with R1.
  pose proof (unique_rows_perm E1 ["composite_hash"] KeepFirst A) as Hp1.
  simpl in Hp1. fold R1 in Hp1.
  assert (Hfix : List.map annotate R1 = R1).
  { apply (annotate_fixed (rows df)). intros o Ho. rewrite Hp1 in Ho.
    by apply keep_first_elem in Ho as [Ho _]. }
  assert (Hid : keep_first (row_key ["composite_hash"]) [] R1 = R1).
  { apply keep_first_id; [|intros; apply not_elem_of_nil].
    eapply NoDup_map_perm; [exact Hp1|apply keep_first_NoDup]. }
  assert (Hcols : columns (hashed out1) = columns (hashed df)).
  { apply (hashed_columns_id out1). apply hashed_has_hash. }
  rewrite Hfix. split; [exact Hcols|]. split.
  - rewrite (unique_rows_perm E2). simpl. by rewrite Hid.
  - intros Hst. rewrite Hst. unfold unique_stable. rewrite Hid, Hcols. reflexivity.
Qed.

Lemma merge_dedup_idempotent E1 E2 df :
  has_columns ("created_at" :: composite_key_columns) df -> merge_idempotent E1 E2 df.
Proof.
  intros Hc. unfold merge_idempotent.
  destruct (merge_dedup_polars_eq E1 df Hc) as [m1 Heq1].
  set (A := List.map annotate (rows df)) in *.
  set (R1 := unique_rows E1 ["message_id"] KeepLast (sort_rows E1 "created_at" A)) in *.
  set (out1 := {| columns := columns (hashed df); rows := R1 |}) in *.
  assert (Hc1 : has_columns ("created_at" :: composite_key_columns) out1)
    by (by apply has_columns_hashed).
  destruct (merge_dedup_polars_eq E2 out1 Hc1) as [m2 Heq2].
  eexists out1, m1, _, m2. split; [exact Heq1|]. split; [exact Heq2|]. cbn [rows columns].
  change (rows out1) with R1.
  pose proof (unique_rows_perm E1 ["message_id"] KeepLast (sort_rows E1 "created_at" A))
    as Hp1.
  simpl in Hp1. fold R1 in Hp1.
  assert (Hfix : List.map annotate R1 = R1).
  { apply (annotate_fixed (rows df)). intros o Ho. rewrite Hp1 in Ho.
    apply keep_last_elem in Ho. by rewrite sort_rows_perm in Ho. }
  assert (Hnd : NoDup (List.map (row_key ["message_id"]) R1)).
  { eapply NoDup_map_perm; [exact Hp1|apply keep_last_NoDup]. }
  assert (Hcols : columns (hashed out1) = columns (hashed df)).
  { apply (hashed_columns_id out1). apply hashed_has_hash. }
  rewrite Hfix. split; [exact Hcols|]. split.
  - rewrite (unique_rows_perm E2). simpl.
    rewrite keep_last_id; [apply sort_rows_perm|].
    eapply NoDup_map_perm; [apply sort_rows_perm|exact Hnd].
  - intros Hs1 Hu1 Hs2 Hu2. rewrite Hs2, Hu2. unfold unique_stable.
    assert (Hsorted : Sorted (cell_le "created_at") R1).
    { unfold R1. rewrite Hs1, Hu1. unfold unique_stable.
      apply keep_last_sorted, sort_stable_sorted. }
    rewrite (sort_stable_sorted_id _ _ Hsorted).
    rewrite (keep_last_id _ _ Hnd). rewrite Hcols. reflexivity.
Qed.

(** C3.  For every batch (with the key columns and [created_at]),
    [Eager(Eager(b))] is [Eager(b)] and [Merge(Merge(b))] is [Merge(b)]:
    the second application returns the same columns and the same records
    as the first, whatever the engines; and the same frame, row for row,
    when the engines maintain order. *)
Theorem eager_merge_idempotent (E1 E2 : Engine) (df : DataFrame) :
  has_columns ("created_at" :: composite_key_columns) df ->
  eager_idempotent E1 E2 df /\ merge_idempotent E1 E2 df.
Proof.
  intros Hc. split.
  - apply eager_dedup_idempotent. by inversion Hc.
  - by apply merge_dedup_idempotent.
Qed.

Lemma eager_merge_idempotent_witness :
  has_columns ("created_at" :: composite_key_columns) (load_jsonl (batch_abc ++ batch_abc))
  /\ eager_idempotent reversing_engine stable_engine (load_jsonl (batch_abc ++ batch_abc))
  /\ merge_idempotent reversing_engine stable_engine (load_jsonl (batch_abc ++ batch_abc)).
Proof.
  split; [repeat constructor|].
  apply eager_merge_idempotent. repeat constructor.
Defined.

Example eager_twice_abc :
  match Day04.eager_dedup stable_engine (load_jsonl (batch_abc ++ batch_abc)) with
  | Ok (out1, _) =>
      match Day04.eager_dedup stable_engine out1 with
      | Ok (out2, _) => out2 = out1 /\ height out1 = 3%nat
      | Err _ => False
      end
  | Err _ => False
  end.
Proof. vm_compute. split; reflexivity. Qed.

(* ===================================================================== *)
(** * The Bronze strategy *)
(* ===================================================================== *)

Definition json_scalar (v : Value) : Prop :=
  match v with VDate _ => False | _ => True end.

Definition epoch_number (v : Value) : Prop :=
  match v with VNull | VInt _ | VFloat _ => True | _ => False end.

(** A frame of received records: the key columns and [created_at] are
    there, the cells are JSON scalars and [created_at] is a number. *)
Definition record_frame (df : DataFrame) : Prop :=
  has_columns ("created_at" :: composite_key_columns) df
  /\ forall r, r ∈ rows df ->
       (forall c, c ∈ columns df -> json_scalar (cell r c))
       /\ epoch_number (cell r "created_at").

Lemma cell_list_to_map (d : dict) (c : string) :
  cell (list_to_map d) c = match dict_get d c with Ok v => v | Err _ => VNull end.
Proof.
  unfold cell. induction d as [|[k v] d IH]; simpl.
  - by rewrite lookup_empty.
  - destruct (String.eqb_spec k c) as [->|Hne].
    + by rewrite lookup_insert_eq.
    + by rewrite lookup_insert_ne.
Qed.

Lemma cell_record_row (r : Received) (c : string) :
  cell (record_row r) c = match dict_get (record_dict r) c with Ok v => v | Err _ => VNull end.
Proof. apply cell_list_to_map. Qed.

Lemma load_jsonl_record_frame (batch : list Received) : record_frame (load_jsonl batch).
Proof.
  split; [repeat constructor|].
  intros row Hrow. simpl in Hrow. rewrite map_fmap in Hrow.
  apply list_elem_of_fmap in Hrow as (r & -> & _).
  split.
  - intros c _. rewrite cell_record_row. unfold record_dict. cbn [dict_get].
    repeat (destruct (String.eqb _ c); [exact I|]). exact I.
  - rewrite cell_record_row. exact I.
Qed.


Lemma rmap_ok_some {A B} (f : A -> result B) (l : list A) :
  (forall x, x ∈ l -> exists b, f x = Ok b) -> exists bs, rmap f l = Ok bs.
Proof.
  induction l as [|a l IH]; intros Hf; simpl; [by eexists|].
  destruct (Hf a) as [b Hb]; [by left|]. rewrite Hb. simpl.
  destruct IH as [bs Hbs]; [intros x Hx; apply Hf; by right|].
  rewrite Hbs. simpl. by eexists.
Qed.

Lemma json_value_ok v : json_scalar v -> exists s, json_value v = Ok s.
Proof. destruct v; simpl; intros Hv; [by eexists..|destruct Hv]. Qed.

Lemma json_dumps_sorted_ok (d : dict) :
  (forall kv, kv ∈ d -> json_scalar (snd kv)) -> exists s, json_dumps_sorted d = Ok s.
Proof.
  intros Hd. unfold json_dumps_sorted.
  destruct (rmap_ok_some
              (fun kv => do j <- json_value (snd kv); Ok (json_string (fst kv) ++ ": " ++ j)%string)
              (merge_sort key_leb d)) as [items Hitems].
  - intros kv Hkv. rewrite merge_sort_Permutation in Hkv.
    destruct (json_value_ok (snd kv) (Hd kv Hkv)) as [j Hj]. rewrite Hj. simpl. by eexists.
  - rewrite Hitems. simpl. by eexists.
Qed.

Lemma compute_payload_hash_ok cols (r : Row) :
  (forall c, c ∈ cols -> json_scalar (cell r c)) ->
  exists h, Day04.compute_payload_hash (struct_of cols r) = Ok h.
Proof.
  intros Hr. unfold Day04.compute_payload_hash.
  destruct (json_dumps_sorted_ok (struct_of cols r)) as [s Hs].
  - intros kv Hkv. unfold struct_of in Hkv. rewrite map_fmap in Hkv.
    apply list_elem_of_fmap in Hkv as (c & -> & Hc). simpl. by apply Hr.
  - rewrite Hs. simpl. by eexists.
Qed.

(** The cells Bronze adds to a row. *)
Definition payload_cell (cols : list string) (r : Row) : Value :=
  match Day04.compute_payload_hash (struct_of cols r) with
  | Ok h => VStr h
  | Err _ => VNull
  end.

Definition date_cell (r : Row) : Value :=
  match Day04.epoch_date (cell r "created_at") with
  | Ok d => d
  | Err _ => VNull
  end.

Lemma payload_column cols (df : DataFrame) :
  has_columns cols df ->
  (forall r, r ∈ rows df -> forall c, c ∈ cols -> json_scalar (cell r c)) ->
  map_elements Day04.compute_payload_hash cols df
  = Ok (List.map (payload_cell cols) (rows df)).
Proof.
  intros Hc Hr. unfold map_elements. rewrite (check_columns_ok _ _ Hc). simpl.
  apply rmap_ok. intros r Hin. unfold payload_cell.
  destruct (compute_payload_hash_ok cols r (Hr r Hin)) as [h Hh]. by rewrite Hh.
Qed.

Lemma date_column (df : DataFrame) :
  "created_at" ∈ columns df ->
  (forall r, r ∈ rows df -> epoch_number (cell r "created_at")) ->
  Day04.from_epoch_date "created_at" df = Ok (List.map date_cell (rows df)).
Proof.
  intros Hc Hr. unfold Day04.from_epoch_date.
  rewrite check_columns_ok by (by repeat constructor). simpl.
  apply rmap_ok. intros r Hin. unfold date_cell.
  specialize (Hr r Hin). by destruct (cell r "created_at").
Qed.

Lemma zip_with_map_map {A B C D} (f : B -> C -> D) (g : A -> B) (h : A -> C) (l : list A) :
  zip_with f (List.map g l) (List.map h l) = List.map (fun x => f (g x) (h x)) l.
Proof. induction l as [|a l IH]; simpl; [reflexivity|]. by rewrite IH. Qed.

(** The row Bronze makes of a row. *)
Definition bronze_row (cols : list string) (r : Row) : Row :=
  <["partition_date" := date_cell r]>
    (<["payload_hash" := payload_cell cols r]> (annotate r)).

Definition bronze_columns : list string :=
  ["composite_hash"; "payload_hash"; "partition_date"].

Lemma add_hashes_eq (df : DataFrame) :
  record_frame df ->
  exists out m,
    Day04.add_hashes df = Ok (out, m)
    /\ rows out = List.map (bronze_row (columns df)) (rows df).
Proof.
  intros [Hc Hr]. inversion Hc as [|? ? Hcreated Hkey]; subst.
  unfold Day04.add_hashes.
  rewrite check_columns_ok.
  2:{ unfold has_columns. rewrite !Forall_app. split; [exact Hkey|].
      split; [by apply Forall_forall|by repeat constructor]. }
  simpl rbind.
  rewrite (composite_hash_column _ Hkey). simpl rbind.
  rewrite (payload_column (columns df)).
  2:{ unfold has_columns. by apply Forall_forall. }
  2:{ intros r Hin. by apply Hr. }
  simpl rbind. rewrite date_column; [|assumption|intros r Hin; by apply Hr].
  simpl rbind. eexists _, _. split; [reflexivity|].
  unfold with_columns. cbn [fold_left fst snd]. unfold with_column at 1 2. cbn [rows].
  rewrite with_composite_hash_rows.
  rewrite (zip_with_map_map (fun r v => <["payload_hash" := v]> r) annotate).
  rewrite zip_with_map_map. reflexivity.
Qed.

(** Bronze on a batch: no record is dropped or changed, and each gets its
    two hashes. *)
Definition bronze_keeps_all (df : DataFrame) : Prop :=
  exists out m,
    Day04.add_hashes df = Ok (out, m)
    /\ height out = height df
    /\ Forall2 (fun r o =>
         (forall c, c ∉ bronze_columns -> o !! c = r !! c)
         /\ cell o "composite_hash" = VStr (row_hash r)
         /\ exists h, Day04.compute_payload_hash (struct_of (columns df) r) = Ok h
                      /\ cell o "payload_hash" = VStr h)
       (rows df) (rows out).

Lemma add_hashes_keeps_all (df : DataFrame) : record_frame df -> bronze_keeps_all df.
Proof.
  intros Hrf. destruct (add_hashes_eq df Hrf) as (out & m & Heq & Hrows).
  exists out, m. split; [assumption|].
  split; [unfold height; rewrite Hrows; apply length_map|].
  rewrite Hrows. destruct Hrf as [_ Hr].
  assert (Hall : forall r, r ∈ rows df -> forall c, c ∈ columns df -> json_scalar (cell r c))
    by (intros r Hin; by apply Hr).
  clear Heq Hrows Hr. induction (rows df) as [|r l IH]; simpl; constructor.
  - split; [|split].
    + intros c Hc. unfold bronze_row, annotate.
      rewrite !lookup_insert_ne; [reflexivity|..];
        intros <-; apply Hc; unfold bronze_columns; set_solver.
    + unfold bronze_row. unfold cell. rewrite !lookup_insert_ne by done.
      apply cell_annotate_hash.
    + destruct (compute_payload_hash_ok (columns df) r) as [h Hh]; [apply Hall; by left|].
      exists h. split; [assumption|].
      unfold bronze_row, cell. rewrite lookup_insert_ne by done.
      rewrite lookup_insert_eq. simpl. unfold payload_cell. by rewrite Hh.
  - apply IH. intros x Hx. apply Hall. by right.
Qed.

(** The day05 hash cell of a row. *)
Definition hash_cell5 (r : Row) : Value :=
  match Day05.concat_str [ cell r "message_id";
                           Day05.cast_utf8 (cell r "sequence_id");
                           Day05.cast_utf8 (cell r "partition_id") ] with
  | VStr key_string => VStr (Day05.compute_composite_hash key_string)
  | _ => VNull
  end.

Definition hashed5 (df : DataFrame) : DataFrame :=
  with_column "composite_hash" (List.map hash_cell5 (rows df)) df.

Lemma add_composite_hash_column_eq df :
  has_columns composite_key_columns df ->
  Day05.add_composite_hash_column df = Ok (hashed5 df).
Proof.
  intros Hc. unfold Day05.add_composite_hash_column.
  by rewrite (check_columns_ok _ _ Hc).
Qed.

Lemma hashed5_rows df :
  rows (hashed5 df) = List.map (fun r => <["composite_hash" := hash_cell5 r]> r) (rows df).
Proof. unfold hashed5, with_column; simpl. apply zip_with_insert_map. Qed.

Lemma hash_cell5_scalar r : json_scalar (hash_cell5 r).
Proof. unfold hash_cell5. by destruct (Day05.concat_str _). Qed.

Definition bronze_frame5 (df : DataFrame) : DataFrame :=
  with_columns
    [ ("payload_hash", List.map (payload_cell (columns df)) (rows (hashed5 df)));
      ("partition_date", List.map date_cell (rows (hashed5 df))) ]
    (hashed5 df).

(** [BronzeAppendStrategy.process] on a frame of records: a frame and
    metrics that depend on the batch only, appended to the table. *)
Lemma bronze_process_eq base df :
  record_frame df ->
  exists out m,
    height out = height df
    /\ forall store,
         Day05.bronze_process base df store
         = match write_deltalake (Day05.get_table_path base "pubsub_bronze_append")
                                 out Append store with
           | Ok store' =>
               (Ok (out, m, Day05.get_table_path base "pubsub_bronze_append"), store')
           | Err e => (Err e, store)
           end.
Proof.
  intros [Hc Hr]. inversion Hc as [|? ? Hcreated Hkey]; subst.
  assert (Hpay : map_elements Day05.compute_payload_hash (columns df) (hashed5 df)
                 = Ok (List.map (payload_cell (columns df)) (rows (hashed5 df)))).
  { apply payload_column.
    - unfold has_columns. apply Forall_forall. intros c Hcol.
      by apply with_column_columns.
    - intros r Hin c Hcol. rewrite hashed5_rows, map_fmap in Hin.
      apply list_elem_of_fmap in Hin as (r0 & -> & Hr0).
      destruct (decide (c = "composite_hash")) as [->|Hne].
      + rewrite cell_insert_eq. apply hash_cell5_scalar.
      + rewrite cell_insert_ne by congruence. by apply Hr. }
  assert (Hdate : Day04.from_epoch_date "created_at" (hashed5 df)
                  = Ok (List.map date_cell (rows (hashed5 df)))).
  { apply date_column.
    - by apply with_column_columns.
    - intros r Hin. rewrite hashed5_rows, map_fmap in Hin.
      apply list_elem_of_fmap in Hin as (r0 & -> & Hr0).
      rewrite cell_insert_ne by done. by apply Hr. }
  assert (Hcheck : check_columns (columns df ++ ["created_at"]) (hashed5 df) = Ok tt).
  { apply check_columns_ok. unfold has_columns. rewrite Forall_app. split.
    - apply Forall_forall. intros c Hcol. by apply with_column_columns.
    - repeat constructor. by apply with_column_columns. }
  exists (bronze_frame5 df). eexists. split; cycle 1.
  - intros store. unfold Day05.bronze_process, pbind, pure_.
    rewrite (add_composite_hash_column_eq df Hkey), Hcheck, Hpay, Hdate.
    unfold write_table. fold (bronze_frame5 df).
    destruct (write_deltalake _ (bronze_frame5 df) Append store); reflexivity.
  - unfold bronze_frame5, height, with_columns. cbn [fold_left fst snd]. unfold with_column at 1 2.
    cbn [rows]. rewrite !length_zip_with_l_eq; rewrite ?length_map, ?length_zip_with_l_eq;
      rewrite ?length_map; try reflexivity.
    rewrite hashed5_rows. by rewrite length_map.
Qed.

(** Bronze applied twice to a batch and a fresh table: the table holds the
    records of the batch after the first application and the same records
    twice after the second. *)
Definition bronze_twice_doubles (base : string) (df : DataFrame) (store : DeltaStore) : Prop :=
  exists out m path store1 store2,
    Day05.bronze_process base df store = (Ok (out, m, path), store1)
    /\ Day05.bronze_process base df store1 = (Ok (out, m, path), store2)
    /\ height out = height df
    /\ store1 !! path = Some out
    /\ store2 !! path = Some {| columns := columns out; rows := rows out ++ rows out |}.

Lemma bronze_process_twice base df (store : DeltaStore) :
  record_frame df ->
  store !! Day05.get_table_path base "pubsub_bronze_append" = None ->
  bronze_twice_doubles base df store.
Proof.
  intros Hrf Hfresh. destruct (bronze_process_eq base df Hrf) as (out & m & Hh & Hrun).
  set (path := Day05.get_table_path base "pubsub_bronze_append") in *.
  exists out, m, path, (<[path := out]> store),
    (<[path := {| columns := columns out; rows := rows out ++ rows out |}]> store).
  split; [|split; [|split; [|split]]].
  - rewrite Hrun. unfold write_deltalake. by rewrite Hfresh.
  - rewrite Hrun. unfold write_deltalake. rewrite lookup_insert_eq.
    rewrite decide_True by reflexivity. by rewrite insert_insert_eq.
  - exact Hh.
  - by rewrite lookup_insert_eq.
  - by rewrite lookup_insert_eq.
Qed.

(** C6.  For every batch of received records, Bronze drops no record: the
    output has the length of the input and its rows are the input's rows,
    in order, each with a composite hash and a payload hash added; and
    applying Bronze twice to the batch leaves the append-only table with
    twice the records, the second copy equal to the first, hashes
    included. *)
Theorem bronze_keeps_every_record (base : string) (df : DataFrame) (store : DeltaStore) :
  record_frame df ->
  store !! Day05.get_table_path base "pubsub_bronze_append" = None ->
  bronze_keeps_all df /\ bronze_twice_doubles base df store.
Proof.
  intros Hrf Hfresh. split.
  - by apply add_hashes_keeps_all.
  - by apply bronze_process_twice.
Qed.

Lemma bronze_keeps_every_record_witness :
  record_frame (load_jsonl batch_abc)
  /\ (∅ : DeltaStore) !! Day05.get_table_path "delta" "pubsub_bronze_append" = None
  /\ bronze_keeps_all (load_jsonl batch_abc)
  /\ bronze_twice_doubles "delta" (load_jsonl batch_abc) ∅.
Proof.
  split; [apply load_jsonl_record_frame|].
  split; [apply lookup_empty|].
  apply bronze_keeps_every_record; [apply load_jsonl_record_frame|apply lookup_empty].
Defined.

(** Two records with one composite key and different values: Bronze keeps
    both, with one composite hash and two payload hashes. *)
Example bronze_same_key_other_payload :
  match Day04.add_hashes
          (load_jsonl [ recv (msg "abc" 1 0 1000000 100) 1;
                        recv (msg "abc" 1 0 1000000 999) 2 ]) with
  | Ok (out, m) =>
      height out = 2%nat
      /\ dict_get m "unique_composite_keys" = Ok (VInt 1)
      /\ dict_get m "unique_payloads" = Ok (VInt 2)
  | Err _ => False
  end.
Proof. vm_compute. repeat split; reflexivity. Qed.

(* ===================================================================== *)
(** * A required column is absent *)
(* ===================================================================== *)

Inductive StrategyName : Type := Eager | Bronze | Merge.

(** The columns a strategy reads for its identity key and its sort key. *)
Definition required_columns (s : StrategyName) : list string :=
  match s with
  | Eager => composite_key_columns
  | Bronze | Merge => composite_key_columns ++ ["created_at"]
  end.

Definition run_day04 (s : StrategyName) (E : Engine) (df : DataFrame)
    : result (DataFrame * Day04.metrics) :=
  match s with
  | Eager => Day04.eager_dedup E df
  | Bronze => Day04.add_hashes df
  | Merge => Day04.merge_dedup_polars E df
  end.

Definition run_day05 (s : StrategyName) (E : Engine) (base : string) (df : DataFrame)
    : Persist (DataFrame * Day05.metrics * string) :=
  match s with
  | Eager => Day05.eager_process E base df
  | Bronze => Day05.bronze_process base df
  | Merge => Day05.merge_process E Day05.default_config base df
  end.

Lemma check_columns_app a b df :
  check_columns (a ++ b) df = (do _ <- check_columns a df; check_columns b df).
Proof.
  induction a as [|c a IH]; simpl; [reflexivity|].
  destruct (has_column df c); [exact IH|reflexivity].
Qed.

Lemma check_columns_self df : check_columns (columns df) df = Ok tt.
Proof. apply check_columns_ok. unfold has_columns. by apply Forall_forall. Qed.

Lemma has_column_with_column name vals df c :
  c <> name -> has_column (with_column name vals df) c = has_column df c.
Proof.
  intros Hne. unfold has_column at 1. unfold with_column; simpl.
  destruct (has_column df name); [reflexivity|].
  unfold has_column.
  apply bool_decide_ext. rewrite elem_of_app, list_elem_of_singleton. naive_solver.
Qed.

Lemma check_created_at name vals df :
  name <> "created_at" ->
  check_columns ["created_at"] (with_column name vals df) = check_columns ["created_at"] df.
Proof. intros Hne. simpl. rewrite has_column_with_column by congruence. reflexivity. Qed.

Lemma map_elements_err f cols df e :
  check_columns cols df = Err e -> map_elements f cols df = Err e.
Proof. intros H. unfold map_elements. by rewrite H. Qed.

(** Each strategy raises the error of the column check on its required
    columns, and the tables stay as they were. *)
Lemma strategy_raises_column_error s E base df store e :
  check_columns (required_columns s) df = Err e ->
  run_day04 s E df = Err e /\ run_day05 s E base df store = (Err e, store).
Proof.
  intros Herr. destruct s; unfold required_columns in Herr.
  - (* Eager *)
    split.
    + unfold run_day04, Day04.eager_dedup. by rewrite (map_elements_err _ _ _ _ Herr).
    + unfold run_day05, Day05.eager_process, pbind, pure_, Day05.add_composite_hash_column.
      by rewrite Herr.
  - (* Bronze *)
    rewrite check_columns_app in Herr.
    destruct (check_columns composite_key_columns df) as [[]|e'] eqn:Hkey; cbn [rbind] in Herr.
    + split.
      * unfold run_day04, Day04.add_hashes.
        rewrite !check_columns_app, Hkey, check_columns_self. cbn [rbind].
        by rewrite Herr.
      * unfold run_day05, Day05.bronze_process, pbind, pure_,
          Day05.add_composite_hash_column.
        rewrite Hkey. cbn [rbind]. cbv iota beta.
        rewrite check_columns_app.
        rewrite (check_columns_ok (columns df)).
        2:{ unfold has_columns. apply Forall_forall. intros c Hc.
            by apply with_column_columns. }
        cbn [rbind]. rewrite check_created_at by done. by rewrite Herr.
    + injection Herr as ->. split.
      * unfold run_day04, Day04.add_hashes. rewrite !check_columns_app, Hkey. reflexivity.
      * unfold run_day05, Day05.bronze_process, pbind, pure_,
          Day05.add_composite_hash_column.
        by rewrite Hkey.
  - (* Merge *)
    rewrite check_columns_app in Herr.
    destruct (check_columns composite_key_columns df) as [[]|e'] eqn:Hkey; cbn [rbind] in Herr.
    + split.
      * unfold run_day04, Day04.merge_dedup_polars.
        rewrite (composite_hash_column df (check_columns_inv _ _ Hkey)). cbn [rbind].
        unfold df_sort. rewrite check_created_at by done. by rewrite Herr.
      * unfold run_day05, Day05.merge_process, pbind, pure_,
          Day05.add_composite_hash_column.
        rewrite Hkey. cbn [rbind]. cbv iota beta. unfold df_sort.
        cbn [default Day05.sort_by Day05.default_config]. rewrite check_created_at by done. by rewrite Herr.
    + injection Herr as ->. split.
      * unfold run_day04, Day04.merge_dedup_polars.
        by rewrite (map_elements_err _ _ _ _ Hkey).
      * unfold run_day05, Day05.merge_process, pbind, pure_,
          Day05.add_composite_hash_column.
        by rewrite Hkey.
Qed.

(** C9.  When a column that a strategy needs for its identity key
    ([message_id], [sequence_id], [partition_id]) or its sort key
    ([created_at]) is absent from the batch, the strategy raises
    [ColumnNotFoundError] naming an absent required column; it returns no
    frame, and the day05 strategy leaves every persisted table as it was.
    No cell is converted: nothing is returned or written. *)
Theorem strategy_fails_fast_on_missing_column
    (s : StrategyName) (E : Engine) (base : string) (df : DataFrame) (store : DeltaStore) :
  ~ has_columns (required_columns s) df ->
  exists c,
    c ∈ required_columns s /\ (c ∉ columns df)
    /\ run_day04 s E df = Err (ColumnNotFoundError c)
    /\ run_day05 s E base df store = (Err (ColumnNotFoundError c), store).
Proof.
  intros Hmiss.
  destruct (check_columns_missing _ _ Hmiss) as (c & Hreq & Habs & Herr).
  exists c. split; [assumption|]. split; [assumption|].
  by apply strategy_raises_column_error.
Qed.

(** A batch whose records have no [created_at]. *)
Definition no_created_at : DataFrame :=
  {| columns := ["message_id"; "sequence_id"; "partition_id"; "value"];
     rows := [ list_to_map [ ("message_id", VStr "abc"); ("sequence_id", VInt 1);
                             ("partition_id", VInt 0); ("value", VInt 7) ] ] |}.

Lemma strategy_fails_fast_on_missing_column_witness :
  ~ has_columns (required_columns Merge) no_created_at
  /\ exists c,
       c ∈ required_columns Merge /\ (c ∉ columns no_created_at)
       /\ run_day04 Merge stable_engine no_created_at = Err (ColumnNotFoundError c)
       /\ run_day05 Merge stable_engine "delta" no_created_at ∅
          = (Err (ColumnNotFoundError c), ∅).
Proof.
  assert (H : ~ has_columns (required_columns Merge) no_created_at).
  { intros Hc. unfold has_columns in Hc. rewrite Forall_forall in Hc.
    specialize (Hc "created_at"). vm_compute in Hc.
    assert (Hin : "created_at" ∈ ["message_id"; "sequence_id"; "partition_id"; "value"]).
    { apply Hc. set_solver. }
    set_solver. }
  split; [exact H|].
  exact (strategy_fails_fast_on_missing_column Merge stable_engine "delta" no_created_at ∅ H).
Defined.

Example eager_missing_sequence_id :
  Day04.eager_dedup stable_engine
    {| columns := ["message_id"; "partition_id"];
       rows := [ list_to_map [("message_id", VStr "abc"); ("partition_id", VInt 0)] ] |}
  = Err (ColumnNotFoundError "sequence_id").
Proof. reflexivity. Qed.

(* ===================================================================== *)
(** * The record Merge keeps *)
(* ===================================================================== *)

(** The hash column [add_composite_hash_column] adds to a row. *)
Definition annotate5 (r : Row) : Row := <["composite_hash" := hash_cell5 r]> r.

(** [PolarsMergeStrategy.process] with the default configuration on a batch
    with the key columns and [created_at], run on an empty store. *)
Lemma merge_process_eq E base df :
  has_columns ("created_at" :: composite_key_columns) df ->
  exists out m,
    Day05.merge_process E Day05.default_config base df ∅
    = (Ok (out, m, Day05.get_table_path base "pubsub_polars_merge"),
       <[Day05.get_table_path base "pubsub_polars_merge" := out]> ∅)
    /\ rows out = unique_rows E ["message_id"] KeepLast
                    (sort_rows E "created_at" (List.map annotate5 (rows df))).
Proof.
  intros Hc. inversion Hc as [|? ? Hcreated Hkey]; subst.
  unfold Day05.merge_process, pbind, pure_.
  rewrite (add_composite_hash_column_eq df Hkey). cbn [default Day05.default_config
    Day05.dedup_key Day05.sort_by Day05.keep].
  unfold df_sort. rewrite check_columns_ok.
  2:{ constructor; [|constructor]. unfold hashed5. by apply with_column_columns. }
  simpl rbind. unfold df_unique. rewrite check_columns_ok.
  2:{ constructor; [|constructor].
      apply (with_column_columns "composite_hash" (List.map hash_cell5 (rows df)) df).
      by inversion Hkey. }
  simpl rbind. unfold write_table, write_deltalake. rewrite lookup_empty.
  eexists _, _. split; [reflexivity|]. cbn [rows].
  f_equal. f_equal. apply hashed5_rows.
Qed.

(** What the claim says of the two Merge implementations: the day04
    function, and the day05 strategy with its default configuration run on
    an empty store, which also writes the frame it returns to its table. *)
Definition merge_keeps_latest (E : Engine) (base : string) (df : DataFrame) : Prop :=
  (exists out m,
     Day04.merge_dedup_polars E df = Ok (out, m)
     /\ latest_per_message_id annotate (rows df) (rows out))
  /\ (exists out m path store,
        Day05.merge_process E Day05.default_config base df ∅ = (Ok (out, m, path), store)
        /\ store !! path = Some out
        /\ latest_per_message_id annotate5 (rows df) (rows out)).



(** On the two tied records the second of the batch is the one kept. *)
Example merge_tie_keeps_later :
  (exists out m,
     Day04.merge_dedup_polars stable_engine (load_jsonl tie_batch) = Ok (out, m)
     /\ List.map (fun o => cell o "sequence_id") (rows out) = [VInt 2])
  /\ (exists out m path store,
        Day05.merge_process stable_engine Day05.default_config "delta" (load_jsonl tie_batch) ∅
        = (Ok (out, m, path), store)
        /\ List.map (fun o => cell o "sequence_id") (rows out) = [VInt 2]).
Proof.
  split.
  - eexists _, _. split; vm_compute; reflexivity.
  - destruct (merge_process_eq stable_engine "delta" _ tie_frame_columns)
      as (out & m & Hrun & Hrows).
    eexists out, m, _, _. split; [exact Hrun|]. rewrite Hrows. vm_compute. reflexivity.
Qed.

(* ===================================================================== *)
(** * The simulation: a slow message sent after the sentinel *)
(* ===================================================================== *)

Section LostMessage.
Import Sim.
Local Open Scope Z_scope.

(** One message, one partition, no duplicates, every message on the slow
    path: [--messages 1 --partitions 1 --dup-prob 0 --slow-prob 1 --seed 42]
    ([--base-delay 0.01 --jitter 0], buffer 100). *)
Definition lost_args : Args := mkArgs 1 1 100 10000 0 0 1000000 (Some 42).

(** The command line defaults with [--seed 42]. *)
Definition default_args : Args := mkArgs 100 3 100 10000 20000 100000 100000 (Some 42).

(** A wall clock: the loop started at epoch second 1700000000. *)
Definition wall_a (t : Z) : Z := 1700000000000000 + t.

Definition the_message : Message :=
  mkMessage "fj6n7enz" 1 0 1700000000010000 6072 "26914".

(** C1 at the failing input.  The one message is produced and handed to
    [delayed_send]; the sentinel is put at once; the subscriber takes the
    sentinel and returns; [join] and [await subscriber_task] return; the
    received list is empty and the analyzer reports [missing = [1]]. *)
Theorem slow_message_is_lost :
  exists final,
    simulate (H := LcgGen) 7 wall_a lost_args 100
    = Some (Finished ([the_message], []) final)
    /\ missing (analyze [the_message] []) = [1]
    /\ file final = [].
Proof. eexists. split; [vm_compute; reflexivity|]. split; reflexivity. Qed.

(** C2 at the failing input.  When [main] is through [queue.join()] and
    [await subscriber_task], the [delayed_send] task still waits for its
    timer (due at 0.21 s, the loop stands at 0.01 s) with its [put] not
    done: the barrier did not wait for it, though the queue is empty and
    every item put so far is acknowledged. *)
Theorem join_does_not_wait_for_delayed_send :
  exists produced received final,
    simulate (H := LcgGen) 7 wall_a lost_args 100
    = Some (Finished (produced, received) final)
    /\ received = []
    /\ now final = 10000
    /\ timers final = [(210000, TDelayed 0)]
    /\ delayed final = [(0%nat, Put (Some the_message) (Ret tt))]
    /\ items (queue final) = []
    /\ unfinished_tasks (queue final) = 0.
Proof. eexists _, _, _. split; [vm_compute; reflexivity|]. repeat split. Qed.

(** With the defaults of the command line the run loses message 92. *)
Example default_run_loses_a_message :
  match simulate (H := LcgGen) 7 wall_a default_args 20000 with
  | Some (Finished (produced, received) _) =>
      length produced = 100%nat /\ length received = 117%nat
      /\ missing (analyze produced received) = [92]
  | _ => False
  end.
Proof. vm_compute. repeat split. Qed.
End LostMessage.

(* ===================================================================== *)
(** * The publisher on its own *)
(* ===================================================================== *)

Module Publisher.
Import Sim.
Local Open Scope Z_scope.

(** What the publisher does, as the rest of the program sees it. *)
Inductive Event : Type :=
  | EvSleep (delay : Z)
  | EvGenerate (created : Z)                 (* a message is made; its time.time() *)
  | EvPut (x : option Message)               (* handed to the queue *)
  | EvSlow (m : Message) (extra_delay : Z).  (* handed to delayed_send *)

(** The coroutine run to its end against a clock: the [n]th call of
    [time.time()] reads [clock n]; [sleep], [put] and [create_task] return.
    [None] when an exception escapes (or the coroutine does what the
    publisher never does). *)
Fixpoint alone {R} (clock : nat -> Z) (n : nat) (c : Coro R) : list Event * option R :=
  match c with
  | Ret r => ([], Some r)
  | Sleep d k => let '(evs, r) := alone clock n k in (EvSleep d :: evs, r)
  | TimeTime k =>
      let '(evs, r) := alone clock (S n) (k (clock n)) in (EvGenerate (clock n) :: evs, r)
  | Put x k => let '(evs, r) := alone clock n k in (EvPut x :: evs, r)
  | CreateDelayedSend m d k => let '(evs, r) := alone clock n k in (EvSlow m d :: evs, r)
  | _ => ([], None)
  end.

(** The message an event hands over, if it is one. *)
Definition emitted (ev : Event) : option Message :=
  match ev with
  | EvPut (Some m) => Some m
  | EvSlow m _ => Some m
  | _ => None
  end.

(** Every message handed over is one of the messages generated so far:
    [made] counts them, and [produced] is the history at the end. *)
Fixpoint emits_from_history (made : nat) (evs : list Event) (produced : list Message) : Prop :=
  match evs with
  | [] => True
  | EvGenerate _ :: evs' => emits_from_history (S made) evs' produced
  | ev :: evs' =>
      match emitted ev with
      | Some m => m ∈ List.firstn made produced
      | None => True
      end /\ emits_from_history made evs' produced
  end.

Definition generated (evs : list Event) : nat :=
  length (List.filter (fun ev => match ev with EvGenerate _ => true | _ => false end) evs).

Definition is_sentinel (ev : Event) : bool :=
  match ev with EvPut None => true | _ => false end.

(** The sequence numbers [from], [from + 1], ..., [n] of them. *)
Definition sequence_numbers (from : Z) (n : nat) : list Z :=
  List.map (fun i => from + Z.of_nat i) (List.seq 0 n).

Lemma sequence_numbers_S from n :
  sequence_numbers from (S n) = from :: sequence_numbers (from + 1) n.
Proof.
  unfold sequence_numbers. simpl. f_equal; [lia|].
  rewrite <- seq_shift, List.map_map. apply List.map_ext. intros i. lia.
Qed.

Lemma sequence_numbers_snoc from n :
  sequence_numbers from (S n) = sequence_numbers from n ++ [from + Z.of_nat n].
Proof. unfold sequence_numbers. rewrite seq_S, List.map_app. reflexivity. Qed.

End Publisher.

(* ===================================================================== *)
(** * The publisher's history *)
(* ===================================================================== *)

Section PublisherFacts.
Import Sim Publisher.
Local Open Scope Z_scope.
Context {G : Type} `{RandomGen G}.
Variables (clock : nat -> Z) (partitions base_delay jitter dup_prob slow_prob : Z).
Hypothesis partitions_pos : 1 <= partitions.

Lemma choice_elem {A} (l : list A) (g g' : G) (x : A) :
  choice l g = Some (x, g') -> x ∈ l.
Proof.
  unfold choice. destruct l as [|a l]; [discriminate|].
  destruct (randbelow _ g) as [i g1] eqn:E. intros Heq.
  assert (Hx : x = List.nth (Z.to_nat i) (a :: l) a) by congruence.
  rewrite Hx. apply list_elem_of_In. apply nth_In.
  unfold randbelow in E. destruct (gen_below _ g) as [r g2]. injection E as <- <-.
  assert (0 <= r mod Z.of_nat (length (a :: l)) < Z.of_nat (length (a :: l))).
  { apply Z.mod_pos_bound. cbn [length]. lia. }
  cbn [length] in *. lia.
Qed.

(** The [if random.random() < slow_prob: ... else: ...] block. *)
Definition send_block {R} (msg : Message) (r : Z) (k : Coro R) : Coro R :=
  if r <? slow_prob then CreateDelayedSend msg 200000 k else Put (Some msg) k.

(** The [if produced and random.random() < dup_prob: ...] block. *)
Definition dup_block {R} (produced : list Message) (g : G) (rest : G -> Coro R) : Coro R :=
  match produced with
  | [] => rest g
  | _ :: _ =>
      let '(r, g) := random g in
      if r <? dup_prob then
        match choice produced g with
        | Some (dup_msg, g) => Put (Some dup_msg) (rest g)
        | None => Raise "IndexError"
        end
      else rest g
  end.

Lemma publisher_loop_S todo seq g produced :
  publisher_loop partitions base_delay jitter dup_prob slow_prob (S todo) seq g produced
  = let '(u, g) := uniform (base_delay - jitter) (base_delay + jitter) g in
    Sleep (Z.max 0 u)
      match randint 0 (partitions - 1) g with
      | None => Raise "ValueError"
      | Some (partition_id, g) =>
          let '(mid, g) := random_id 8 g in
          TimeTime (fun now =>
            match randint 100 10000 g with
            | None => Raise "ValueError"
            | Some (val, g) =>
                let '(zip, g) := random_zipcode g in
                let msg := mkMessage mid seq partition_id now val zip in
                let '(r, g) := random g in
                send_block msg r
                  (dup_block (produced ++ [msg]) g
                     (fun g => publisher_loop partitions base_delay jitter dup_prob slow_prob
                                              todo (seq + 1) g (produced ++ [msg])))
            end)
      end.
Proof. reflexivity. Qed.

Lemma alone_send_block {R} n msg r (k : Coro R) :
  exists ev, emitted ev = Some msg /\ is_sentinel ev = false
    /\ (forall c, ev <> EvGenerate c)
    /\ alone clock n (send_block msg r k)
       = (ev :: fst (alone clock n k), snd (alone clock n k)).
Proof.
  unfold send_block. destruct (r <? slow_prob); cbn [alone];
    destruct (alone clock n k) as [evs res]; eexists; repeat split; done.
Qed.

Lemma alone_dup_block {R} n produced g (rest : G -> Coro R) :
  exists g' pre,
    alone clock n (dup_block produced g rest)
    = (pre ++ fst (alone clock n (rest g')), snd (alone clock n (rest g')))
    /\ (pre = [] \/ exists d, pre = [EvPut (Some d)] /\ d ∈ produced).
Proof.
  unfold dup_block. destruct produced as [|m0 l0].
  - exists g, []. split; [by destruct (alone clock n (rest g))|by left].
  - destruct (random g) as [r g1]. destruct (r <? dup_prob).
    + destruct (choice (m0 :: l0) g1) as [[d g2]|] eqn:E.
      * exists g2, [EvPut (Some d)]. cbn [alone].
        destruct (alone clock n (rest g2)). split; [reflexivity|].
        right. exists d. split; [reflexivity|]. eapply choice_elem, E.
      * unfold choice in E. destruct (randbelow _ g1). discriminate.
    + exists g1, []. split; [by destruct (alone clock n (rest g1))|by left].
Qed.

Lemma generated_app evs1 evs2 : generated (evs1 ++ evs2) = (generated evs1 + generated evs2)%nat.
Proof. unfold generated. by rewrite List.filter_app, length_app. Qed.

Lemma generated_none evs :
  (forall e, e ∈ evs -> forall c, e <> EvGenerate c) -> generated evs = 0%nat.
Proof.
  induction evs as [|e evs IH]; intros Hall; [reflexivity|].
  unfold generated in *. cbn [List.filter].
  destruct e; try (apply IH; intros; apply Hall; by right).
  destruct (Hall (EvGenerate created) ltac:(by left) created). reflexivity.
Qed.

Lemma emits_from_history_app made pre evs produced :
  (forall ev, ev ∈ pre -> (forall c, ev <> EvGenerate c)
                          /\ match emitted ev with
                             | Some m => m ∈ List.firstn made produced
                             | None => True
                             end) ->
  emits_from_history made evs produced ->
  emits_from_history made (pre ++ evs) produced.
Proof.
  induction pre as [|ev pre IH]; intros Hpre Hevs; [exact Hevs|].
  destruct (Hpre ev) as [Hng Hem]; [by left|].
  simpl. destruct ev; try (split; [exact Hem|apply IH; [|exact Hevs]; intros; apply Hpre; by right]).
  by destruct (Hng created).
Qed.

Lemma publisher_loop_alone todo : forall seq g produced n,
  exists evs more,
    alone clock n (publisher_loop partitions base_delay jitter dup_prob slow_prob
                                  todo seq g produced)
    = (evs, Some (produced ++ more))
    /\ List.map sequence_id more = sequence_numbers seq todo
    /\ generated evs = todo
    /\ emits_from_history (length produced) evs (produced ++ more)
    /\ exists evs', evs = evs' ++ [EvPut None]
                    /\ Forall (fun ev => is_sentinel ev = false) evs'.
Proof.
  induction todo as [|todo IH]; intros seq g produced n.
  - exists [EvPut None], []. simpl. rewrite app_nil_r.
    repeat split. exists []. split; [reflexivity|constructor].
  - rewrite publisher_loop_S.
    destruct (uniform _ _ g) as [u g1].
    unfold randint at 1. replace (partitions - 1 <? 0) with false by lia.
    destruct (randbelow _ g1) as [pid g2].
    destruct (random_id 8 g2) as [mid g3].
    cbn [alone].
    unfold randint at 1. change (10000 <? 100) with false. cbv iota.
    destruct (randbelow _ g3) as [val g4].
    destruct (random_zipcode g4) as [zip g5].
    destruct (random g5) as [r g6].
    set (msg := mkMessage mid seq (0 + pid) (clock n) (100 + val) zip).
    set (produced' := produced ++ [msg]).
    destruct (alone_send_block (S n) msg r
                (dup_block produced' g6
                   (fun g => publisher_loop partitions base_delay jitter dup_prob slow_prob
                                            todo (seq + 1) g produced')))
      as (ev & Hev & Hevs & Hevg & ->).
    destruct (alone_dup_block (S n) produced' g6
                (fun g => publisher_loop partitions base_delay jitter dup_prob slow_prob
                                         todo (seq + 1) g produced'))
      as (g7 & pre & -> & Hpre).
    destruct (IH (seq + 1) g7 produced' (S n))
      as (evs & more & -> & Hseq & Hgen & Hemit & evs' & -> & Hsent).
    cbn [fst snd].
    exists (EvSleep (Z.max 0 u) :: EvGenerate (clock n) :: ev :: pre ++ evs' ++ [EvPut None]),
           (msg :: more).
    assert (Hfirst : List.firstn (S (length produced)) (produced ++ msg :: more) = produced').
    { replace (S (length produced)) with (length produced + 1)%nat by lia.
      rewrite firstn_app_2. reflexivity. }
    assert (Hlen : length produced' = S (length produced)).
    { unfold produced'. rewrite length_app. simpl. lia. }
    assert (Happ : produced' ++ more = produced ++ msg :: more).
    { unfold produced'. by rewrite <- app_assoc. }
    assert (Hpre_ok : forall e, e ∈ pre ->
              is_sentinel e = false /\ (forall c, e <> EvGenerate c)
              /\ match emitted e with
                 | Some m => m ∈ produced'
                 | None => True
                 end).
    { intros e He. destruct Hpre as [->|(d & -> & Hd)].
      - by apply not_elem_of_nil in He.
      - apply list_elem_of_singleton in He as ->. repeat split; done. }
    split; [by rewrite Happ|].
    split; [rewrite sequence_numbers_S; simpl; by rewrite Hseq|].
    split; [|split].
    + change (EvSleep (Z.max 0 u) :: EvGenerate (clock n) :: ev :: pre ++ evs' ++ [EvPut None])
        with ([EvSleep (Z.max 0 u)] ++ [EvGenerate (clock n)] ++ ([ev] ++ pre)
              ++ evs' ++ [EvPut None]).
      rewrite (generated_app [EvSleep _]), (generated_app [EvGenerate _]),
        (generated_app ([ev] ++ pre)), Hgen.
      rewrite (generated_none ([ev] ++ pre)); [reflexivity|].
      intros e He. apply elem_of_app in He as [He|He].
      * apply list_elem_of_singleton in He as ->. exact Hevg.
      * by destruct (Hpre_ok e He) as (_ & Hg & _).
    + cbn [emits_from_history emitted]. split; [exact I|].
      assert (Hrest : emits_from_history (S (length produced))
                        (ev :: pre ++ evs' ++ [EvPut None]) (produced ++ msg :: more)).
      { change (ev :: pre ++ evs' ++ [EvPut None])
          with ([ev] ++ pre ++ evs' ++ [EvPut None]).
        rewrite app_assoc. apply emits_from_history_app.
        + intros e He. rewrite Hfirst. apply elem_of_app in He as [He|He].
          * apply list_elem_of_singleton in He as ->. split; [exact Hevg|].
            rewrite Hev. unfold produced'. apply elem_of_app. right. by left.
          * destruct (Hpre_ok e He) as (_ & Hg & Hm). by split.
        + rewrite <- Hlen, <- Happ. exact Hemit. }
      exact Hrest.
    + exists (EvSleep (Z.max 0 u) :: EvGenerate (clock n) :: ev :: pre ++ evs').
      split; [by rewrite <- !app_comm_cons, <- app_assoc|].
      repeat (constructor; [done|]).
      apply Forall_app. split; [|exact Hsent].
      apply Forall_forall. intros e He. by destruct (Hpre_ok e He).
Qed.

Lemma publisher_alone (total_messages : Z) (g : G) :
  exists evs produced,
    alone clock 0 (publisher total_messages partitions base_delay jitter dup_prob slow_prob g)
    = (evs, Some produced)
    /\ List.map sequence_id produced = sequence_numbers 1 (Z.to_nat total_messages)
    /\ generated evs = Z.to_nat total_messages
    /\ emits_from_history 0 evs produced
    /\ exists evs', evs = evs' ++ [EvPut None]
                    /\ Forall (fun ev => is_sentinel ev = false) evs'.
Proof.
  unfold publisher.
  destruct (publisher_loop_alone (Z.to_nat total_messages) 1 g [] 0%nat)
    as (evs & more & Heq & Hseq & Hgen & Hemit & Hsent).
  exists evs, more. simpl in *. by repeat split.
Qed.

Lemma firstn_elem {A} (n : nat) (l : list A) (x : A) : x ∈ List.firstn n l -> x ∈ l.
Proof.
  rewrite elem_of_take. intros (i & Hi & _). apply list_elem_of_lookup. by exists i.
Qed.

Lemma emits_from_history_elem made evs produced ev m :
  emits_from_history made evs produced -> ev ∈ evs -> emitted ev = Some m -> m ∈ produced.
Proof.
  revert made. induction evs as [|e evs IH]; intros made Hall Hin Hem.
  - by apply not_elem_of_nil in Hin.
  - apply elem_of_cons in Hin as [->|Hin].
    + destruct e as [d|c|[m'|]|m' d]; simpl in Hem; try discriminate;
        injection Hem as ->; simpl in Hall; destruct Hall as [Hm _];
        eapply firstn_elem; exact Hm.
    + destruct e; simpl in Hall; try destruct Hall as [_ Hall]; by apply (IH _ Hall).
Qed.

(** The publisher run to its end: the history it returns, and what it
    handed over on the way. *)
Definition publisher_history (total_messages : Z) (g : G) : Prop :=
  exists evs produced,
    alone clock 0 (publisher total_messages partitions base_delay jitter dup_prob slow_prob g)
    = (evs, Some produced)
    (* the history is the messages 1, 2, ..., N, in this order *)
    /\ List.map sequence_id produced = sequence_numbers 1 (Z.to_nat total_messages)
    /\ length produced = Z.to_nat total_messages
    (* N messages were generated, whatever the number handed over *)
    /\ generated evs = Z.to_nat total_messages
    (* each message handed over, first sending or duplicate, is one of the
       messages generated before, as it stands in the history *)
    /\ emits_from_history 0 evs produced
    /\ (forall ev m, ev ∈ evs -> emitted ev = Some m -> m ∈ produced)
    (* the sentinel comes once, last *)
    /\ exists evs', evs = evs' ++ [EvPut None]
                    /\ Forall (fun ev => is_sentinel ev = false) evs'.

Lemma publisher_history_holds (total_messages : Z) (g : G) :
  publisher_history total_messages g.
Proof.
  destruct (publisher_alone total_messages g)
    as (evs & produced & Heq & Hseq & Hgen & Hemit & Hsent).
  exists evs, produced. split; [exact Heq|]. split; [exact Hseq|].
  split.
  { rewrite <- (length_map sequence_id), Hseq. unfold sequence_numbers.
    by rewrite length_map, length_seq. }
  split; [exact Hgen|]. split; [exact Hemit|]. split; [|exact Hsent].
  intros ev m. by apply (emits_from_history_elem 0%nat).
Qed.
End PublisherFacts.

(** C8.  For every generator, clock and parameters with at least one
    partition, the publisher returns a history of exactly N messages whose
    sequence numbers are 1, 2, ..., N in this order; every message it hands
    to the queue or to [delayed_send], duplicates included, is one of the
    messages generated before that moment, field for field as it stands
    in the history, so a duplicate takes no sequence number. *)
Theorem publisher_sequence_ids {G : Type} `{Sim.RandomGen G}
    (clock : nat -> Z) (total_messages partitions base_delay jitter dup_prob slow_prob : Z)
    (g : G) :
  (1 <= partitions)%Z ->
  publisher_history clock partitions base_delay jitter dup_prob slow_prob total_messages g.
Proof. intros Hp. by apply publisher_history_holds. Qed.

Lemma publisher_sequence_ids_witness :
  (1 <= 3)%Z
  /\ publisher_history (H := Sim.LcgGen) (fun n => 1700000000000000 + Z.of_nat n)%Z
                       3 10000 20000 500000 500000 5 42%Z.
Proof. split; [lia|]. apply publisher_sequence_ids. lia. Defined.

Example publisher_history_of_five :
  match Publisher.alone (fun n => Z.of_nat n)
          0 (Sim.publisher (H := Sim.LcgGen) 5 3 10000 20000 500000 500000 42%Z) with
  | (evs, Some produced) =>
      List.map sequence_id produced = [1; 2; 3; 4; 5]%Z
      /\ List.map (fun ev => match Publisher.emitted ev with
                             | Some m => sequence_id m
                             | None => 0%Z
                             end)
                  (List.filter (fun ev => match Publisher.emitted ev with
                                          | Some _ => true
                                          | None => false
                                          end) evs)
         = [1; 1; 2; 2; 3; 1; 4; 2; 5; 3]%Z
  | _ => False
  end.
Proof. vm_compute. split; reflexivity. Qed.



(* ===================================================================== *)
(** * Two runs from one seed *)
(* ===================================================================== *)

Module Replay.
Import Sim.
Local Open Scope Z_scope.

(** A message with the wall-clock field blanked. *)
Definition blank_message (m : Message) : Message :=
  mkMessage (message_id m) (sequence_id m) (partition_id m) 0 (value m) (zipcode m).

Definition same_messages (l l' : list Message) : Prop :=
  List.map blank_message l = List.map blank_message l'.

(** The coroutine of [main] returns, if it returns, a history that is [L]
    once [created_at] is blanked: whatever [time.time()] reads, whenever
    the loop resumes it and whatever the subscriber hands back. *)
Inductive returns_history (L : list Message) : Coro MainResult -> Prop :=
  | rh_Ret produced received :
      List.map blank_message produced = L -> returns_history L (Ret (produced, received))
  | rh_Raise e : returns_history L (Raise e)
  | rh_Sleep d k : returns_history L k -> returns_history L (Sleep d k)
  | rh_TimeTime k : (forall t, returns_history L (k t)) -> returns_history L (TimeTime k)
  | rh_Put x k : returns_history L k -> returns_history L (Put x k)
  | rh_Join k : returns_history L k -> returns_history L (Join k)
  | rh_CreateDelayedSend m d k :
      returns_history L k -> returns_history L (CreateDelayedSend m d k)
  | rh_CreateSubscriber k : returns_history L k -> returns_history L (CreateSubscriber k)
  | rh_AwaitSubscriber k :
      (forall received, returns_history L (k received)) ->
      returns_history L (AwaitSubscriber k).

Section History.
Context {G : Type} `{RandomGen G}.

Definition and_return (produced : list Message) : Coro MainResult :=
  Join (AwaitSubscriber (fun received => Ret (produced, received))).

(** The draws of the loop depend on the history only through its length,
    so the blanked history is fixed by the generator. *)
Lemma history_loop partitions base_delay jitter dup_prob slow_prob todo :
  forall seq (g : G) (n : nat),
  exists L, forall produced,
    length produced = n ->
    returns_history (List.map blank_message produced ++ L)
      (bind (publisher_loop partitions base_delay jitter dup_prob slow_prob todo seq g produced)
            and_return).
Proof.
  induction todo as [|todo IH]; intros seq g n.
  - exists []. intros produced _. cbn [publisher_loop bind].
    apply rh_Put, rh_Join, rh_AwaitSubscriber. intros received.
    apply rh_Ret. by rewrite app_nil_r.
  - destruct (uniform (base_delay - jitter) (base_delay + jitter) g) as [u g1] eqn:Eu.
    destruct (randint 0 (partitions - 1) g1) as [[pid g2]|] eqn:Ep; cycle 1.
    { exists []. intros produced _. rewrite publisher_loop_S, Eu, Ep. cbn [bind].
      apply rh_Sleep, rh_Raise. }
    destruct (random_id 8 g2) as [mid g3] eqn:Em.
    destruct (randint 100 10000 g3) as [[val g4]|] eqn:Ev; cycle 1.
    { exists []. intros produced _. rewrite publisher_loop_S, Eu, Ep, Em. cbn [bind].
      apply rh_Sleep, rh_TimeTime. intros t. rewrite Ev. apply rh_Raise. }
    destruct (random_zipcode g4) as [zip g5] eqn:Ez.
    destruct (random g5) as [r g6] eqn:Er.
    destruct (random g6) as [r0 g7] eqn:Er0.
    destruct (randbelow (Z.of_nat (S n)) g7) as [i g8] eqn:Ei.
    destruct (IH (seq + 1) (if r0 <? dup_prob then g8 else g7) (S n)) as [L HL].
    exists (mkMessage mid seq pid 0 val zip :: L).
    intros produced Hlen. rewrite publisher_loop_S, Eu, Ep, Em. cbn [bind].
    apply rh_Sleep, rh_TimeTime. intros t. rewrite Ev, Ez, Er.
    set (msg := mkMessage mid seq pid t val zip).
    assert (Hlen' : length (produced ++ [msg]) = S n)
      by (rewrite length_app; cbn [length]; lia).
    specialize (HL (produced ++ [msg]) Hlen').
    rewrite List.map_app, <- app_assoc in HL. cbn [List.map app] in HL.
    change (blank_message msg) with (mkMessage mid seq pid 0 val zip) in HL.
    assert (Hdup : returns_history (List.map blank_message produced
                                      ++ mkMessage mid seq pid 0 val zip :: L)
              (bind (dup_block dup_prob (produced ++ [msg]) g6
                       (fun g => publisher_loop partitions base_delay jitter dup_prob slow_prob
                                                todo (seq + 1) g (produced ++ [msg])))
                    and_return)).
    { unfold dup_block. remember (produced ++ [msg]) as P eqn:EP.
      destruct P as [|a l]; [discriminate Hlen'|].
      rewrite Er0. destruct (r0 <? dup_prob); [|exact HL].
      unfold choice. rewrite Hlen', Ei. cbn [bind]. by apply rh_Put. }
    unfold send_block. destruct (r <? slow_prob); cbn [bind].
    + by apply rh_CreateDelayedSend.
    + by apply rh_Put.
Qed.

Lemma history_main (args : Args) (g : G) : exists L, returns_history L (main args g).
Proof.
  destruct (history_loop (partitions args) (base_delay args) (jitter args) (dup_prob args)
              (slow_prob args) (Z.to_nat (messages args)) 1 g 0) as [L HL].
  exists L. apply rh_CreateSubscriber. exact (HL [] eq_refl).
Qed.
End History.

(** No step of another task touches the coroutine of [main]. *)
Lemma exec_keeps_main {R} wall t (c : Coro R) w :
  main_coro (fst (exec wall t c w)) = main_coro w.
Proof.
  destruct c; cbn [exec];
    repeat match goal with
           | |- context [if ?b then _ else _] => destruct b
           | |- context [let '(_, _) := ?p in _] => destruct p
           | |- context [match items ?q with _ => _ end] => destruct (items q)
           | |- context [match sub_result ?w with _ => _ end] => destruct (sub_result w)
           end; reflexivity.
Qed.

(** Each step of the loop keeps the history [main] is bound to return. *)
Lemma step_history wall L w w' :
  returns_history L (main_coro w) -> step wall w = inl w' ->
  returns_history L (main_coro w').
Proof.
  intros Hw Hstep. unfold step in Hstep. destruct (running w) as [[| |n]|].
  - inversion Hw as [p r Hp He|e He|d k Hk He|k Hk He|x k Hk He|k Hk He|m d k Hk He|k Hk He|k Hk He];
      rewrite <- He in Hstep; unfold exec in Hstep.
    + discriminate.
    + discriminate.
    + destruct (d <=? 0); injection Hstep as <-; exact Hk.
    + injection Hstep as <-. apply Hk.
    + destruct (full (queue w)).
      * injection Hstep as <-. cbn. by apply rh_Put.
      * destruct (put_nowait x (queue w)). injection Hstep as <-. exact Hk.
    + destruct (0 <? unfinished_tasks (queue w)); injection Hstep as <-; exact Hk.
    + injection Hstep as <-. exact Hk.
    + injection Hstep as <-. exact Hk.
    + destruct (sub_result w) as [received|].
      * injection Hstep as <-. apply Hk.
      * injection Hstep as <-. cbn. by apply rh_AwaitSubscriber.
  - pose proof (exec_keeps_main wall TSubscriber (sub_coro w) w) as Hm.
    destruct (exec wall TSubscriber (sub_coro w) w) as [w1 [c|c|[st|rs]|e]];
      cbn [fst] in Hm; [| | | |discriminate]; injection Hstep as <-; cbn; by rewrite Hm.
  - destruct (lookup_task n (delayed w)) as [c|].
    + pose proof (exec_keeps_main wall (TDelayed n) c w) as Hm.
      destruct (exec wall (TDelayed n) c w) as [w1 [c1|c1|u|e]];
        cbn [fst] in Hm; [| | |discriminate]; injection Hstep as <-; cbn; by rewrite Hm.
    + injection Hstep as <-. exact Hw.
  - destruct (ready w) as [|t rest].
    + unfold fire_timers in Hstep. destruct (timers w) as [|[t0 i0] ts]; [discriminate|].
      injection Hstep as <-. exact Hw.
    + injection Hstep as <-. exact Hw.
Qed.

(** When the loop stops with a result, it is the one [main] returned. *)
Lemma finished_history wall L w produced received final :
  returns_history L (main_coro w) ->
  step wall w = inr (Finished (produced, received) final) ->
  List.map blank_message produced = L.
Proof.
  intros Hw Hstep. unfold step in Hstep. destruct (running w) as [[| |n]|].
  - inversion Hw as [p r Hp He|e He|d k Hk He|k Hk He|x k Hk He|k Hk He|m d k Hk He|k Hk He|k Hk He];
      rewrite <- He in Hstep; unfold exec in Hstep; cbn in Hstep;
      repeat match type of Hstep with
             | context [if ?b then _ else _] => destruct b
             | context [match sub_result w with _ => _ end] => destruct (sub_result w)
             end; try discriminate.
    by injection Hstep as <- _ _.
  - destruct (exec wall TSubscriber (sub_coro w) w) as [w1 [c|c|[st|rs]|e]]; discriminate.
  - destruct (lookup_task n (delayed w)) as [c|]; [|discriminate].
    destruct (exec wall (TDelayed n) c w) as [w1 [c1|c1|u|e]]; discriminate.
  - destruct (ready w); [|discriminate]. destruct (fire_timers w); discriminate.
Qed.

Lemma run_history wall L fuel : forall w produced received final,
  returns_history L (main_coro w) ->
  run_loop wall fuel w = Some (Finished (produced, received) final) ->
  List.map blank_message produced = L.
Proof.
  induction fuel as [|fuel IH]; intros w produced received final Hw Hrun; [discriminate|].
  cbn [run_loop] in Hrun. destruct (step wall w) as [w'|o] eqn:E.
  - apply (IH w' produced received final); [by apply (step_history wall L w)|exact Hrun].
  - injection Hrun as ->. by apply (finished_history wall L w produced received final).
Qed.
End Replay.

(* ===================================================================== *)
(** * Reproducibility of a seeded run *)
(* ===================================================================== *)

Section Reproducibility.
Import Sim Replay.
Local Open Scope Z_scope.

(** Two messages on the fast path:
    [--messages 2 --partitions 1 --dup-prob 0 --slow-prob 0 --seed 42]
    ([--base-delay 0.01 --jitter 0], buffer 100). *)
Definition replay_args : Args := mkArgs 2 1 100 10000 0 0 0 (Some 42).

(** The same command line with [--seed 0]. *)
Definition seed_zero_args : Args := mkArgs 2 1 100 10000 0 0 0 (Some 0).

(** A second wall clock: the loop started one minute later. *)
Definition wall_b (t : Z) : Z := 1700000060000000 + t.

(** Two runs of one command line give the same lists, whatever the state
    the generator was imported in and whatever the wall clock reads. *)
Definition reproducible {G} `{RandomGen G} (args : Args) : Prop :=
  forall (entropy1 entropy2 : G) (wall1 wall2 : Z -> Z) fuel r1 final1 r2 final2,
    simulate entropy1 wall1 args fuel = Some (Finished r1 final1) ->
    simulate entropy2 wall2 args fuel = Some (Finished r2 final2) ->
    r1 = r2.

(** C7 as stated fails.  Two runs of
    [--messages 2 --partitions 1 --dup-prob 0 --slow-prob 0 --seed 42]
    whose loops start a minute apart differ: [created_at] and [arrival_ts]
    are read from [time.time()], which the seed does not govern. *)
Lemma seeded_runs_differ_in_timestamps :
  ~ reproducible (H := LcgGen) replay_args.
Proof.
  intros Hrep.
  destruct (simulate (H := LcgGen) 7 wall_a replay_args 200) as [[r1 final1| |]|] eqn:E1;
    try (vm_compute in E1; discriminate E1).
  destruct (simulate (H := LcgGen) 7 wall_b replay_args 200) as [[r2 final2| |]|] eqn:E2;
    try (vm_compute in E2; discriminate E2).
  pose proof (Hrep 7 7 wall_a wall_b 200%nat r1 final1 r2 final2 E1 E2) as Heq.
  assert (H1 : option_map created_at (List.head (fst r1)) = Some 1700000000010000).
  { apply (f_equal (fun o => match o with
                             | Some (Finished r _) => option_map created_at (List.head (fst r))
                             | _ => None
                             end)) in E1.
    vm_compute in E1. symmetry. exact E1. }
  assert (H2 : option_map created_at (List.head (fst r2)) = Some 1700000060010000).
  { apply (f_equal (fun o => match o with
                             | Some (Finished r _) => option_map created_at (List.head (fst r))
                             | _ => None
                             end)) in E2.
    vm_compute in E2. symmetry. exact E2. }
  rewrite Heq in H1. rewrite H1 in H2. discriminate H2.
Qed.

(** Five messages on three partitions, each delayed with probability 0.3
    and followed by a duplicate with probability 0.3:
    [--messages 5 --partitions 3 --dup-prob 0.3 --slow-prob 0.3 --seed 42]
    ([--base-delay 0.01 --jitter 0.02], buffer 100). *)
Definition mixed_args : Args := mkArgs 5 3 100 10000 20000 300000 300000 (Some 42).

(** C7, amended.  Two runs with one configuration and one seed other than
    zero that both return give histories of the produced messages that
    agree in length, order and every field except [created_at], whatever
    the generator's state at import, whatever the wall clocks read and
    however many steps each loop takes.  The proof follows the coroutine
    of [main] alone: the publisher is the only task that draws from the
    generator, so the order in which timers fire has no part in it. *)
Theorem seeded_runs_publish_alike {G} `{RandomGen G} (entropy1 entropy2 : G)
    (wall1 wall2 : Z -> Z) (args : Args) (fuel1 fuel2 : nat) (s : Z)
    produced1 received1 final1 produced2 received2 final2 :
  seed args = Some s -> s <> 0 ->
  simulate entropy1 wall1 args fuel1 = Some (Finished (produced1, received1) final1) ->
  simulate entropy2 wall2 args fuel2 = Some (Finished (produced2, received2) final2) ->
  same_messages produced1 produced2.
Proof.
  intros Hseed Hs. unfold simulate, parse_args. rewrite Hseed.
  apply Z.eqb_neq in Hs. rewrite Hs. intros Hrun1 Hrun2.
  destruct (history_main args (gen_seed s)) as [L HL].
  unfold same_messages.
  rewrite (run_history wall1 L fuel1 (init_world args _) _ _ _ HL Hrun1).
  by rewrite (run_history wall2 L fuel2 (init_world args _) _ _ _ HL Hrun2).
Qed.

Lemma seeded_runs_publish_alike_witness :
  exists produced1 received1 final1 produced2 received2 final2,
    seed mixed_args = Some 42 /\ 42 <> 0
    /\ simulate (H := LcgGen) 7 wall_a mixed_args 400
       = Some (Finished (produced1, received1) final1)
    /\ simulate (H := LcgGen) 9 wall_b mixed_args 500
       = Some (Finished (produced2, received2) final2)
    /\ same_messages produced1 produced2.
Proof.
  destruct (simulate (H := LcgGen) 7 wall_a mixed_args 400)
    as [[[produced1 received1] final1| |]|] eqn:E1;
    try (vm_compute in E1; discriminate E1).
  destruct (simulate (H := LcgGen) 9 wall_b mixed_args 500)
    as [[[produced2 received2] final2| |]|] eqn:E2;
    try (vm_compute in E2; discriminate E2).
  exists produced1, received1, final1, produced2, received2, final2.
  split; [reflexivity|]. split; [lia|]. split; [reflexivity|]. split; [reflexivity|].
  exact (seeded_runs_publish_alike (H := LcgGen) 7 9 wall_a wall_b mixed_args 400 500 42
           _ _ _ _ _ _ eq_refl ltac:(lia) E1 E2).
Defined.

(** Two runs of two messages on the fast path: they agree in everything
    but the wall-clock fields. *)
Example replay_runs_finish :
  match simulate (H := LcgGen) 7 wall_a replay_args 200,
        simulate (H := LcgGen) 9 wall_b replay_args 200 with
  | Some (Finished (produced, received) _), Some (Finished (produced', received') _) =>
      List.map sequence_id produced = [1; 2]
      /\ List.map (fun r => sequence_id (item r)) received = [1; 2]
      /\ List.map message_id produced = List.map message_id produced'
      /\ List.map arrival_index received = List.map arrival_index received'
      /\ List.map created_at produced <> List.map created_at produced'
  | _, _ => False
  end.
Proof. vm_compute. repeat split. discriminate. Qed.

(** [if args.seed:] takes [--seed 0] for no seed: the generator is left as
    the import found it, and two such runs draw different message ids. *)
Lemma seed_zero_is_not_applied {G} `{RandomGen G} (entropy : G) :
  parse_args seed_zero_args entropy = entropy.
Proof. reflexivity. Qed.

Example seed_zero_runs_differ :
  match simulate (H := LcgGen) 7 wall_a seed_zero_args 200,
        simulate (H := LcgGen) 9 wall_a seed_zero_args 200 with
  | Some (Finished (produced, _) _), Some (Finished (produced', _) _) =>
      List.map message_id produced <> List.map message_id produced'
  | _, _ => False
  end.
Proof. vm_compute. discriminate. Qed.
End Reproducibility.

(* ===================================================================== *)
(** * The analyzer *)
(* ===================================================================== *)

Section Analyzer.
Import Sim.
Local Open Scope Z_scope.

(** [received_seq_ids = [r["sequence_id"] for r in received]] *)
Definition received_seq_ids (received : list Received) : list Z :=
  List.map (fun r => sequence_id (item r)) received.

(** How often [s] occurs in [l]. *)
Definition occurrences (s : Z) (l : list Z) : nat :=
  length (List.filter (fun x => bool_decide (x = s)) l).

(** The sequence numbers received on partition [pid], as they arrived. *)
Definition seqs_of (pid : Z) (received : list Received) : list Z :=
  received_seq_ids (List.filter (fun r => partition_id (item r) =? pid) received).

(** The distinct elements of [l] outside [seen], each at its first place. *)
Fixpoint first_seen (seen l : list Z) : list Z :=
  match l with
  | [] => []
  | x :: l' =>
      if bool_decide (x ∈ seen) then first_seen seen l'
      else x :: first_seen (x :: seen) l'
  end.

Lemma filter_elem {A} (f : A -> bool) (l : list A) (x : A) :
  x ∈ List.filter f l <-> x ∈ l /\ f x = true.
Proof. rewrite !list_elem_of_In. apply filter_In. Qed.

Lemma filter_sub {A} (f : A -> bool) (l : list A) : List.filter f l `sublist_of` l.
Proof.
  induction l as [|x l IH]; simpl; [constructor|].
  destruct (f x); by constructor.
Qed.

Lemma filter_NoDup {A} (f : A -> bool) (l : list A) : NoDup l -> NoDup (List.filter f l).
Proof. intros Hn. exact (sublist_NoDup _ _ Hn (filter_sub f l)). Qed.

Lemma sorted_Z_perm l : sorted_Z l ≡ₚ l.
Proof. apply merge_sort_Permutation. Qed.

Lemma sorted_Z_sorted l : Sorted Z.le (sorted_Z l).
Proof. apply (Sorted_merge_sort Z.le). Qed.

Lemma sorted_Z_elem l s : s ∈ sorted_Z l <-> s ∈ l.
Proof. by rewrite sorted_Z_perm. Qed.

Lemma strictly_sorted (l : list Z) : Sorted Z.le l -> NoDup l -> Sorted Z.lt l.
Proof.
  intros Hs Hn. apply Sorted_StronglySorted in Hs; [|intros x y z; lia].
  apply StronglySorted_Sorted.
  induction Hs as [|x l Hs IH Hall]; [constructor|].
  apply NoDup_cons in Hn as [Hx Hn]. constructor; [by apply IH|].
  rewrite List.Forall_forall in *. intros y Hy.
  specialize (Hall y Hy). apply list_elem_of_In in Hy.
  assert (x <> y) by (intros ->; contradiction). lia.
Qed.

Lemma sorted_Z_strict l : NoDup l -> Sorted Z.lt (sorted_Z l).
Proof.
  intros Hn. apply strictly_sorted; [apply sorted_Z_sorted|].
  by rewrite sorted_Z_perm.
Qed.

Lemma sorted_Z_fixed l : l = sorted_Z l <-> Sorted Z.le l.
Proof.
  split.
  - intros ->. apply sorted_Z_sorted.
  - intros Hs. apply (Sorted_unique Z.le); [exact Hs|apply sorted_Z_sorted|].
    symmetry. apply sorted_Z_perm.
Qed.

(** ** missing *)

(** X1.  [analyze] reports as missing exactly the sequence numbers that are
    in the produced history and in no received record, each once, in
    ascending order. *)
Theorem analyze_missing_exact (produced : list Message) (received : list Received) :
  Sorted Z.lt (missing (analyze produced received))
  /\ forall s, s ∈ missing (analyze produced received)
               <-> s ∈ List.map sequence_id produced /\ s ∉ received_seq_ids received.
Proof.
  unfold analyze. cbn [missing]. split.
  - apply sorted_Z_strict, filter_NoDup, NoDup_remove_dups.
  - intros s. rewrite sorted_Z_elem, filter_elem, elem_of_remove_dups.
    unfold received_seq_ids. rewrite negb_true_iff, bool_decide_eq_false. reflexivity.
Qed.

(** ** duplicates *)

Lemma occurrences_cons s x l :
  occurrences s (x :: l) = ((if bool_decide (x = s) then 1 else 0) + occurrences s l)%nat.
Proof. unfold occurrences. simpl. by destruct (bool_decide (x = s)). Qed.

Lemma occurrences_pos s l : s ∈ l <-> (1 <= occurrences s l)%nat.
Proof.
  induction l as [|x l IH].
  - split; [intros Hin; by apply not_elem_of_nil in Hin|unfold occurrences; simpl; lia].
  - rewrite occurrences_cons, elem_of_cons, IH.
    destruct (bool_decide_reflect (x = s)) as [->|Hne]; [split; [lia|by left]|].
    split; [intros [->|Hl]; [done|lia]|intros Hl; right; lia].
Qed.

Lemma find_dupes_spec s : forall seqs seen dupes,
  s ∈ find_dupes seen dupes seqs
  <-> s ∈ dupes \/ (s ∈ seen /\ s ∈ seqs) \/ (2 <= occurrences s seqs)%nat.
Proof.
  induction seqs as [|x rest IH]; intros seen dupes; cbn [find_dupes].
  - split; [by left|]. intros [Hd|[[_ Hin]|Hocc]]; [exact Hd| |].
    + by apply not_elem_of_nil in Hin.
    + unfold occurrences in Hocc. simpl in Hocc. lia.
  - rewrite occurrences_cons. pose proof (occurrences_pos s rest) as Hpos.
    assert (Hd : s ∈ (if bool_decide (x ∈ dupes) then dupes else x :: dupes)
                 <-> x = s \/ s ∈ dupes \/ (x ∈ dupes /\ s ∈ dupes)).
    { destruct (bool_decide_reflect (x ∈ dupes)); [|rewrite elem_of_cons]; naive_solver. }
    destruct (bool_decide_reflect (x ∈ seen)) as [Hseen|Hseen]; rewrite IH;
      rewrite ?Hd, !elem_of_cons;
      destruct (bool_decide_reflect (x = s)) as [->|Hne]; simpl;
      set (n := occurrences s rest) in *; clearbody n; clear IH Hd;
      destruct Hpos as [Hp1 Hp2]; naive_solver lia.
Qed.

Lemma find_dupes_NoDup : forall seqs seen dupes,
  NoDup dupes -> NoDup (find_dupes seen dupes seqs).
Proof.
  induction seqs as [|x rest IH]; intros seen dupes Hn; cbn [find_dupes]; [exact Hn|].
  destruct (bool_decide (x ∈ seen)); [|by apply IH].
  apply IH. destruct (bool_decide_reflect (x ∈ dupes)); [exact Hn|by constructor].
Qed.

(** X2.  [analyze] reports as duplicates exactly the sequence numbers that
    two or more received records carry, each once, in ascending order. *)
Theorem analyze_duplicates_exact (produced : list Message) (received : list Received) :
  Sorted Z.lt (duplicates (analyze produced received))
  /\ forall s, s ∈ duplicates (analyze produced received)
               <-> (2 <= occurrences s (received_seq_ids received))%nat.
Proof.
  unfold analyze. cbn [duplicates]. split.
  - apply sorted_Z_strict, find_dupes_NoDup. constructor.
  - intros s. rewrite sorted_Z_elem, find_dupes_spec. unfold received_seq_ids. split.
    + intros [Hin|[[Hin _]|Hocc]]; [by apply not_elem_of_nil in Hin|by apply not_elem_of_nil in Hin|exact Hocc].
    + intros Hocc. by right; right.
Qed.

(** ** by_partition *)

Definition partition_ids (received : list Received) : list Z :=
  List.map (fun r => partition_id (item r)) received.

Lemma seqs_of_cons pid x rest :
  seqs_of pid (x :: rest)
  = (if partition_id (item x) =? pid then [sequence_id (item x)] else []) ++ seqs_of pid rest.
Proof. unfold seqs_of, received_seq_ids. simpl. by destruct (_ =? pid). Qed.

Lemma setdefault_append_old p s d :
  p ∈ List.map fst d -> NoDup (List.map fst d) ->
  setdefault_append p s d
  = List.map (fun e => (fst e, snd e ++ (if p =? fst e then [s] else []))) d.
Proof.
  induction d as [|[q l] d IH]; intros Hin Hn; [by apply not_elem_of_nil in Hin|].
  simpl in *. apply NoDup_cons in Hn as [Hq Hn]. rewrite (Z.eqb_sym p q).
  destruct (Z.eqb_spec q p) as [->|Hne].
  - f_equal. rewrite <- (List.map_id d) at 1. apply List.map_ext_in.
    intros [q' l'] Hin'. simpl. destruct (Z.eqb_spec p q') as [->|_]; [|by rewrite app_nil_r].
    destruct Hq. apply list_elem_of_In. by apply (List.in_map fst) in Hin'.
  - rewrite app_nil_r. f_equal. apply IH; [|exact Hn].
    apply elem_of_cons in Hin as [->|Hin]; [done|exact Hin].
Qed.

Lemma setdefault_append_new p s d :
  p ∉ List.map fst d -> setdefault_append p s d = d ++ [(p, [s])].
Proof.
  induction d as [|[q l] d IH]; intros Hin; [reflexivity|].
  simpl in *. rewrite not_elem_of_cons in Hin. destruct Hin as [Hne Hin].
  destruct (Z.eqb_spec q p) as [->|_]; [done|]. by rewrite IH.
Qed.

Lemma first_seen_ext l : forall seen seen',
  (forall x, x ∈ seen <-> x ∈ seen') -> first_seen seen l = first_seen seen' l.
Proof.
  induction l as [|x l IH]; intros seen seen' Heq; [reflexivity|]. simpl.
  rewrite (bool_decide_ext _ _ (Heq x)). destruct (bool_decide (x ∈ seen')).
  - by apply IH.
  - f_equal. apply IH. intros y. rewrite !elem_of_cons. by rewrite Heq.
Qed.

Lemma first_seen_elem l : forall seen x,
  x ∈ first_seen seen l <-> x ∈ l /\ x ∉ seen.
Proof.
  induction l as [|y l IH]; intros seen x; simpl.
  - split; [intros Hin; by apply not_elem_of_nil in Hin|intros [Hin _]; by apply not_elem_of_nil in Hin].
  - destruct (bool_decide_reflect (y ∈ seen)) as [Hy|Hy].
    + rewrite IH, elem_of_cons. naive_solver.
    + rewrite !elem_of_cons, IH, not_elem_of_cons.
      destruct (decide (x = y)) as [->|Hne]; naive_solver.
Qed.

Lemma first_seen_NoDup l : forall seen, NoDup (first_seen seen l).
Proof.
  induction l as [|y l IH]; intros seen; simpl; [constructor|].
  destruct (bool_decide (y ∈ seen)); [apply IH|].
  constructor; [|apply IH]. rewrite first_seen_elem, not_elem_of_cons. naive_solver.
Qed.

Lemma seqs_of_none pid received :
  pid ∉ partition_ids received -> seqs_of pid received = [].
Proof.
  induction received as [|x rest IH]; intros Hin; [reflexivity|].
  unfold partition_ids in Hin. simpl in Hin. rewrite not_elem_of_cons in Hin.
  destruct Hin as [Hne Hin]. rewrite seqs_of_cons, IH by exact Hin.
  destruct (Z.eqb_spec (partition_id (item x)) pid); [congruence|reflexivity].
Qed.

Lemma by_partition_fold rest : forall d,
  NoDup (List.map fst d) ->
  List.fold_left
    (fun d r => setdefault_append (partition_id (item r)) (sequence_id (item r)) d) rest d
  = List.map (fun e => (fst e, snd e ++ seqs_of (fst e) rest)) d
    ++ List.map (fun pid => (pid, seqs_of pid rest))
                (first_seen (List.map fst d) (partition_ids rest)).
Proof.
  induction rest as [|x rest IH]; intros d Hn.
  - simpl. rewrite app_nil_r. rewrite <- (List.map_id d) at 1.
    apply List.map_ext. intros [q l]. simpl. by rewrite app_nil_r.
  - cbn [List.fold_left partition_ids List.map first_seen].
    set (p := partition_id (item x)). set (s := sequence_id (item x)).
    destruct (bool_decide_reflect (p ∈ List.map fst d)) as [Hin|Hin].
    + rewrite setdefault_append_old by assumption.
      set (d' := List.map (fun e => (fst e, snd e ++ (if p =? fst e then [s] else []))) d).
      assert (Hk : List.map fst d' = List.map fst d).
      { unfold d'. rewrite List.map_map. by apply List.map_ext. }
      rewrite IH by (by rewrite Hk). rewrite Hk. f_equal.
      * unfold d'. rewrite List.map_map. apply List.map_ext. intros [q l]. cbn [fst snd].
        rewrite seqs_of_cons, <- app_assoc. fold p s. reflexivity.
      * apply List.map_ext_in. intros q Hq. rewrite seqs_of_cons. fold p s.
        apply list_elem_of_In, first_seen_elem in Hq as [_ Hq].
        destruct (Z.eqb_spec p q) as [->|_]; [done|reflexivity].
    + rewrite setdefault_append_new by assumption.
      assert (Hn' : NoDup (List.map fst (d ++ [(p, [s])]))).
      { rewrite List.map_app. apply NoDup_app. split; [exact Hn|]. split; [|by apply NoDup_singleton].
        intros y Hy Hy'. apply list_elem_of_singleton in Hy'. by subst. }
      rewrite IH by exact Hn'. rewrite List.map_app. cbn [List.map fst snd].
      rewrite <- app_assoc. f_equal.
      * apply List.map_ext_in. intros [q l] Hq. cbn [fst snd].
        rewrite seqs_of_cons. fold p s.
        destruct (Z.eqb_spec p q) as [->|_]; [|reflexivity].
        destruct Hin. apply list_elem_of_In. by apply (List.in_map fst) in Hq.
      * cbn [app]. rewrite seqs_of_cons. fold p s. rewrite Z.eqb_refl. f_equal.
        rewrite (first_seen_ext _ (List.map fst (d ++ [(p, [s])])) (p :: List.map fst d)).
        2:{ intros y. rewrite List.map_app, elem_of_app, elem_of_cons. cbn [List.map fst].
            rewrite list_elem_of_singleton. tauto. }
        fold (partition_ids rest).
        apply List.map_ext_in. intros q Hq. rewrite seqs_of_cons. fold p s.
        apply list_elem_of_In, first_seen_elem in Hq as [_ Hq].
        rewrite not_elem_of_cons in Hq.
        destruct (Z.eqb_spec p q) as [->|_]; [by destruct Hq|reflexivity].
Qed.

Lemma analyze_by_partition_eq produced received :
  by_partition (analyze produced received)
  = List.map (fun pid => (pid, seqs_of pid received))
             (first_seen [] (partition_ids received)).
Proof.
  unfold analyze. cbn [by_partition].
  rewrite by_partition_fold by constructor. reflexivity.
Qed.

(** X3.  [by_partition] has one entry per partition that occurs in the
    received records, in the order in which the partitions were first seen;
    the entry of a partition lists the sequence numbers of its records in
    arrival order. *)
Theorem analyze_by_partition_exact (produced : list Message) (received : list Received) :
  let pids := first_seen [] (partition_ids received) in
  by_partition (analyze produced received)
  = List.map (fun pid => (pid, seqs_of pid received)) pids
  /\ NoDup pids
  /\ forall pid, pid ∈ pids <-> pid ∈ partition_ids received.
Proof.
  split; [apply analyze_by_partition_eq|]. split; [apply first_seen_NoDup|].
  intros pid. rewrite first_seen_elem. split; [by intros [? _]|].
  intros Hin. split; [exact Hin|apply not_elem_of_nil].
Qed.

(** X4.  [analyze] flags a partition as out of order exactly when the
    sequence numbers received on it are not in ascending order. *)
Theorem analyze_out_of_order_exact (produced : list Message) (received : list Received)
    (pid : Z) :
  pid ∈ out_of_order (analyze produced received)
  <-> ~ Sorted Z.le (seqs_of pid received).
Proof.
  unfold analyze. cbn [out_of_order].
  change (List.fold_left _ received [])
    with (by_partition (analyze produced received)).
  rewrite analyze_by_partition_eq, list_elem_of_In, List.in_map_iff. split.
  - intros ([q l] & <- & Hin). apply List.filter_In in Hin as [Hin Hns].
    apply List.in_map_iff in Hin as (q' & Heq & _). injection Heq as -> <-.
    cbn [fst snd] in *. rewrite negb_true_iff, bool_decide_eq_false in Hns.
    by rewrite <- sorted_Z_fixed.
  - intros Hns. exists (pid, seqs_of pid received). split; [reflexivity|].
    apply List.filter_In. split.
    + apply (List.in_map (fun pid => (pid, seqs_of pid received))).
      apply list_elem_of_In, first_seen_elem. split; [|apply not_elem_of_nil].
      destruct (decide (pid ∈ partition_ids received)) as [Hin|Hin]; [exact Hin|].
      destruct Hns. rewrite seqs_of_none by exact Hin. constructor.
    + cbn [snd]. rewrite negb_true_iff, bool_decide_eq_false.
      by rewrite sorted_Z_fixed.
Qed.
End Analyzer.

(* ===================================================================== *)
(** * The fields of a generated message *)
(* ===================================================================== *)

(** [check] holds of the [n] numbers from [z] on. *)
Fixpoint all_from (check : Z -> bool) (n : nat) (z : Z) : bool :=
  match n with
  | O => true
  | S n' => check z && all_from check n' (z + 1)%Z
  end.

Lemma all_from_spec (check : Z -> bool) (n : nat) : forall z k : Z,
  all_from check n z = true -> (z <= k < z + Z.of_nat n)%Z -> check k = true.
Proof.
  induction n as [|n IH]; intros z k Hall Hk; [lia|].
  cbn [all_from] in Hall. apply andb_true_iff in Hall as [Hz Hall].
  destruct (decide (k = z)) as [->|Hne]; [exact Hz|].
  apply (IH (z + 1)%Z); [exact Hall|lia].
Qed.

Section RandomFields.
Import Sim.
Local Open Scope Z_scope.
Context {G : Type} `{RandomGen G}.

Lemma randint_range (a b : Z) (g : G) :
  a <= b -> exists z g', randint a b g = Some (z, g') /\ a <= z <= b.
Proof.
  intros Hab. unfold randint. replace (b <? a) with false by lia.
  unfold randbelow. destruct (gen_below _ g) as [r g1].
  eexists _, _. split; [reflexivity|].
  pose proof (Z.mod_pos_bound r (b - a + 1)). lia.
Qed.

Lemma randint_empty (a b : Z) (g : G) : b < a -> randint a b g = None.
Proof. intros Hab. unfold randint. by replace (b <? a) with true by lia. Qed.

Lemma choice_some {A} (a : A) (l : list A) (g : G) :
  exists x g', choice (a :: l) g = Some (x, g') /\ x ∈ a :: l.
Proof.
  destruct (choice (a :: l) g) as [[x g']|] eqn:E.
  - exists x, g'. split; [reflexivity|]. eapply choice_elem, E.
  - unfold choice in E. destruct (randbelow _ g). discriminate.
Qed.

Lemma random_id_chars (n : nat) : forall g : G,
  String.length (fst (random_id n g)) = n
  /\ Forall (fun c => c ∈ chars) (list_ascii_of_string (fst (random_id n g))).
Proof.
  induction n as [|n IH]; intros g; [split; [reflexivity|constructor]|].
  cbn [random_id].
  destruct (choice_some "a"%char (List.tl chars) g) as (c & g1 & Hc & Hin).
  change ("a"%char :: List.tl chars) with chars in *. rewrite Hc.
  destruct (IH g1) as [Hlen Hall]. destruct (random_id n g1) as [s g2].
  cbn [fst String.length list_ascii_of_string] in *.
  split; [by rewrite Hlen|by constructor].
Qed.

Lemma str_of_Z_five_digits (z : Z) :
  10000 <= z <= 99999 -> String.length (str_of_Z z) = 5%nat.
Proof.
  intros Hz.
  assert (Hall : all_from (fun x => Nat.eqb (String.length (str_of_Z x)) 5)
                          (Z.to_nat 90000) 10000 = true)
    by (vm_compute; reflexivity).
  apply Nat.eqb_eq. apply (all_from_spec _ _ _ z Hall). lia.
Qed.

Lemma random_zipcode_digits (g : G) :
  exists z : Z,
    10000 <= z <= 99999
    /\ fst (random_zipcode g) = str_of_Z z
    /\ String.length (fst (random_zipcode g)) = 5%nat.
Proof.
  unfold random_zipcode.
  destruct (randint_range 10000 99999 g) as (z & g' & -> & Hz); [lia|].
  exists z. cbn [fst]. split; [exact Hz|]. split; [reflexivity|].
  by apply str_of_Z_five_digits.
Qed.
End RandomFields.

(** X5.  [random_id(length)] returns, for every state of the generator, a
    string of exactly [length] characters, each a lower-case letter or a
    digit. *)
Theorem random_id_shape {G : Type} `{Sim.RandomGen G} (length : nat) (g : G) :
  String.length (fst (Sim.random_id length g)) = length
  /\ Forall (fun c => c ∈ list_ascii_of_string "abcdefghijklmnopqrstuvwxyz0123456789")
            (list_ascii_of_string (fst (Sim.random_id length g))).
Proof. apply random_id_chars. Qed.

(** X6.  [random_zipcode()] returns, for every state of the generator, the
    decimal text of a number from 10000 to 99999: five digits, the first
    not zero. *)
Theorem random_zipcode_shape {G : Type} `{Sim.RandomGen G} (g : G) :
  exists z : Z,
    (10000 <= z <= 99999)%Z
    /\ fst (Sim.random_zipcode g) = str_of_Z z
    /\ String.length (fst (Sim.random_zipcode g)) = 5%nat.
Proof. apply random_zipcode_digits. Qed.

Section PublisherFields.
Import Sim Publisher.
Local Open Scope Z_scope.
Context {G : Type} `{RandomGen G}.
Variables (clock : nat -> Z) (partitions base_delay jitter dup_prob slow_prob : Z).
Hypothesis partitions_pos : 1 <= partitions.

(** What the publisher puts in the fields it draws. *)
Definition drawn_fields (m : Message) : Prop :=
  0 <= partition_id m <= partitions - 1
  /\ 100 <= value m <= 10000
  /\ String.length (message_id m) = 8%nat
  /\ String.length (zipcode m) = 5%nat.

Lemma publisher_loop_fields todo : forall seq g produced n evs out,
  alone clock n (publisher_loop partitions base_delay jitter dup_prob slow_prob
                                todo seq g produced) = (evs, Some out) ->
  Forall drawn_fields produced ->
  Forall drawn_fields out
  /\ List.map created_at out
     = List.map created_at produced ++ List.map clock (List.seq n todo).
Proof.
  induction todo as [|todo IH]; intros seq g produced n evs out Hrun Hall.
  - simpl in Hrun. injection Hrun as _ <-. split; [exact Hall|by rewrite app_nil_r].
  - rewrite publisher_loop_S in Hrun.
    destruct (uniform _ _ g) as [u g1].
    destruct (randint_range 0 (partitions - 1) g1) as (pid & g2 & Hpid & Hpid_range); [lia|].
    rewrite Hpid in Hrun.
    pose proof (random_id_chars 8 g2) as [Hmid _].
    destruct (random_id 8 g2) as [mid g3]. cbn [fst] in Hmid.
    cbn [alone] in Hrun.
    destruct (randint_range 100 10000 g3) as (val & g4 & Hval & Hval_range); [lia|].
    rewrite Hval in Hrun.
    destruct (random_zipcode_digits g4) as (z & _ & _ & Hzip).
    destruct (random_zipcode g4) as [zip g5]. cbn [fst] in Hzip.
    destruct (random g5) as [r g6].
    set (msg := mkMessage mid seq pid (clock n) val zip) in *.
    destruct (alone_send_block clock slow_prob (S n) msg r
                (dup_block dup_prob (produced ++ [msg]) g6
                   (fun g => publisher_loop partitions base_delay jitter dup_prob slow_prob
                                            todo (seq + 1) g (produced ++ [msg]))))
      as (ev & _ & _ & _ & Hsend).
    rewrite Hsend in Hrun.
    destruct (alone_dup_block clock dup_prob (S n) (produced ++ [msg]) g6
                (fun g => publisher_loop partitions base_delay jitter dup_prob slow_prob
                                         todo (seq + 1) g (produced ++ [msg])))
      as (g7 & pre & Hdup & _).
    rewrite Hdup in Hrun. cbn [fst snd] in Hrun.
    destruct (alone clock (S n) (publisher_loop partitions base_delay jitter dup_prob slow_prob
                                                todo (seq + 1) g7 (produced ++ [msg])))
      as [evs' res] eqn:Hrest.
    cbn [fst snd] in Hrun. injection Hrun as _ ->.
    destruct (IH _ _ _ _ _ _ Hrest) as [Hout Hcreated].
    { apply Forall_app. split; [exact Hall|]. constructor; [|constructor].
      unfold drawn_fields, msg. cbn. repeat split; try lia; assumption. }
    split; [exact Hout|].
    rewrite Hcreated, List.map_app, <- app_assoc. reflexivity.
Qed.
End PublisherFields.

(** X7.  With at least one partition the publisher returns, for every
    generator and every clock, a history in which each message has a
    partition from 0 to [partitions - 1], a value from 100 to 10000, a
    [message_id] of eight characters and a [zipcode] of five, and in which
    the [created_at] of the messages are the successive readings of
    [time.time()], one per message. *)
Theorem publisher_message_fields {G : Type} `{Sim.RandomGen G}
    (clock : nat -> Z) (total_messages partitions base_delay jitter dup_prob slow_prob : Z)
    (g : G) :
  (1 <= partitions)%Z ->
  exists evs produced,
    Publisher.alone clock 0
      (Sim.publisher total_messages partitions base_delay jitter dup_prob slow_prob g)
    = (evs, Some produced)
    /\ Forall (drawn_fields partitions) produced
    /\ List.map created_at produced
       = List.map clock (List.seq 0 (Z.to_nat total_messages)).
Proof.
  intros Hp.
  destruct (publisher_alone clock partitions base_delay jitter dup_prob slow_prob Hp
              total_messages g) as (evs & produced & Hrun & _).
  exists evs, produced. split; [exact Hrun|].
  unfold Sim.publisher in Hrun.
  by destruct (publisher_loop_fields clock partitions base_delay jitter dup_prob slow_prob Hp
                 _ _ _ _ _ _ _ Hrun (Forall_nil_2 _)).
Qed.

Lemma publisher_message_fields_witness :
  (1 <= 3)%Z
  /\ exists evs produced,
       Publisher.alone (fun n => 1700000000000000 + Z.of_nat n)%Z 0
         (Sim.publisher (H := Sim.LcgGen) 5 3 10000 20000 500000 500000 42%Z)
       = (evs, Some produced)
       /\ Forall (drawn_fields 3) produced
       /\ List.map created_at produced
          = List.map (fun n => 1700000000000000 + Z.of_nat n)%Z (List.seq 0 (Z.to_nat 5)).
Proof. split; [lia|]. apply publisher_message_fields. lia. Defined.

(** X8.  With no partition ([partitions <= 0]) and at least one message to
    publish, the run ends, for every generator and clock, with the
    [ValueError] that [random.randint(0, partitions - 1)] raises after the
    first sleep: nothing is put on the queue and no history is returned. *)
Theorem publisher_rejects_no_partitions {G : Type} `{Sim.RandomGen G}
    (entropy : G) (wall : Z -> Z) (args : Sim.Args) (fuel : nat) :
  (1 <= Sim.messages args)%Z -> (Sim.partitions args <= 0)%Z -> (8 <= fuel)%nat ->
  Sim.simulate entropy wall args fuel = Some (Sim.Crashed "ValueError").
Proof.
  intros Hm Hp Hf. unfold Sim.simulate, Sim.main, Sim.publisher.
  generalize (Sim.parse_args args entropy). intros g.
  destruct (Z.to_nat (Sim.messages args)) as [|todo] eqn:Hn; [lia|].
  rewrite publisher_loop_S. destruct (Sim.uniform _ _ g) as [u g1].
  rewrite randint_empty by lia.
  do 8 (destruct fuel as [|fuel]; [lia|]).
  unfold Sim.init_world. cbn [Sim.bind].
  generalize (Z.max 0 u). intros d.
  destruct (d <=? 0)%Z eqn:E.
  - unfold Sim.run_loop, Sim.step, Sim.exec; cbn; rewrite E; cbn. reflexivity.
  - unfold Sim.run_loop, Sim.step, Sim.exec; cbn; rewrite E; cbn.
    rewrite !Z.leb_refl. reflexivity.
Qed.

Lemma publisher_rejects_no_partitions_witness :
  (1 <= Sim.messages (Sim.mkArgs 5 0 100 10000 20000 100000 100000 (Some 42%Z)))%Z
  /\ (Sim.partitions (Sim.mkArgs 5 0 100 10000 20000 100000 100000 (Some 42%Z)) <= 0)%Z
  /\ (8 <= 8)%nat
  /\ Sim.simulate (H := Sim.LcgGen) 7%Z wall_a
       (Sim.mkArgs 5 0 100 10000 20000 100000 100000 (Some 42%Z)) 8
     = Some (Sim.Crashed "ValueError").
Proof.
  split; [simpl; lia|]. split; [simpl; lia|]. split; [lia|].
  apply publisher_rejects_no_partitions; simpl; lia.
Defined.

(* ===================================================================== *)
(** * The payload hash and the order of the keys *)
(* ===================================================================== *)

Lemma ascii_compare_trans (a b c : ascii) (o : comparison) :
  Ascii.compare a b = o -> Ascii.compare b c = o -> Ascii.compare a c = o.
Proof.
  unfold Ascii.compare. destruct o; intros Hab Hbc.
  - apply N.compare_eq_iff in Hab, Hbc. apply N.compare_eq_iff. congruence.
  - rewrite N.compare_lt_iff in *. lia.
  - rewrite N.compare_gt_iff in *. lia.
Qed.

Lemma string_leb_trans (s1 : string) : forall s2 s3 : string,
  String.leb s1 s2 = true -> String.leb s2 s3 = true -> String.leb s1 s3 = true.
Proof.
  unfold String.leb.
  induction s1 as [|a s1 IH]; intros [|b s2] [|c s3]; simpl; try done.
  destruct (Ascii.compare a b) eqn:Eab; try done;
    destruct (Ascii.compare b c) eqn:Ebc; try done.
  - rewrite (ascii_compare_trans a b c Eq Eab Ebc). apply IH.
  - apply Ascii.compare_eq_iff in Eab as ->. by rewrite Ebc.
  - apply Ascii.compare_eq_iff in Ebc as <-. by rewrite Eab.
  - by rewrite (ascii_compare_trans a b c Lt Eab Ebc).
Qed.

Global Instance key_leb_trans : Transitive key_leb.
Proof. intros x y z. unfold key_leb. apply string_leb_trans. Qed.

Global Instance key_leb_total : Total key_leb.
Proof. intros x y. unfold key_leb. apply String.leb_total. Qed.

Lemma dict_key_unique (d : dict) (k : string) (v v' : Value) :
  NoDup (List.map fst d) -> (k, v) ∈ d -> (k, v') ∈ d -> v = v'.
Proof.
  induction d as [|[k0 v0] d IH]; intros Hn H1 H2; [by apply not_elem_of_nil in H1|].
  cbn [List.map fst] in Hn. apply NoDup_cons in Hn as [Hk Hn].
  assert (Hkey : forall w, (k0, w) ∈ d -> False).
  { intros w Hw. apply Hk. rewrite map_fmap. apply list_elem_of_fmap. by exists (k0, w). }
  apply elem_of_cons in H1 as [H1|H1]; apply elem_of_cons in H2 as [H2|H2].
  - congruence.
  - injection H1 as -> ->. by destruct (Hkey v').
  - injection H2 as -> ->. by destruct (Hkey v).
  - by apply IH.
Qed.

(** Sorting by key gives one result for all orders of a dict's items. *)
Lemma sorted_items_unique (d d' : dict) :
  d ≡ₚ d' -> NoDup (List.map fst d) ->
  merge_sort key_leb d = merge_sort key_leb d'.
Proof.
  intros Hp Hn.
  apply (Sorted_unique_strong key_leb).
  - intros [k v] [k' v'] Hx Hx' Hle Hle'. unfold key_leb in *. cbn [fst] in *.
    rewrite merge_sort_Permutation in Hx. rewrite merge_sort_Permutation, <- Hp in Hx'.
    assert (k = k') as <- by (by apply String.leb_antisym).
    f_equal. by apply (dict_key_unique d k).
  - apply (Sorted_merge_sort key_leb).
  - apply (Sorted_merge_sort key_leb).
  - by rewrite !merge_sort_Permutation.
Qed.

(** X9.  The payload hash of a row does not depend on the order of the
    row's keys: [json.dumps(row, sort_keys=True)] gives one text, and so
    one hash, for every order of the same items, in day04 and in day05. *)
Theorem payload_hash_ignores_key_order (row row' : dict) :
  row ≡ₚ row' -> NoDup (List.map fst row) ->
  json_dumps_sorted row = json_dumps_sorted row'
  /\ Day04.compute_payload_hash row = Day04.compute_payload_hash row'
  /\ Day05.compute_payload_hash row = Day05.compute_payload_hash row'.
Proof.
  intros Hp Hn.
  assert (Hj : json_dumps_sorted row = json_dumps_sorted row').
  { unfold json_dumps_sorted. by rewrite (sorted_items_unique row row' Hp Hn). }
  unfold Day04.compute_payload_hash, Day05.compute_payload_hash. by rewrite Hj.
Qed.

Lemma payload_hash_ignores_key_order_witness :
  [("value", VInt 7); ("message_id", VStr "abc")]
    ≡ₚ [("message_id", VStr "abc"); ("value", VInt 7)]
  /\ NoDup (List.map fst [("value", VInt 7); ("message_id", VStr "abc")])
  /\ json_dumps_sorted [("value", VInt 7); ("message_id", VStr "abc")]
     = json_dumps_sorted [("message_id", VStr "abc"); ("value", VInt 7)]
  /\ Day04.compute_payload_hash [("value", VInt 7); ("message_id", VStr "abc")]
     = Day04.compute_payload_hash [("message_id", VStr "abc"); ("value", VInt 7)]
  /\ Day05.compute_payload_hash [("value", VInt 7); ("message_id", VStr "abc")]
     = Day05.compute_payload_hash [("message_id", VStr "abc"); ("value", VInt 7)].
Proof.
  assert (Hp : [("value", VInt 7); ("message_id", VStr "abc")]
                 ≡ₚ [("message_id", VStr "abc"); ("value", VInt 7)]) by apply perm_swap.
  assert (Hn : NoDup (List.map fst [("value", VInt 7); ("message_id", VStr "abc")])).
  { cbn [List.map fst]. apply NoDup_cons. split; [|apply NoDup_singleton].
    intros Hin. apply list_elem_of_singleton in Hin. discriminate. }
  split; [exact Hp|]. split; [exact Hn|].
  exact (payload_hash_ignores_key_order _ _ Hp Hn).
Defined.

(* ===================================================================== *)
(** * The counts in the metrics *)
(* ===================================================================== *)

Lemma unique_keys_perm (subset : list string) (keep : Keep) (l : list Row) :
  List.map (row_key subset) (unique_stable subset keep l)
  ≡ₚ remove_dups (List.map (row_key subset) l).
Proof.
  apply NoDup_Permutation.
  - destruct keep; [apply keep_first_NoDup|apply keep_last_NoDup].
  - apply NoDup_remove_dups.
  - intros k. rewrite elem_of_remove_dups, !map_fmap, !list_elem_of_fmap. split.
    + intros (o & -> & Ho). exists o. split; [reflexivity|].
      destruct keep; [by apply keep_first_elem in Ho as [? _]|by apply keep_last_elem in Ho].
    + intros (r & -> & Hr). apply list_elem_of_fmap. rewrite <- map_fmap.
      destruct keep; [apply keep_first_covers; [exact Hr|apply not_elem_of_nil]
                     |by apply keep_last_covers].
Qed.

(** [unique] keeps as many rows as there are distinct keys. *)
Lemma unique_rows_count (E : Engine) (subset : list string) (keep : Keep) (l : list Row) :
  length (unique_rows E subset keep l) = length (remove_dups (List.map (row_key subset) l)).
Proof.
  rewrite (Permutation_length (unique_rows_perm E subset keep l)).
  rewrite <- (length_map (row_key subset)).
  apply Permutation_length, unique_keys_perm.
Qed.

Lemma remove_dups_map_inj {A B} `{EqDecision A} `{EqDecision B} (f : A -> B) (l : list A) :
  Inj eq eq f -> length (remove_dups (List.map f l)) = length (remove_dups l).
Proof.
  intros Hinj. rewrite <- (length_map f (remove_dups l)).
  apply Permutation_length, NoDup_Permutation.
  - apply NoDup_remove_dups.
  - rewrite map_fmap. apply (NoDup_fmap_2 f), NoDup_remove_dups.
  - intros y. rewrite elem_of_remove_dups, !map_fmap, !list_elem_of_fmap.
    by setoid_rewrite elem_of_remove_dups.
Qed.

Lemma remove_dups_length_le {A} `{EqDecision A} (l : list A) :
  (length (remove_dups l) <= length l)%nat.
Proof.
  induction l as [|x l IH]; simpl; [lia|].
  destruct (decide_rel elem_of x l); simpl; lia.
Qed.

(** The distinct composite hashes of a batch. *)
Definition distinct_hashes (df : DataFrame) : nat :=
  length (remove_dups (List.map row_hash (rows df))).

Lemma hash_keys_count (l : list Row) :
  length (remove_dups (List.map (row_key ["composite_hash"]) (List.map annotate l)))
  = length (remove_dups (List.map row_hash l)).
Proof.
  rewrite List.map_map.
  rewrite (List.map_ext _ (fun r => [VStr (row_hash r)])) by apply row_key_hash_annotate.
  rewrite <- (List.map_map row_hash (fun h => [VStr h])).
  apply remove_dups_map_inj. intros h h' Heq. congruence.
Qed.

Lemma eager_counts (E : Engine) (df : DataFrame) :
  has_columns composite_key_columns df ->
  exists out m,
    Day04.eager_dedup E df = Ok (out, m)
    /\ height out = distinct_hashes df
    /\ (height out <= height df)%nat
    /\ dict_get m "initial_records" = Ok (Day04.VNat (height df))
    /\ dict_get m "final_records" = Ok (Day04.VNat (height out))
    /\ dict_get m "dropped_duplicates" = Ok (Day04.VNat (height df - height out)).
Proof.
  intros Hc. rewrite (eager_dedup_eq E df Hc). eexists _, _. split; [reflexivity|].
  assert (Hcount : length (unique_rows E ["composite_hash"] KeepFirst
                                       (List.map annotate (rows df))) = distinct_hashes df).
  { rewrite unique_rows_count. apply hash_keys_count. }
  unfold height. cbn [rows]. split; [exact Hcount|]. split.
  - rewrite Hcount. unfold distinct_hashes.
    rewrite <- (length_map row_hash (rows df)). apply remove_dups_length_le.
  - repeat split.
Qed.


(** X10.  On a batch with the key columns [eager_dedup] succeeds, keeps as
    many rows as the batch has distinct composite hashes, never more than
    it was given, and its metrics report the number of rows given, the
    number kept and their difference. *)
Theorem eager_dedup_counts (E : Engine) (df : DataFrame) :
  has_columns composite_key_columns df ->
  exists out m,
    Day04.eager_dedup E df = Ok (out, m)
    /\ height out = distinct_hashes df
    /\ (height out <= height df)%nat
    /\ dict_get m "initial_records" = Ok (Day04.VNat (height df))
    /\ dict_get m "final_records" = Ok (Day04.VNat (height out))
    /\ dict_get m "dropped_duplicates" = Ok (Day04.VNat (height df - height out)).
Proof. apply eager_counts. Qed.

Lemma eager_dedup_counts_witness :
  has_columns composite_key_columns (load_jsonl (batch_abc ++ batch_abc))
  /\ exists out m,
       Day04.eager_dedup stable_engine (load_jsonl (batch_abc ++ batch_abc)) = Ok (out, m)
       /\ height out = distinct_hashes (load_jsonl (batch_abc ++ batch_abc))
       /\ (height out <= height (load_jsonl (batch_abc ++ batch_abc)))%nat
       /\ dict_get m "initial_records"
          = Ok (Day04.VNat (height (load_jsonl (batch_abc ++ batch_abc))))
       /\ dict_get m "final_records" = Ok (Day04.VNat (height out))
       /\ dict_get m "dropped_duplicates"
          = Ok (Day04.VNat (height (load_jsonl (batch_abc ++ batch_abc)) - height out)).
Proof.
  assert (Hc : has_columns composite_key_columns (load_jsonl (batch_abc ++ batch_abc))).
  { unfold has_columns, composite_key_columns. cbn [load_jsonl columns record_columns].
    repeat constructor; set_solver. }
  split; [exact Hc|]. exact (eager_dedup_counts stable_engine _ Hc).
Defined.

Lemma bronze_row_hash cols r : cell (bronze_row cols r) "composite_hash" = VStr (row_hash r).
Proof.
  unfold bronze_row. rewrite !cell_insert_ne by done. apply cell_annotate_hash.
Qed.

Lemma add_hashes_metrics (df : DataFrame) :
  record_frame df ->
  exists out,
    Day04.add_hashes df
    = Ok (out,
          [ ("strategy", VStr "add_hashes");
            ("total_records", Day04.VNat (height df));
            ("unique_composite_keys", Day04.VNat (n_unique "composite_hash" out));
            ("unique_payloads", Day04.VNat (n_unique "payload_hash" out));
            ("potential_duplicates",
             Day04.VNat (height df - n_unique "composite_hash" out)) ])
    /\ rows out = List.map (bronze_row (columns df)) (rows df).
Proof.
  intros [Hc Hr]. inversion Hc as [|? ? Hcreated Hkey]; subst.
  unfold Day04.add_hashes.
  rewrite check_columns_ok.
  2:{ unfold has_columns. rewrite !Forall_app. split; [exact Hkey|].
      split; [by apply Forall_forall|by repeat constructor]. }
  simpl rbind.
  rewrite (composite_hash_column _ Hkey). simpl rbind.
  rewrite (payload_column (columns df)).
  2:{ unfold has_columns. by apply Forall_forall. }
  2:{ intros r Hin. by apply Hr. }
  simpl rbind. rewrite date_column; [|assumption|intros r Hin; by apply Hr].
  simpl rbind. eexists. split; [reflexivity|].
  unfold with_columns. cbn [fold_left fst snd]. unfold with_column at 1 2. cbn [rows].
  rewrite with_composite_hash_rows.
  rewrite (zip_with_map_map (fun r v => <["payload_hash" := v]> r) annotate).
  rewrite zip_with_map_map. reflexivity.
Qed.

Lemma add_hashes_counts_of (df : DataFrame) :
  record_frame df ->
  exists out m,
    Day04.add_hashes df = Ok (out, m)
    /\ height out = height df
    /\ (distinct_hashes df <= height df)%nat
    /\ dict_get m "total_records" = Ok (Day04.VNat (height df))
    /\ dict_get m "unique_composite_keys" = Ok (Day04.VNat (distinct_hashes df))
    /\ dict_get m "potential_duplicates"
       = Ok (Day04.VNat (height df - distinct_hashes df))
    /\ exists p, dict_get m "unique_payloads" = Ok (Day04.VNat p) /\ (p <= height df)%nat.
Proof.
  intros Hrf. destruct (add_hashes_metrics df Hrf) as (out & Heq & Hrows).
  assert (Hh : height out = height df) by (unfold height; rewrite Hrows; apply length_map).
  assert (Hu : n_unique "composite_hash" out = distinct_hashes df).
  { unfold n_unique, distinct_hashes. rewrite Hrows, List.map_map.
    rewrite (List.map_ext _ (fun r => VStr (row_hash r))) by (intros r; apply bronze_row_hash).
    rewrite <- (List.map_map row_hash VStr).
    apply remove_dups_map_inj. intros h h' Heq'. congruence. }
  eexists _, _. split; [exact Heq|]. rewrite Hu. split; [exact Hh|]. split.
  { unfold distinct_hashes, height. rewrite <- (length_map row_hash (rows df)).
    apply remove_dups_length_le. }
  repeat split. eexists. split; [reflexivity|].
  unfold n_unique. rewrite <- Hh. unfold height.
  rewrite <- (length_map (fun r => cell r "payload_hash") (rows out)).
  apply remove_dups_length_le.
Qed.

(** X11.  On a batch of received records [add_hashes] succeeds and keeps
    the number of rows; its metrics report that number as [total_records],
    the number of distinct composite hashes as [unique_composite_keys],
    their difference, which is never negative, as [potential_duplicates],
    and a number of distinct payload hashes no greater than the number of
    rows. *)
Theorem add_hashes_counts (df : DataFrame) :
  record_frame df ->
  exists out m,
    Day04.add_hashes df = Ok (out, m)
    /\ height out = height df
    /\ (distinct_hashes df <= height df)%nat
    /\ dict_get m "total_records" = Ok (Day04.VNat (height df))
    /\ dict_get m "unique_composite_keys" = Ok (Day04.VNat (distinct_hashes df))
    /\ dict_get m "potential_duplicates"
       = Ok (Day04.VNat (height df - distinct_hashes df))
    /\ exists p, dict_get m "unique_payloads" = Ok (Day04.VNat p) /\ (p <= height df)%nat.
Proof. apply add_hashes_counts_of. Qed.

Lemma add_hashes_counts_witness :
  record_frame (load_jsonl (batch_abc ++ batch_abc))
  /\ exists out m,
       Day04.add_hashes (load_jsonl (batch_abc ++ batch_abc)) = Ok (out, m)
       /\ height out = height (load_jsonl (batch_abc ++ batch_abc))
       /\ (distinct_hashes (load_jsonl (batch_abc ++ batch_abc))
           <= height (load_jsonl (batch_abc ++ batch_abc)))%nat
       /\ dict_get m "total_records"
          = Ok (Day04.VNat (height (load_jsonl (batch_abc ++ batch_abc))))
       /\ dict_get m "unique_composite_keys"
          = Ok (Day04.VNat (distinct_hashes (load_jsonl (batch_abc ++ batch_abc))))
       /\ dict_get m "potential_duplicates"
          = Ok (Day04.VNat (height (load_jsonl (batch_abc ++ batch_abc))
                            - distinct_hashes (load_jsonl (batch_abc ++ batch_abc))))
       /\ exists p, dict_get m "unique_payloads" = Ok (Day04.VNat p)
                    /\ (p <= height (load_jsonl (batch_abc ++ batch_abc)))%nat.
Proof.
  split; [apply load_jsonl_record_frame|].
  apply add_hashes_counts, load_jsonl_record_frame.
Defined.

(** X12.  Bronze and Eager agree on the counts: on a batch of received
    records the [unique_composite_keys] of [add_hashes] is the
    [final_records] of [eager_dedup], and its [potential_duplicates] is
    what [eager_dedup] reports as [dropped_duplicates]. *)
Theorem bronze_counts_what_eager_drops (E : Engine) (df : DataFrame) :
  record_frame df ->
  exists bronze bronze_metrics eager eager_metrics,
    Day04.add_hashes df = Ok (bronze, bronze_metrics)
    /\ Day04.eager_dedup E df = Ok (eager, eager_metrics)
    /\ dict_get bronze_metrics "unique_composite_keys" = dict_get eager_metrics "final_records"
    /\ dict_get bronze_metrics "potential_duplicates"
       = dict_get eager_metrics "dropped_duplicates"
    /\ (height bronze - height eager)%nat = (height df - distinct_hashes df)%nat.
Proof.
  intros Hrf.
  destruct (add_hashes_counts_of df Hrf)
    as (bronze & bm & Hb & Hbh & _ & _ & Hbu & Hbp & _).
  assert (Hc : has_columns composite_key_columns df).
  { destruct Hrf as [Hc _]. by inversion Hc. }
  destruct (eager_counts E df Hc) as (eager & em & He & Heh & _ & _ & Hef & Hed).
  exists bronze, bm, eager, em. split; [exact Hb|]. split; [exact He|].
  rewrite Hbu, Hbp, Hef, Hed, Heh, Hbh. by repeat split.
Qed.

Lemma bronze_counts_what_eager_drops_witness :
  record_frame (load_jsonl (batch_abc ++ batch_abc))
  /\ exists bronze bronze_metrics eager eager_metrics,
       Day04.add_hashes (load_jsonl (batch_abc ++ batch_abc)) = Ok (bronze, bronze_metrics)
       /\ Day04.eager_dedup stable_engine (load_jsonl (batch_abc ++ batch_abc))
          = Ok (eager, eager_metrics)
       /\ dict_get bronze_metrics "unique_composite_keys"
          = dict_get eager_metrics "final_records"
       /\ dict_get bronze_metrics "potential_duplicates"
          = dict_get eager_metrics "dropped_duplicates"
       /\ (height bronze - height eager)%nat
          = (height (load_jsonl (batch_abc ++ batch_abc))
             - distinct_hashes (load_jsonl (batch_abc ++ batch_abc)))%nat.
Proof.
  split; [apply load_jsonl_record_frame|].
  apply bronze_counts_what_eager_drops, load_jsonl_record_frame.
Defined.

Lemma remove_dups_perm_length {A} `{EqDecision A} (l l' : list A) :
  l ≡ₚ l' -> length (remove_dups l) = length (remove_dups l').
Proof.
  intros Hp. apply Permutation_length, NoDup_Permutation; try apply NoDup_remove_dups.
  intros x. by rewrite !elem_of_remove_dups, Hp.
Qed.

(** X13.  On a batch with the key columns and [created_at]
    [merge_dedup_polars] succeeds and keeps as many rows as the batch has
    distinct [message_id]s, never more than it was given; its metrics
    report the number of rows given, the number kept and their
    difference. *)
Theorem merge_dedup_polars_counts (E : Engine) (df : DataFrame) :
  has_columns ("created_at" :: composite_key_columns) df ->
  exists out m,
    Day04.merge_dedup_polars E df = Ok (out, m)
    /\ height out = n_unique "message_id" df
    /\ (height out <= height df)%nat
    /\ dict_get m "initial_records" = Ok (Day04.VNat (height df))
    /\ dict_get m "final_records" = Ok (Day04.VNat (height out))
    /\ dict_get m "merged_duplicates" = Ok (Day04.VNat (height df - height out)).
Proof.
  intros Hc. inversion Hc as [|? ? Hcreated Hkey]; subst.
  unfold Day04.merge_dedup_polars.
  rewrite (composite_hash_column _ Hkey). simpl rbind. fold (hashed df).
  unfold df_sort. rewrite check_columns_ok.
  2:{ constructor; [by apply hashed_columns|constructor]. }
  simpl rbind. unfold df_unique. rewrite check_columns_ok.
  2:{ constructor; [|constructor]. simpl. apply hashed_columns.
      by inversion Hkey. }
  simpl rbind. rewrite !zip_with_insert_map.
  eexists _, _. split; [reflexivity|].
  match goal with |- height ?o = _ /\ _ => set (out := o) end.
  assert (Hcount : height out = n_unique "message_id" df).
  { unfold height, out. cbn [rows]. rewrite unique_rows_count.
    rewrite (remove_dups_perm_length _ (List.map (row_key ["message_id"])
                                                 (List.map annotate (rows df)))).
    2:{ rewrite !map_fmap. apply fmap_Permutation, sort_rows_perm. }
    rewrite List.map_map.
    rewrite (List.map_ext _ (fun r => [cell r "message_id"])).
    2:{ intros r. unfold row_key. cbn [List.map]. by rewrite cell_annotate. }
    rewrite <- (List.map_map (fun r => cell r "message_id") (fun v => [v])).
    unfold n_unique. apply remove_dups_map_inj. intros v v' Heq. congruence. }
  split; [exact Hcount|]. split; [|repeat split].
  rewrite Hcount. unfold n_unique, height.
  rewrite <- (length_map (fun r => cell r "message_id") (rows df)).
  apply remove_dups_length_le.
Qed.

Lemma merge_dedup_polars_counts_witness :
  has_columns ("created_at" :: composite_key_columns) (load_jsonl batch_abc)
  /\ exists out m,
       Day04.merge_dedup_polars stable_engine (load_jsonl batch_abc) = Ok (out, m)
       /\ height out = n_unique "message_id" (load_jsonl batch_abc)
       /\ (height out <= height (load_jsonl batch_abc))%nat
       /\ dict_get m "initial_records" = Ok (Day04.VNat (height (load_jsonl batch_abc)))
       /\ dict_get m "final_records" = Ok (Day04.VNat (height out))
       /\ dict_get m "merged_duplicates"
          = Ok (Day04.VNat (height (load_jsonl batch_abc) - height out)).
Proof.
  assert (Hc : has_columns ("created_at" :: composite_key_columns) (load_jsonl batch_abc))
    by (by destruct (load_jsonl_record_frame batch_abc)).
  split; [exact Hc|]. exact (merge_dedup_polars_counts stable_engine _ Hc).
Defined.

(* ===================================================================== *)
(** * Merge into a Delta table *)
(* ===================================================================== *)

Section MergeDelta.
Import Day04 Day04Delta.

(** The rows of the table at [path], none when there is no table. *)
Definition table_rows (path : string) (store : DeltaStore) : list Row :=
  match store !! path with
  | Some t => rows t
  | None => []
  end.

(** The table at [path] is absent or has the schema of the batch with its
    hash column. *)
Definition table_fits (path : string) (df : DataFrame) (store : DeltaStore) : Prop :=
  forall t, store !! path = Some t -> columns t = columns (hashed df).

(** The rows kept of the table's rows and the batch's. *)
Definition merged_rows (E : Engine) (old : list Row) (df : DataFrame) : list Row :=
  unique_rows E ["message_id"] KeepLast
    (sort_rows E "created_at" (old ++ List.map annotate (rows df))).

Definition message_ids (l : list Row) : list Value :=
  List.map (fun r => cell r "message_id") l.

Lemma merge_dedup_delta_run (E : Engine) (df : DataFrame) (path : string)
    (store : DeltaStore) :
  has_columns ("created_at" :: composite_key_columns) df ->
  table_fits path df store ->
  exists out m,
    merge_dedup_delta E df path store = (Ok (out, m), <[path := out]> store)
    /\ rows out = merged_rows E (table_rows path store) df
    /\ columns out = columns (hashed df)
    /\ m = [ ("strategy", VStr "merge_dedup_delta");
             ("initial_records", VNat (height df));
             ("final_records_in_table", VNat (height out));
             ("merged_duplicates", VInt (Z.of_nat (height df) - Z.of_nat (height out)));
             ("dedup_method", VStr "Delta MERGE (last-write-wins)");
             ("table_path", VStr path) ].
Proof.
  intros Hc Hfit. inversion Hc as [|? ? Hcreated Hkey]; subst.
  assert (Hmid : "message_id" ∈ columns df) by (by inversion Hkey).
  unfold merge_dedup_delta, pbind, pure_, read_table, write_table, table_rows.
  rewrite (composite_hash_column _ Hkey). fold (hashed df).
  unfold table_fits in Hfit.
  destruct (store !! path) as [t|] eqn:Ht.
  - specialize (Hfit t eq_refl).
    unfold concat. rewrite decide_True by exact Hfit. cbn [rbind].
    unfold df_sort. rewrite check_columns_ok.
    2:{ constructor; [|constructor]. cbn [columns]. rewrite Hfit. by apply hashed_columns. }
    cbn [rbind]. unfold df_unique. rewrite check_columns_ok.
    2:{ constructor; [|constructor]. cbn [columns]. rewrite Hfit. by apply hashed_columns. }
    cbn [rbind columns rows]. unfold write_deltalake. rewrite Ht.
    rewrite decide_True by reflexivity.
    eexists _, _. split; [reflexivity|]. cbn [rows columns]. rewrite hashed_rows.
    by repeat split.
  - unfold df_sort. rewrite check_columns_ok.
    2:{ constructor; [|constructor]. by apply hashed_columns. }
    cbn [rbind]. unfold df_unique. rewrite check_columns_ok.
    2:{ constructor; [|constructor]. by apply hashed_columns. }
    cbn [rbind columns rows]. unfold write_deltalake. rewrite Ht.
    eexists _, _. split; [reflexivity|]. cbn [rows columns]. rewrite hashed_rows.
    by repeat split.
Qed.

Lemma message_id_annotate r : cell (annotate r) "message_id" = cell r "message_id".
Proof. by apply cell_annotate. Qed.

Lemma message_ids_annotate l : message_ids (List.map annotate l) = message_ids l.
Proof.
  unfold message_ids. rewrite List.map_map. apply List.map_ext. intros r.
  apply message_id_annotate.
Qed.

Lemma merged_rows_ids (E : Engine) (old : list Row) (df : DataFrame) :
  NoDup (message_ids (merged_rows E old df))
  /\ forall v, v ∈ message_ids (merged_rows E old df)
               <-> v ∈ message_ids old \/ v ∈ message_ids (rows df).
Proof.
  unfold merged_rows.
  set (S := sort_rows E "created_at" (old ++ List.map annotate (rows df))).
  pose proof (unique_rows_perm E ["message_id"] KeepLast S) as Hperm. cbn in Hperm.
  assert (Hkeys : message_ids (unique_rows E ["message_id"] KeepLast S)
                  ≡ₚ message_ids (keep_last (row_key ["message_id"]) S)).
  { unfold message_ids. rewrite !map_fmap. by apply fmap_Permutation. }
  split.
  - rewrite Hkeys.
    pose proof (keep_last_NoDup (row_key ["message_id"]) S) as Hnd.
    unfold message_ids. rewrite map_fmap in Hnd. rewrite map_fmap.
    eapply (NoDup_fmap_1 (fun v => [v])). rewrite <- list_fmap_compose. exact Hnd.
  - intros v. rewrite Hkeys.
    assert (HS : forall r, r ∈ S <-> r ∈ old ++ List.map annotate (rows df)).
    { intros r. unfold S. by rewrite sort_rows_perm. }
    rewrite <- (message_ids_annotate (rows df)).
    unfold message_ids. rewrite !map_fmap, !list_elem_of_fmap. split.
    + intros (o & -> & Ho). apply keep_last_elem, HS, elem_of_app in Ho as [Ho|Ho];
        [left|right]; by exists o.
    + intros Hv.
      assert (Hr : exists r, v = cell r "message_id" /\ r ∈ S).
      { destruct Hv as [(r & -> & Hr)|(r & -> & Hr)]; exists r; (split; [reflexivity|]);
          apply HS, elem_of_app; [by left|by right]. }
      destruct Hr as (r & -> & Hr).
      pose proof (keep_last_covers (row_key ["message_id"]) S r Hr) as Hcov.
      rewrite map_fmap in Hcov. apply list_elem_of_fmap in Hcov as (o & Hk & Ho).
      exists o. split; [by apply row_key_mid|exact Ho].
Qed.

Lemma merged_rows_latest (E : Engine) (old : list Row) (df : DataFrame) (o : Row) :
  o ∈ merged_rows E old df ->
  o ∈ old ++ List.map annotate (rows df)
  /\ forall r, r ∈ old ++ List.map annotate (rows df) ->
       cell r "message_id" = cell o "message_id" ->
       value_leb (cell r "created_at") (cell o "created_at") = true.
Proof.
  unfold merged_rows.
  set (S := sort_rows E "created_at" (old ++ List.map annotate (rows df))).
  pose proof (unique_rows_perm E ["message_id"] KeepLast S) as Hperm. cbn in Hperm.
  assert (HS : forall r, r ∈ S <-> r ∈ old ++ List.map annotate (rows df)).
  { intros r. unfold S. by rewrite sort_rows_perm. }
  intros Ho. rewrite Hperm in Ho. split; [by apply keep_last_elem, HS in Ho|].
  intros r Hr Hmid.
  apply (sorted_last_is_greatest (row_key ["message_id"]) "created_at" S).
  - apply sort_rows_sorted.
  - exact Ho.
  - by apply HS.
  - by apply row_key_mid.
Qed.
End MergeDelta.

(** X14.  [merge_dedup_delta] on a batch with the key columns and
    [created_at], the table absent or of the batch's schema: it succeeds,
    the table then holds exactly the frame it returns and every other table
    is as before; the table has one row per [message_id], and its
    [message_id]s are those the table had together with those of the
    batch. *)
Theorem merge_dedup_delta_upserts (E : Engine) (df : DataFrame) (path : string)
    (store : DeltaStore) :
  has_columns ("created_at" :: composite_key_columns) df ->
  table_fits path df store ->
  exists out m store',
    Day04Delta.merge_dedup_delta E df path store = (Ok (out, m), store')
    /\ store' !! path = Some out
    /\ (forall p, p <> path -> store' !! p = store !! p)
    /\ NoDup (message_ids (rows out))
    /\ forall v, v ∈ message_ids (rows out)
                 <-> v ∈ message_ids (table_rows path store) \/ v ∈ message_ids (rows df).
Proof.
  intros Hc Hfit.
  destruct (merge_dedup_delta_run E df path store Hc Hfit) as (out & m & Hrun & Hrows & _).
  exists out, m, (<[path := out]> store). split; [exact Hrun|].
  split; [by rewrite lookup_insert_eq|].
  split; [intros p Hp; by rewrite lookup_insert_ne|].
  rewrite Hrows. apply merged_rows_ids.
Qed.

Lemma merge_dedup_delta_upserts_witness :
  has_columns ("created_at" :: composite_key_columns) (load_jsonl batch_abc)
  /\ table_fits "delta/pubsub_delta_merge" (load_jsonl batch_abc) ∅
  /\ exists out m store',
       Day04Delta.merge_dedup_delta stable_engine (load_jsonl batch_abc)
         "delta/pubsub_delta_merge" ∅ = (Ok (out, m), store')
       /\ store' !! "delta/pubsub_delta_merge" = Some out
       /\ (forall p, p <> "delta/pubsub_delta_merge" -> store' !! p = (∅ : DeltaStore) !! p)
       /\ NoDup (message_ids (rows out))
       /\ forall v, v ∈ message_ids (rows out)
                    <-> v ∈ message_ids (table_rows "delta/pubsub_delta_merge" ∅)
                        \/ v ∈ message_ids (rows (load_jsonl batch_abc)).
Proof.
  assert (Hc : has_columns ("created_at" :: composite_key_columns) (load_jsonl batch_abc))
    by (by destruct (load_jsonl_record_frame batch_abc)).
  assert (Hfit : table_fits "delta/pubsub_delta_merge" (load_jsonl batch_abc) ∅).
  { intros t Ht. rewrite lookup_empty in Ht. discriminate. }
  split; [exact Hc|]. split; [exact Hfit|].
  exact (merge_dedup_delta_upserts stable_engine _ _ _ Hc Hfit).
Defined.

(** X15.  Last write wins across runs: every row [merge_dedup_delta]
    leaves in the table is a row the table had or a row of the batch (with
    its hash), and no row of the table or the batch with the same
    [message_id] has a greater [created_at]. *)
Theorem merge_dedup_delta_last_write_wins (E : Engine) (df : DataFrame) (path : string)
    (store : DeltaStore) :
  has_columns ("created_at" :: composite_key_columns) df ->
  table_fits path df store ->
  exists out m store',
    Day04Delta.merge_dedup_delta E df path store = (Ok (out, m), store')
    /\ forall o, o ∈ rows out ->
         (o ∈ table_rows path store \/ exists r, r ∈ rows df /\ o = annotate r)
         /\ (forall r, r ∈ table_rows path store ->
               cell r "message_id" = cell o "message_id" ->
               value_leb (cell r "created_at") (cell o "created_at") = true)
         /\ (forall r, r ∈ rows df ->
               cell r "message_id" = cell o "message_id" ->
               value_leb (cell r "created_at") (cell o "created_at") = true).
Proof.
  intros Hc Hfit.
  destruct (merge_dedup_delta_run E df path store Hc Hfit) as (out & m & Hrun & Hrows & _).
  exists out, m, (<[path := out]> store). split; [exact Hrun|].
  intros o Ho. rewrite Hrows in Ho.
  destruct (merged_rows_latest E _ df o Ho) as [Hin Hmax]. split; [|split].
  - apply elem_of_app in Hin as [Hin|Hin]; [by left|right].
    rewrite map_fmap in Hin. apply list_elem_of_fmap in Hin as (r & -> & Hr). by exists r.
  - intros r Hr Hmid. apply Hmax; [|exact Hmid]. apply elem_of_app. by left.
  - intros r Hr Hmid.
    specialize (Hmax (annotate r)). rewrite !cell_annotate in Hmax by done.
    apply Hmax; [|exact Hmid]. apply elem_of_app. right.
    rewrite map_fmap. by apply list_elem_of_fmap_2.
Qed.

Lemma merge_dedup_delta_last_write_wins_witness :
  has_columns ("created_at" :: composite_key_columns) (load_jsonl batch_abc)
  /\ table_fits "delta/pubsub_delta_merge" (load_jsonl batch_abc) ∅
  /\ exists out m store',
       Day04Delta.merge_dedup_delta stable_engine (load_jsonl batch_abc)
         "delta/pubsub_delta_merge" ∅ = (Ok (out, m), store')
       /\ forall o, o ∈ rows out ->
            (o ∈ table_rows "delta/pubsub_delta_merge" ∅
             \/ exists r, r ∈ rows (load_jsonl batch_abc) /\ o = annotate r)
            /\ (forall r, r ∈ table_rows "delta/pubsub_delta_merge" ∅ ->
                  cell r "message_id" = cell o "message_id" ->
                  value_leb (cell r "created_at") (cell o "created_at") = true)
            /\ (forall r, r ∈ rows (load_jsonl batch_abc) ->
                  cell r "message_id" = cell o "message_id" ->
                  value_leb (cell r "created_at") (cell o "created_at") = true).
Proof.
  assert (Hc : has_columns ("created_at" :: composite_key_columns) (load_jsonl batch_abc))
    by (by destruct (load_jsonl_record_frame batch_abc)).
  assert (Hfit : table_fits "delta/pubsub_delta_merge" (load_jsonl batch_abc) ∅).
  { intros t Ht. rewrite lookup_empty in Ht. discriminate. }
  split; [exact Hc|]. split; [exact Hfit|].
  exact (merge_dedup_delta_last_write_wins stable_engine _ _ _ Hc Hfit).
Defined.

Lemma merge_dedup_delta_raises (E : Engine) (df : DataFrame) (path : string)
    (store store' : DeltaStore) (e : Exception) :
  Day04Delta.merge_dedup_delta E df path store = (Err e, store') -> store' = store.
Proof.
  unfold Day04Delta.merge_dedup_delta, pbind, pure_, read_table, write_table.
  destruct (map_elements _ _ df) as [hashes|e1]; [|by intros [= _ <-]].
  destruct (store !! path) as [t|].
  - destruct (Day04Delta.concat _ _) as [combined|e2]; cbn [rbind]; [|by intros [= _ <-]].
    destruct (df_sort E "created_at" combined) as [sorted|e3]; cbn [rbind]; [|by intros [= _ <-]].
    destruct (df_unique E ["message_id"] KeepLast sorted) as [deduped|e4]; [|by intros [= _ <-]].
    destruct (write_deltalake path deduped Overwrite store); [discriminate|by intros [= _ <-]].
  - destruct (df_sort E "created_at" _) as [sorted|e3]; cbn [rbind]; [|by intros [= _ <-]].
    destruct (df_unique E ["message_id"] KeepLast sorted) as [deduped|e4]; [|by intros [= _ <-]].
    destruct (write_deltalake path deduped Overwrite store); [discriminate|by intros [= _ <-]].
Qed.

(** X16.  When [merge_dedup_delta] raises, whatever the error, no table
    has been written: the store is as it was before the call. *)
Theorem merge_dedup_delta_fails_clean (E : Engine) (df : DataFrame) (path : string)
    (store store' : DeltaStore) (e : Exception) :
  Day04Delta.merge_dedup_delta E df path store = (Err e, store') -> store' = store.
Proof. apply merge_dedup_delta_raises. Qed.

Lemma merge_dedup_delta_fails_clean_witness :
  Day04Delta.merge_dedup_delta stable_engine no_created_at "delta/pubsub_delta_merge" ∅
  = (Err (ColumnNotFoundError "created_at"), ∅)
  /\ (∅ : DeltaStore) = ∅.
Proof.
  assert (Hrun : Day04Delta.merge_dedup_delta stable_engine no_created_at
                   "delta/pubsub_delta_merge" ∅
                 = (Err (ColumnNotFoundError "created_at"), ∅)) by reflexivity.
  split; [exact Hrun|].
  exact (merge_dedup_delta_fails_clean stable_engine no_created_at
           "delta/pubsub_delta_merge" ∅ ∅ _ Hrun).
Defined.

(** X17.  A table whose schema is not that of the batch with its hash
    column makes [merge_dedup_delta] raise at [pl.concat], and the table
    stays as it was. *)
Theorem merge_dedup_delta_schema_mismatch (E : Engine) (df t : DataFrame) (path : string)
    (store : DeltaStore) :
  has_columns composite_key_columns df ->
  store !! path = Some t ->
  columns t <> columns (hashed df) ->
  Day04Delta.merge_dedup_delta E df path store = (Err (SchemaMismatchError "concat"), store).
Proof.
  intros Hkey Ht Hne.
  unfold Day04Delta.merge_dedup_delta, pbind, pure_, read_table, write_table.
  rewrite (composite_hash_column _ Hkey). fold (hashed df). rewrite Ht.
  unfold Day04Delta.concat. by rewrite decide_False by exact Hne.
Qed.

(** A table left by another job, with one column. *)
Definition foreign_table : DataFrame :=
  {| columns := ["id"]; rows := [ list_to_map [("id", VInt 1)] ] |}.

Lemma merge_dedup_delta_schema_mismatch_witness :
  has_columns composite_key_columns (load_jsonl batch_abc)
  /\ (<["delta/pubsub_delta_merge" := foreign_table]> (∅ : DeltaStore))
       !! "delta/pubsub_delta_merge" = Some foreign_table
  /\ columns foreign_table <> columns (hashed (load_jsonl batch_abc))
  /\ Day04Delta.merge_dedup_delta stable_engine (load_jsonl batch_abc)
       "delta/pubsub_delta_merge" (<["delta/pubsub_delta_merge" := foreign_table]> ∅)
     = (Err (SchemaMismatchError "concat"),
        <["delta/pubsub_delta_merge" := foreign_table]> ∅).
Proof.
  assert (Hc : has_columns composite_key_columns (load_jsonl batch_abc)).
  { destruct (load_jsonl_record_frame batch_abc) as [Hc _]. by inversion Hc. }
  assert (Ht : (<["delta/pubsub_delta_merge" := foreign_table]> (∅ : DeltaStore))
                 !! "delta/pubsub_delta_merge" = Some foreign_table)
    by apply lookup_insert_eq.
  assert (Hne : columns foreign_table <> columns (hashed (load_jsonl batch_abc))).
  { intros Heq. apply (f_equal (@length string)) in Heq. vm_compute in Heq. discriminate. }
  split; [exact Hc|]. split; [exact Ht|]. split; [exact Hne|].
  exact (merge_dedup_delta_schema_mismatch stable_engine _ _ _ _ Hc Ht Hne).
Defined.

(** X18.  The counts of [merge_dedup_delta]: [final_records_in_table] is
    the number of distinct [message_id]s of the table and the batch
    together, and [merged_duplicates] is the number of rows of the batch
    less that number, so it is negative when the table held more
    [message_id]s than the batch has rows to spare. *)
Theorem merge_dedup_delta_counts (E : Engine) (df : DataFrame) (path : string)
    (store : DeltaStore) :
  has_columns ("created_at" :: composite_key_columns) df ->
  table_fits path df store ->
  exists out m store' (final : nat),
    Day04Delta.merge_dedup_delta E df path store = (Ok (out, m), store')
    /\ final = length (remove_dups (message_ids (table_rows path store)
                                    ++ message_ids (rows df)))
    /\ height out = final
    /\ dict_get m "initial_records" = Ok (Day04.VNat (height df))
    /\ dict_get m "final_records_in_table" = Ok (Day04.VNat final)
    /\ dict_get m "merged_duplicates" = Ok (VInt (Z.of_nat (height df) - Z.of_nat final)).
Proof.
  intros Hc Hfit.
  destruct (merge_dedup_delta_run E df path store Hc Hfit)
    as (out & m & Hrun & Hrows & _ & ->).
  assert (Hcount : height out
                   = length (remove_dups (message_ids (table_rows path store)
                                          ++ message_ids (rows df)))).
  { unfold height. rewrite Hrows. unfold merged_rows. rewrite unique_rows_count.
    rewrite (remove_dups_perm_length _
               (List.map (row_key ["message_id"])
                         (table_rows path store ++ List.map annotate (rows df)))).
    2:{ rewrite !map_fmap. apply fmap_Permutation, sort_rows_perm. }
    rewrite <- (message_ids_annotate (rows df)). unfold message_ids.
    rewrite <- List.map_app.
    rewrite <- (remove_dups_map_inj (fun v => [v])
                  (List.map (fun r => cell r "message_id")
                            (table_rows path store ++ List.map annotate (rows df)))).
    2:{ intros v v' Heq. congruence. }
    by rewrite List.map_map. }
  eexists out, _, _, _. split; [exact Hrun|]. split; [reflexivity|].
  split; [exact Hcount|]. rewrite <- Hcount. by repeat split.
Qed.

(** A table that holds two messages, and a batch of one other message. *)
Definition two_in_table : list Received :=
  [ recv (msg "aaa" 1 0 1000000 100) 1; recv (msg "bbb" 2 0 2000000 200) 2 ].

Definition one_new : list Received := [ recv (msg "ccc" 3 0 3000000 300) 1 ].

Lemma merge_dedup_delta_counts_witness :
  has_columns ("created_at" :: composite_key_columns) (load_jsonl one_new)
  /\ table_fits "t" (load_jsonl one_new) (<["t" := hashed (load_jsonl two_in_table)]> ∅)
  /\ exists out m store' (final : nat),
       Day04Delta.merge_dedup_delta stable_engine (load_jsonl one_new) "t"
         (<["t" := hashed (load_jsonl two_in_table)]> ∅) = (Ok (out, m), store')
       /\ final = length (remove_dups
                    (message_ids (table_rows "t" (<["t" := hashed (load_jsonl two_in_table)]> ∅))
                     ++ message_ids (rows (load_jsonl one_new))))
       /\ height out = final
       /\ dict_get m "initial_records" = Ok (Day04.VNat (height (load_jsonl one_new)))
       /\ dict_get m "final_records_in_table" = Ok (Day04.VNat final)
       /\ dict_get m "merged_duplicates"
          = Ok (VInt (Z.of_nat (height (load_jsonl one_new)) - Z.of_nat final)).
Proof.
  assert (Hc : has_columns ("created_at" :: composite_key_columns) (load_jsonl one_new))
    by (by destruct (load_jsonl_record_frame one_new)).
  assert (Hfit : table_fits "t" (load_jsonl one_new)
                   (<["t" := hashed (load_jsonl two_in_table)]> ∅)).
  { intros t Ht. rewrite lookup_insert_eq in Ht. by injection Ht as <-. }
  split; [exact Hc|]. split; [exact Hfit|].
  exact (merge_dedup_delta_counts stable_engine _ _ _ Hc Hfit).
Defined.

(** With two messages in the table and one new message in the batch,
    [merged_duplicates] is -2. *)
Example merged_duplicates_negative :
  match Day04Delta.merge_dedup_delta stable_engine (load_jsonl one_new) "t"
          (<["t" := hashed (load_jsonl two_in_table)]> ∅) with
  | (Ok (out, m), _) =>
      height out = 3%nat /\ dict_get m "merged_duplicates" = Ok (VInt (-2))
  | _ => False
  end.
Proof. vm_compute. split; reflexivity. Qed.

(* ===================================================================== *)
(** * The day05 strategies and their tables *)
(* ===================================================================== *)

(** [Strategy.table_name] of the three strategies. *)
Definition table_name (s : StrategyName) : string :=
  match s with
  | Eager => "pubsub_eager_dedup"
  | Bronze => "pubsub_bronze_append"
  | Merge => "pubsub_polars_merge"
  end.

(** The [mode] a strategy writes its table with. *)
Definition write_mode (s : StrategyName) : WriteMode :=
  match s with
  | Bronze => Append
  | Eager | Merge => Overwrite
  end.

Definition strategy_path (base : string) (s : StrategyName) : string :=
  Day05.get_table_path base (table_name s).

(** A strategy's computation, its write apart: what it returns on a store
    with no table. *)
Definition computed (s : StrategyName) (E : Engine) (base : string) (df : DataFrame)
    : result (DataFrame * Day05.metrics * string) :=
  fst (run_day05 s E base df ∅).

Lemma write_table_empty path df mode :
  write_table path df mode ∅ = (Ok tt, <[path := df]> ∅).
Proof. unfold write_table, write_deltalake. by rewrite lookup_empty. Qed.

(** Each strategy computes its frame and metrics from the batch alone and
    then writes its own table, once. *)
Lemma run_day05_shape (s : StrategyName) (E : Engine) (base : string) (df : DataFrame)
    (store : DeltaStore) :
  run_day05 s E base df store
  = match computed s E base df with
    | Err e => (Err e, store)
    | Ok (out, m, path) =>
        match write_deltalake (strategy_path base s) out (write_mode s) store with
        | Ok store' => (Ok (out, m, path), store')
        | Err e => (Err e, store)
        end
    end.
Proof.
  unfold computed, strategy_path. destruct s; cbn [run_day05 table_name write_mode].
  - unfold Day05.eager_process, pbind, pure_.
    destruct (Day05.add_composite_hash_column df) as [df1|e]; [|reflexivity].
    destruct (df_unique E ["composite_hash"] KeepFirst df1) as [deduped|e]; [|reflexivity].
    rewrite write_table_empty. cbn [fst]. unfold write_table.
    by destruct (write_deltalake _ deduped Overwrite store).
  - unfold Day05.bronze_process, pbind, pure_.
    destruct (Day05.add_composite_hash_column df) as [df1|e]; [|reflexivity].
    destruct (check_columns _ df1) as [[]|e]; [|reflexivity].
    destruct (map_elements _ _ df1) as [payload|e]; [|reflexivity].
    destruct (Day04.from_epoch_date "created_at" df1) as [dates|e]; [|reflexivity].
    rewrite write_table_empty. cbn [fst]. unfold write_table.
    by destruct (write_deltalake _ _ Append store).
  - unfold Day05.merge_process, pbind, pure_.
    destruct (Day05.add_composite_hash_column df) as [df1|e]; [|reflexivity].
    destruct (df_sort E _ df1) as [sorted|e]; [|reflexivity].
    destruct (df_unique E _ _ sorted) as [deduped|e]; [|reflexivity].
    rewrite write_table_empty. cbn [fst]. unfold write_table.
    by destruct (write_deltalake _ deduped Overwrite store).
Qed.

Lemma computed_path (s : StrategyName) (E : Engine) (base : string) (df out : DataFrame)
    (m : Day05.metrics) (path : string) :
  computed s E base df = Ok (out, m, path) -> path = strategy_path base s.
Proof.
  unfold computed, strategy_path. destruct s; cbn [run_day05 table_name].
  - unfold Day05.eager_process, pbind, pure_.
    destruct (Day05.add_composite_hash_column df) as [df1|e]; [|discriminate].
    destruct (df_unique E ["composite_hash"] KeepFirst df1) as [deduped|e]; [|discriminate].
    rewrite write_table_empty. cbn [fst]. by intros [= _ _ <-].
  - unfold Day05.bronze_process, pbind, pure_.
    destruct (Day05.add_composite_hash_column df) as [df1|e]; [|discriminate].
    destruct (check_columns _ df1) as [[]|e]; [|discriminate].
    destruct (map_elements _ _ df1) as [payload|e]; [|discriminate].
    destruct (Day04.from_epoch_date "created_at" df1) as [dates|e]; [|discriminate].
    rewrite write_table_empty. cbn [fst]. by intros [= _ _ <-].
  - unfold Day05.merge_process, pbind, pure_.
    destruct (Day05.add_composite_hash_column df) as [df1|e]; [|discriminate].
    destruct (df_sort E _ df1) as [sorted|e]; [|discriminate].
    destruct (df_unique E _ _ sorted) as [deduped|e]; [|discriminate].
    rewrite write_table_empty. cbn [fst]. by intros [= _ _ <-].
Qed.

(** What a write leaves at its path. *)
Definition written (df : DataFrame) (mode : WriteMode) (old : option DataFrame) : DataFrame :=
  match old, mode with
  | Some t, Append => {| columns := columns t; rows := rows t ++ rows df |}
  | _, _ => df
  end.

Lemma write_deltalake_ok path df mode (store store' : DeltaStore) :
  write_deltalake path df mode store = Ok store' ->
  store' = <[path := written df mode (store !! path)]> store
  /\ forall t, store !! path = Some t -> columns t = columns df.
Proof.
  unfold write_deltalake, written. destruct (store !! path) as [t|].
  - destruct (decide (columns t = columns df)) as [Heq|]; [|discriminate].
    destruct mode; intros [= <-]; (split; [reflexivity|]); by intros ? [= <-].
  - intros [= <-]. split; [by destruct mode|]. discriminate.
Qed.

Lemma write_deltalake_err path df mode (store : DeltaStore) e :
  write_deltalake path df mode store = Err e ->
  e = SchemaMismatchError path
  /\ exists t, store !! path = Some t /\ columns t <> columns df.
Proof.
  unfold write_deltalake. destruct (store !! path) as [t|]; [|discriminate].
  destruct (decide (columns t = columns df)) as [|Hne]; [by destruct mode|].
  intros [= <-]. split; [reflexivity|]. by exists t.
Qed.

(** The outcome of a write depends on the table at its path alone. *)
Lemma write_deltalake_local path df mode (s1 s2 : DeltaStore) :
  s1 !! path = s2 !! path ->
  match write_deltalake path df mode s1, write_deltalake path df mode s2 with
  | Ok s1', Ok s2' => s1' !! path = s2' !! path
  | Err e1, Err e2 => e1 = e2
  | _, _ => False
  end.
Proof.
  intros Heq. unfold write_deltalake. rewrite Heq. destruct (s2 !! path) as [t|].
  - destruct (decide (columns t = columns df)); [|reflexivity].
    destruct mode; by rewrite !lookup_insert_eq.
  - by rewrite !lookup_insert_eq.
Qed.

Lemma app_inv_prefix (p x y : string) : (p ++ x)%string = (p ++ y)%string -> x = y.
Proof. induction p as [|c p IH]; simpl; [done|]. intros [= Heq]. by apply IH. Qed.

Lemma strategy_path_inj base s1 s2 : strategy_path base s1 = strategy_path base s2 -> s1 = s2.
Proof.
  unfold strategy_path, Day05.get_table_path. intros Heq.
  apply app_inv_prefix, app_inv_prefix in Heq. by destruct s1, s2.
Qed.

(** X19.  A day05 strategy that returns has written its own table and no
    other: the path it returns is [delta_base_path / table_name]; Eager and
    Merge leave there exactly the frame they return, Bronze the rows the
    table had followed by the rows it returns; a table that was there had
    the schema of the frame; every other table is as before. *)
Theorem strategy_writes_its_table (s : StrategyName) (E : Engine) (base : string)
    (df out : DataFrame) (m : Day05.metrics) (path : string) (store store' : DeltaStore) :
  run_day05 s E base df store = (Ok (out, m, path), store') ->
  path = Day05.get_table_path base (table_name s)
  /\ store' !! path = Some (written out (write_mode s) (store !! path))
  /\ (forall t, store !! path = Some t -> columns t = columns out)
  /\ forall p, p <> path -> store' !! p = store !! p.
Proof.
  rewrite run_day05_shape.
  destruct (computed s E base df) as [[[out0 m0] path0]|e] eqn:Hc; [|discriminate].
  apply computed_path in Hc as ->.
  destruct (write_deltalake _ out0 (write_mode s) store) as [st|e] eqn:Hw; [|discriminate].
  intros [= <- <- <- <-]. apply write_deltalake_ok in Hw as [-> Hcols].
  split; [reflexivity|]. split; [by rewrite lookup_insert_eq|]. split; [exact Hcols|].
  intros p Hp. by rewrite lookup_insert_ne.
Qed.

Lemma strategy_writes_its_table_witness :
  run_day05 Eager stable_engine "delta" (load_jsonl batch_abc) ∅
  = (Ok (hashed5 (load_jsonl batch_abc),
         [ ("strategy", VStr "eager_dedup");
           ("initial_records", VInt 3); ("final_records", VInt 3);
           ("dropped_duplicates", VInt 0) ],
         "delta/pubsub_eager_dedup"),
     <["delta/pubsub_eager_dedup" := hashed5 (load_jsonl batch_abc)]> ∅)
  /\ "delta/pubsub_eager_dedup" = Day05.get_table_path "delta" (table_name Eager)
  /\ (<["delta/pubsub_eager_dedup" := hashed5 (load_jsonl batch_abc)]> (∅ : DeltaStore))
       !! "delta/pubsub_eager_dedup"
     = Some (written (hashed5 (load_jsonl batch_abc)) (write_mode Eager)
                     ((∅ : DeltaStore) !! "delta/pubsub_eager_dedup"))
  /\ (forall t, (∅ : DeltaStore) !! "delta/pubsub_eager_dedup" = Some t ->
        columns t = columns (hashed5 (load_jsonl batch_abc)))
  /\ forall p, p <> "delta/pubsub_eager_dedup" ->
       (<["delta/pubsub_eager_dedup" := hashed5 (load_jsonl batch_abc)]> (∅ : DeltaStore)) !! p
       = (∅ : DeltaStore) !! p.
Proof.
  assert (Hrun : run_day05 Eager stable_engine "delta" (load_jsonl batch_abc) ∅
    = (Ok (hashed5 (load_jsonl batch_abc),
           [ ("strategy", VStr "eager_dedup");
             ("initial_records", VInt 3); ("final_records", VInt 3);
             ("dropped_duplicates", VInt 0) ],
           "delta/pubsub_eager_dedup"),
       <["delta/pubsub_eager_dedup" := hashed5 (load_jsonl batch_abc)]> ∅)).
  { rewrite run_day05_shape. unfold computed. cbn [run_day05].
    unfold Day05.eager_process, pbind, pure_.
    rewrite add_composite_hash_column_eq by (by destruct (load_jsonl_record_frame batch_abc) as [Hc _]; inversion Hc).
    vm_compute. reflexivity. }
  split; [exact Hrun|].
  exact (strategy_writes_its_table Eager stable_engine "delta" _ _ _ _ _ _ Hrun).
Defined.

(** X20.  A day05 strategy that raises has written nothing: the store is
    as it was.  The error is the one its computation raises on the batch,
    or, when the computation has succeeded, the schema error of a table
    that is already at its path with other columns. *)
Theorem strategy_fails_without_writing (s : StrategyName) (E : Engine) (base : string)
    (df : DataFrame) (store store' : DeltaStore) (e : Exception) :
  run_day05 s E base df store = (Err e, store') ->
  store' = store
  /\ (computed s E base df = Err e
      \/ exists out m path t,
           computed s E base df = Ok (out, m, path)
           /\ e = SchemaMismatchError (Day05.get_table_path base (table_name s))
           /\ store !! Day05.get_table_path base (table_name s) = Some t
           /\ columns t <> columns out).
Proof.
  rewrite run_day05_shape.
  destruct (computed s E base df) as [[[out m] path]|e0] eqn:Hc.
  - destruct (write_deltalake _ out (write_mode s) store) as [st|e1] eqn:Hw; [discriminate|].
    intros [= <- <-]. split; [reflexivity|]. right.
    apply write_deltalake_err in Hw as (-> & t & Ht & Hne). by exists out, m, path, t.
  - intros [= <- <-]. split; [reflexivity|by left].
Qed.

Lemma strategy_fails_without_writing_witness :
  run_day05 Merge stable_engine "delta" no_created_at ∅
  = (Err (ColumnNotFoundError "created_at"), ∅)
  /\ (∅ : DeltaStore) = ∅
  /\ (computed Merge stable_engine "delta" no_created_at
      = Err (ColumnNotFoundError "created_at")
      \/ exists out m path t,
           computed Merge stable_engine "delta" no_created_at = Ok (out, m, path)
           /\ ColumnNotFoundError "created_at"
              = SchemaMismatchError (Day05.get_table_path "delta" (table_name Merge))
           /\ (∅ : DeltaStore) !! Day05.get_table_path "delta" (table_name Merge) = Some t
           /\ columns t <> columns out).
Proof.
  assert (Hrun : run_day05 Merge stable_engine "delta" no_created_at ∅
                 = (Err (ColumnNotFoundError "created_at"), ∅)) by reflexivity.
  split; [exact Hrun|].
  exact (strategy_fails_without_writing Merge stable_engine "delta" no_created_at ∅ ∅ _ Hrun).
Defined.

(** What a write makes of the table at its path. *)
Definition write_cell (path : string) (df : DataFrame) (mode : WriteMode)
    (old : option DataFrame) : result DataFrame :=
  match old with
  | None => Ok df
  | Some t =>
      if decide (columns t = columns df) then Ok (written df mode old)
      else Err (SchemaMismatchError path)
  end.

Lemma write_deltalake_cell path df mode (store : DeltaStore) :
  write_deltalake path df mode store
  = match write_cell path df mode (store !! path) with
    | Ok t => Ok (<[path := t]> store)
    | Err e => Err e
    end.
Proof.
  unfold write_deltalake, write_cell, written. destruct (store !! path) as [t|]; [|reflexivity].
  destruct (decide (columns t = columns df)); [|reflexivity]. by destruct mode.
Qed.

(** A strategy seen from its table: the result, and the new table if it
    writes. *)
Definition local_run (s : StrategyName) (E : Engine) (base : string) (df : DataFrame)
    (old : option DataFrame)
    : result (DataFrame * Day05.metrics * string) * option DataFrame :=
  match computed s E base df with
  | Err e => (Err e, None)
  | Ok (out, m, path) =>
      match write_cell (strategy_path base s) out (write_mode s) old with
      | Ok t => (Ok (out, m, path), Some t)
      | Err e => (Err e, None)
      end
  end.

Definition put_table (path : string) (t : option DataFrame) (store : DeltaStore) : DeltaStore :=
  match t with
  | Some t => <[path := t]> store
  | None => store
  end.

Lemma run_day05_local (s : StrategyName) (E : Engine) (base : string) (df : DataFrame)
    (store : DeltaStore) :
  run_day05 s E base df store
  = (fst (local_run s E base df (store !! strategy_path base s)),
     put_table (strategy_path base s)
               (snd (local_run s E base df (store !! strategy_path base s))) store).
Proof.
  rewrite run_day05_shape. unfold local_run.
  destruct (computed s E base df) as [[[out m] path]|e]; [|reflexivity].
  rewrite write_deltalake_cell.
  by destruct (write_cell _ out (write_mode s) (store !! strategy_path base s)).
Qed.

Lemma put_table_other path t (store : DeltaStore) p :
  p <> path -> put_table path t store !! p = store !! p.
Proof. intros Hp. destruct t; [by apply lookup_insert_ne|reflexivity]. Qed.

Lemma put_table_commute p1 p2 t1 t2 (store : DeltaStore) :
  p1 <> p2 ->
  put_table p1 t1 (put_table p2 t2 store) = put_table p2 t2 (put_table p1 t1 store).
Proof. intros Hp. destruct t1, t2; cbn; [by apply insert_insert_ne|done..]. Qed.

(** X21.  Two different day05 strategies do not interfere: run one after
    the other on the same store, in either order, each returns what it
    returns when run first, and the store ends the same.  (The flow submits
    the enabled strategies at once.) *)
Theorem strategies_commute (s1 s2 : StrategyName) (E : Engine) (base : string)
    (df1 df2 : DataFrame) (store : DeltaStore) :
  s1 <> s2 ->
  let after1 := snd (run_day05 s1 E base df1 store) in
  let after2 := snd (run_day05 s2 E base df2 store) in
  fst (run_day05 s2 E base df2 after1) = fst (run_day05 s2 E base df2 store)
  /\ fst (run_day05 s1 E base df1 after2) = fst (run_day05 s1 E base df1 store)
  /\ snd (run_day05 s2 E base df2 after1) = snd (run_day05 s1 E base df1 after2).
Proof.
  intros Hne.
  assert (Hp : strategy_path base s1 <> strategy_path base s2).
  { intros Heq. by apply strategy_path_inj in Heq. }
  cbv zeta. rewrite !run_day05_local. cbn [fst snd].
  rewrite !put_table_other by congruence.
  split; [reflexivity|]. split; [reflexivity|].
  symmetry. by apply put_table_commute.
Qed.

Lemma strategies_commute_witness :
  Eager <> Bronze
  /\ let after1 := snd (run_day05 Eager stable_engine "delta" (load_jsonl batch_abc) ∅) in
     let after2 := snd (run_day05 Bronze stable_engine "delta" (load_jsonl batch_abc) ∅) in
     fst (run_day05 Bronze stable_engine "delta" (load_jsonl batch_abc) after1)
     = fst (run_day05 Bronze stable_engine "delta" (load_jsonl batch_abc) ∅)
     /\ fst (run_day05 Eager stable_engine "delta" (load_jsonl batch_abc) after2)
        = fst (run_day05 Eager stable_engine "delta" (load_jsonl batch_abc) ∅)
     /\ snd (run_day05 Bronze stable_engine "delta" (load_jsonl batch_abc) after1)
        = snd (run_day05 Eager stable_engine "delta" (load_jsonl batch_abc) after2).
Proof.
  assert (Hne : Eager <> Bronze) by discriminate.
  split; [exact Hne|].
  exact (strategies_commute Eager Bronze stable_engine "delta" _ _ ∅ Hne).
Defined.

(* ===================================================================== *)
(** * What holds at every step of a run *)
(* ===================================================================== *)

Module Run.
Import Sim.
Local Open Scope Z_scope.

(** A property kept by every step holds when the loop stops. *)
Lemma run_loop_invariant (wall : Z -> Z) (Inv : World -> Prop) :
  (forall w w', Inv w -> step wall w = inl w' -> Inv w') ->
  forall fuel w o,
    Inv w -> run_loop wall fuel w = Some o ->
    exists last, Inv last /\ step wall last = inr o.
Proof.
  intros Hstep. induction fuel as [|fuel IH]; intros w o Hw Hrun; [discriminate|].
  cbn [run_loop] in Hrun. destruct (step wall w) as [w'|o'] eqn:E.
  - apply (IH w'); [by apply (Hstep w)|exact Hrun].
  - injection Hrun as ->. by exists w.
Qed.

(** The continuation of the subscriber's [queue.get()]. *)
Definition after_get (records : list Received) (arrival_index : Z) (x : option Message)
    : Coro SubscriberTurn :=
  match x with
  | None => TaskDone (Ret (inr records))
  | Some item =>
      let arrival_index := arrival_index + 1 in
      TimeTime (fun arrival_ts =>
        let record := mkReceived item arrival_ts arrival_index in
        let records := records ++ [record] in
        FileWrite record (TaskDone (Ret (inl (records, arrival_index)))))
  end.

Lemma subscriber_turn_get records i :
  subscriber_turn (records, i) = Get (after_get records i).
Proof. reflexivity. Qed.

(** The records are numbered 1, 2, ... as they arrive. *)
Definition numbered (l : list Received) : Prop :=
  List.map arrival_index l = List.map Z.of_nat (List.seq 1 (length l)).

Lemma numbered_snoc l r :
  numbered l -> arrival_index r = Z.of_nat (length l) + 1 -> numbered (l ++ [r]).
Proof.
  unfold numbered. intros Hl Hr.
  rewrite List.map_app, length_app, Hl. cbn [length List.map].
  rewrite Nat.add_1_r, seq_S, List.map_app. cbn [List.map]. f_equal. f_equal. lia.
Qed.

(** Where the subscriber stands, [log] being the lines written so far and
    [S] the messages handed over so far. *)
Inductive subscriber_at (S : list Message) (log : list Received)
    : Coro SubscriberTurn -> Prop :=
  | at_get :
      subscriber_at S log (subscriber_turn (log, Z.of_nat (length log)))
  | at_clock m :
      m ∈ S -> subscriber_at S log (after_get log (Z.of_nat (length log)) (Some m))
  | at_write r :
      item r ∈ S -> arrival_index r = Z.of_nat (length log) + 1 ->
      subscriber_at S log
        (FileWrite r (TaskDone (Ret (inl (log ++ [r], Z.of_nat (length log) + 1)))))
  | at_done :
      subscriber_at S log (TaskDone (Ret (inl (log, Z.of_nat (length log)))))
  | at_again :
      subscriber_at S log (Ret (inl (log, Z.of_nat (length log))))
  | at_sentinel :
      subscriber_at S log (TaskDone (Ret (inr log)))
  | at_return :
      subscriber_at S log (Ret (inr log)).

(** A [delayed_send] task, its message one of [S]. *)
Inductive sender (S : list Message) : Coro unit -> Prop :=
  | sender_sleep m d : m ∈ S -> sender S (Sleep d (Put (Some m) (Ret tt)))
  | sender_put m : m ∈ S -> sender S (Put (Some m) (Ret tt))
  | sender_ret : sender S (Ret tt).

(** [main] before its [await subscriber_task] is through: what it hands
    over joins [S], and the history it returns holds all of [S]. *)
Inductive publishing (S : list Message) : Coro MainResult -> Prop :=
  | pb_Raise e : publishing S (Raise e)
  | pb_Sleep d k : publishing S k -> publishing S (Sleep d k)
  | pb_TimeTime k : (forall t, publishing S (k t)) -> publishing S (TimeTime k)
  | pb_Put m k : publishing (m :: S) k -> publishing S (Put (Some m) k)
  | pb_Sentinel k : publishing S k -> publishing S (Put None k)
  | pb_Join k : publishing S k -> publishing S (Join k)
  | pb_Slow m d k : publishing (m :: S) k -> publishing S (CreateDelayedSend m d k)
  | pb_Create k : publishing S k -> publishing S (CreateSubscriber k)
  | pb_Await k :
      (forall r, exists p, k r = Ret (p, r) /\ forall m, m ∈ S -> m ∈ p) ->
      publishing S (AwaitSubscriber k).

Definition main_at (S : list Message) (w : World) : Prop :=
  publishing S (main_coro w)
  \/ exists p r,
       main_coro w = Ret (p, r) /\ running w = Some TMain
       /\ sub_result w = Some r /\ (forall m, m ∈ S -> m ∈ p).

Record holds (S : list Message) (w : World) : Prop := mkHolds {
  h_main : main_at S w;
  h_queue : forall m, Some m ∈ items (queue w) -> m ∈ S;
  h_delayed : Forall (fun t => sender S (snd t)) (delayed w);
  h_file : forall x, x ∈ file w -> item x ∈ S;
  h_numbered : numbered (file w);
  h_sub : subscriber_at S (file w) (sub_coro w);
  h_result : forall r, sub_result w = Some r -> r = file w /\ sub_coro w = Ret (inr (file w))
}.

Definition Inv (w : World) : Prop := exists S, holds S w.

(** ** The invariant at the start *)

Section Publishing.
Context {G : Type} `{RandomGen G}.

Lemma publishing_dup dup_prob produced (g : G) (rest : G -> Coro (list Message))
    (f : list Message -> Coro MainResult) S :
  (forall m, m ∈ S -> m ∈ produced) ->
  (forall g' S', (forall m, m ∈ S' -> m ∈ produced) -> publishing S' (bind (rest g') f)) ->
  publishing S (bind (dup_block dup_prob produced g rest) f).
Proof.
  intros HS Hrest. unfold dup_block. destruct produced as [|m0 l0]; [by apply Hrest|].
  destruct (random g) as [r g1]. destruct (r <? dup_prob); [|by apply Hrest].
  destruct (choice (m0 :: l0) g1) as [[d g2]|] eqn:Hc; cbn [bind]; [|apply pb_Raise].
  apply pb_Put, Hrest. intros m Hm. apply elem_of_cons in Hm as [->|Hm]; [|by apply HS].
  eapply choice_elem, Hc.
Qed.

Lemma publishing_loop partitions base_delay jitter dup_prob slow_prob todo :
  forall seq (g : G) produced S,
    (forall m, m ∈ S -> m ∈ produced) ->
    publishing S
      (bind (publisher_loop partitions base_delay jitter dup_prob slow_prob todo seq g produced)
            (fun produced => Join (AwaitSubscriber (fun received => Ret (produced, received))))).
Proof.
  induction todo as [|todo IH]; intros seq g produced S HS.
  - cbn [publisher_loop bind]. apply pb_Sentinel, pb_Join, pb_Await.
    intros r. by exists produced.
  - rewrite publisher_loop_S.
    destruct (uniform _ _ g) as [u g1]. cbn [bind]. apply pb_Sleep.
    destruct (randint 0 (partitions - 1) g1) as [[pid g2]|]; [|apply pb_Raise].
    destruct (random_id 8 g2) as [mid g3]. cbn [bind]. apply pb_TimeTime. intros now.
    destruct (randint 100 10000 g3) as [[val g4]|]; [|apply pb_Raise].
    destruct (random_zipcode g4) as [zip g5].
    destruct (random g5) as [r g6].
    set (msg := mkMessage mid seq pid now val zip).
    assert (Hmsg : msg ∈ produced ++ [msg]) by (apply elem_of_app; right; by left).
    assert (Hold : forall m, m ∈ msg :: S -> m ∈ produced ++ [msg]).
    { intros m Hm. apply elem_of_cons in Hm as [->|Hm]; [exact Hmsg|].
      apply elem_of_app. left. by apply HS. }
    assert (Hdup : publishing (msg :: S)
              (bind (dup_block dup_prob (produced ++ [msg]) g6
                       (fun g => publisher_loop partitions base_delay jitter dup_prob slow_prob
                                                todo (seq + 1) g (produced ++ [msg])))
                    (fun produced =>
                       Join (AwaitSubscriber (fun received => Ret (produced, received)))))).
    { apply publishing_dup; [exact Hold|]. intros g' S' HS'. by apply IH. }
    unfold send_block. destruct (r <? slow_prob); cbn [bind]; [by apply pb_Slow|by apply pb_Put].
Qed.

Lemma publishing_main (args : Args) (g : G) : publishing [] (main args g).
Proof.
  unfold main, publisher. apply pb_Create, publishing_loop.
  intros m Hm. by apply not_elem_of_nil in Hm.
Qed.

Lemma Inv_init (args : Args) (g : G) : Inv (init_world args (main args g)).
Proof.
  exists []. split; cbn.
  - left. apply publishing_main.
  - intros m Hm. by apply not_elem_of_nil in Hm.
  - constructor.
  - intros x Hx. by apply not_elem_of_nil in Hx.
  - reflexivity.
  - apply at_return.
  - discriminate.
Qed.
End Publishing.

(** ** The invariant is kept *)

Lemma subscriber_at_more S S' log c :
  (forall m, m ∈ S -> m ∈ S') -> subscriber_at S log c -> subscriber_at S' log c.
Proof. intros HS Hc. destruct Hc; constructor; auto. Qed.

Lemma sender_more S S' c :
  (forall m, m ∈ S -> m ∈ S') -> sender S c -> sender S' c.
Proof. intros HS Hc. destruct Hc; constructor; auto. Qed.

Lemma senders_more S S' (d : list (nat * Coro unit)) :
  (forall m, m ∈ S -> m ∈ S') ->
  Forall (fun t => sender S (snd t)) d -> Forall (fun t => sender S' (snd t)) d.
Proof.
  intros HS Hd. eapply Forall_impl; [exact Hd|]. intros t. by apply sender_more.
Qed.

Lemma lookup_task_sender S n d c :
  Forall (fun t => sender S (snd t)) d -> lookup_task n d = Some c -> sender S c.
Proof.
  induction 1 as [|[i c0] d Hc _ IH]; cbn [lookup_task]; [discriminate|].
  destruct (Nat.eqb i n); [by intros [= <-]|exact IH].
Qed.

Lemma update_task_sender S n c d :
  sender S c -> Forall (fun t => sender S (snd t)) d ->
  Forall (fun t => sender S (snd t)) (update_task n c d).
Proof.
  intros Hc. induction 1 as [|[i c0] d Hc0 Hd IH]; cbn [update_task]; [constructor|].
  destruct (Nat.eqb i n); by constructor.
Qed.

Lemma remove_task_sender S n d :
  Forall (fun t => sender S (snd t)) d ->
  Forall (fun t => sender S (snd t)) (remove_task n d).
Proof.
  induction 1 as [|[i c0] d Hc0 Hd IH]; cbn [remove_task]; [constructor|].
  destruct (Nat.eqb i n); [assumption|by constructor].
Qed.

Lemma elem_of_tl {A} (x : A) (l : list A) : x ∈ List.tl l -> x ∈ l.
Proof. destruct l; [done|]. by right. Qed.

Ltac keep_holds H :=
  destruct H as [Hmain Hqueue Hdelayed Hfile Hnum Hsub Hres].

Ltac settle := split; cbn; auto; try (by left; cbn; auto).

Lemma step_main wall S w w' :
  holds S w -> running w = Some TMain -> step wall w = inl w' -> Inv w'.
Proof.
  intros Hw Hrun Hstep. unfold step in Hstep. rewrite Hrun in Hstep.
  keep_holds Hw. destruct Hmain as [Hp|(p & r & Hm & _ & _)]; cycle 1.
  { rewrite Hm in Hstep. discriminate. }
  inversion Hp as [e He|d k Hk He|k Hk He|m k Hk He|k Hk He|k Hk He|m d k Hk He|k Hk He|k Hk He];
    rewrite <- He in Hstep; unfold exec in Hstep.
  - discriminate.
  - exists S. destruct (d <=? 0); injection Hstep as <-; settle.
  - exists S. injection Hstep as <-. settle.
  - destruct (full (queue w)).
    + exists S. injection Hstep as <-. settle; left; cbn; by rewrite He.
    + exists (m :: S). injection Hstep as <-.
      assert (HS : forall x, x ∈ S -> x ∈ m :: S) by (intros; by right).
      settle.
      * intros x Hx. apply elem_of_app in Hx as [Hx|Hx]; [right; by apply Hqueue|].
        apply list_elem_of_singleton in Hx. injection Hx as ->. by left.
      * by apply (senders_more S).
      * by apply (subscriber_at_more S).
  - destruct (full (queue w)).
    + exists S. injection Hstep as <-. settle; left; cbn; by rewrite He.
    + exists S. injection Hstep as <-. settle.
      intros x Hx. apply elem_of_app in Hx as [Hx|Hx]; [by apply Hqueue|].
      apply list_elem_of_singleton in Hx. discriminate.
  - exists S. destruct (0 <? unfinished_tasks (queue w)); injection Hstep as <-; settle.
  - exists (m :: S). injection Hstep as <-.
    assert (HS : forall x, x ∈ S -> x ∈ m :: S) by (intros; by right).
    settle.
    + apply Forall_app. split; [by apply (senders_more S)|].
      constructor; [|constructor]. cbn. apply sender_sleep. by left.
    + by apply (subscriber_at_more S).
  - exists S. injection Hstep as <-. settle.
    + intros x Hx. by apply not_elem_of_nil in Hx.
    + reflexivity.
    + apply at_get.
    + discriminate.
  - destruct (sub_result w) as [r|] eqn:Hr.
    + exists S. injection Hstep as <-. destruct (Hk r) as (p & Hkr & Hp').
      settle.
      * right. exists p, r. by repeat split.
      * intros r0 Hr0. apply Hres. congruence.
    + exists S. injection Hstep as <-. settle.
      left. cbn. by apply pb_Await.
Qed.

Lemma step_subscriber wall S w w' :
  holds S w -> running w = Some TSubscriber -> step wall w = inl w' -> Inv w'.
Proof.
  intros Hw Hrun Hstep. unfold step in Hstep. rewrite Hrun in Hstep.
  keep_holds Hw. destruct Hmain as [Hp|(p & r & _ & Hrun' & _)]; [|congruence].
  assert (Hnone : forall c, c = sub_coro w -> (forall r, c <> Ret (inr r)) ->
                    forall r, sub_result w = Some r -> False).
  { intros c -> Hc r Hr. destruct (Hres r Hr) as [_ Heq]. by apply (Hc (file w)). }
  exists S.
  inversion Hsub as [He|m Hm He|r Hr Hi He|He|He|He|He];
    rewrite <- He in Hstep; unfold exec in Hstep; cbn in Hstep.
  - destruct (items (queue w)) as [|x rest] eqn:Hitems.
    + injection Hstep as <-. settle.
      * intros m Hm. rewrite Hitems in Hm. by apply Hqueue.
      * apply at_get.
      * intros r Hr. by destruct (Hnone _ He ltac:(discriminate) r Hr).
    + injection Hstep as <-. settle.
      * intros m Hm. apply Hqueue. by right.
      * destruct x as [m|]; [apply at_clock|apply at_sentinel].
        apply Hqueue. by left.
      * intros r Hr. by destruct (Hnone _ He ltac:(discriminate) r Hr).
  - injection Hstep as <-. settle.
    + by apply at_write.
    + intros r Hr. by destruct (Hnone _ He ltac:(discriminate) r Hr).
  - injection Hstep as <-. settle.
    + intros x Hx. apply elem_of_app in Hx as [Hx|Hx]; [by apply Hfile|].
      apply list_elem_of_singleton in Hx. by subst.
    + by apply numbered_snoc.
    + replace (Z.of_nat (length (file w)) + 1) with (Z.of_nat (length (file w ++ [r])))
        by (rewrite length_app; cbn; lia).
      apply at_done.
    + intros r0 Hr0. by destruct (Hnone _ He ltac:(discriminate) r0 Hr0).
  - destruct (unfinished_tasks (queue w) <=? 0); [discriminate|].
    injection Hstep as <-. settle.
    + apply at_again.
    + intros r Hr. by destruct (Hnone _ He ltac:(discriminate) r Hr).
  - injection Hstep as <-. settle.
    + apply at_get.
    + intros r Hr. by destruct (Hnone _ He ltac:(discriminate) r Hr).
  - destruct (unfinished_tasks (queue w) <=? 0); [discriminate|].
    injection Hstep as <-. settle.
    + apply at_return.
    + intros r Hr. by destruct (Hnone _ He ltac:(discriminate) r Hr).
  - injection Hstep as <-. settle.
    intros r [= <-]. by split.
Qed.

Lemma step_delayed wall S w w' n :
  holds S w -> running w = Some (TDelayed n) -> step wall w = inl w' -> Inv w'.
Proof.
  intros Hw Hrun Hstep. unfold step in Hstep. rewrite Hrun in Hstep.
  keep_holds Hw. destruct Hmain as [Hp|(p & r & _ & Hrun' & _)]; [|congruence].
  exists S. destruct (lookup_task n (delayed w)) as [c|] eqn:Hc.
  - pose proof (lookup_task_sender S n _ c Hdelayed Hc) as Hsend.
    destruct Hsend as [m d Hm|m Hm|]; unfold exec in Hstep; cbn in Hstep.
    + destruct (d <=? 0); injection Hstep as <-; settle;
        apply update_task_sender; auto; by apply sender_put.
    + destruct (full (queue w)).
      * injection Hstep as <-. settle. apply update_task_sender; auto. by apply sender_put.
      * injection Hstep as <-. settle.
        -- intros x Hx. apply elem_of_app in Hx as [Hx|Hx]; [by apply Hqueue|].
           apply list_elem_of_singleton in Hx. by injection Hx as ->.
        -- apply update_task_sender; auto. apply sender_ret.
    + injection Hstep as <-. settle. by apply remove_task_sender.
  - injection Hstep as <-. settle.
Qed.

Lemma step_idle wall S w w' :
  holds S w -> running w = None -> step wall w = inl w' -> Inv w'.
Proof.
  intros Hw Hrun Hstep. unfold step in Hstep. rewrite Hrun in Hstep.
  keep_holds Hw. destruct Hmain as [Hp|(p & r & _ & Hrun' & _)]; [|congruence].
  exists S. destruct (ready w) as [|t rest].
  - unfold fire_timers in Hstep. destruct (timers w) as [|[t0 i0] ts]; [discriminate|].
    injection Hstep as <-. settle.
  - injection Hstep as <-. settle.
Qed.

Lemma step_Inv wall w w' : Inv w -> step wall w = inl w' -> Inv w'.
Proof.
  intros [S Hw] Hstep. destruct (running w) as [[| |n]|] eqn:Hrun.
  - by apply (step_main wall S w).
  - by apply (step_subscriber wall S w).
  - by apply (step_delayed wall S w w' n).
  - by apply (step_idle wall S w).
Qed.

(** What the invariant gives when [main] returns. *)
Lemma Inv_finished wall w produced received final :
  Inv w -> step wall w = inr (Finished (produced, received) final) ->
  file final = received
  /\ sub_result final = Some received
  /\ numbered received
  /\ forall x, x ∈ received -> item x ∈ produced.
Proof.
  intros [S Hw] Hstep. unfold step in Hstep. keep_holds Hw.
  destruct (running w) as [[| |n]|] eqn:Hrun.
  - destruct Hmain as [Hp|(p & r & Hm & _ & Hr & Hp)].
    + inversion Hp as [e He|d k Hk He|k Hk He|m k Hk He|k Hk He|k Hk He|m d k Hk He|k Hk He|k Hk He];
        rewrite <- He in Hstep; unfold exec in Hstep; cbn in Hstep;
        repeat match type of Hstep with
               | context [if ?b then _ else _] => destruct b
               | context [match sub_result w with _ => _ end] => destruct (sub_result w)
               end; discriminate.
    + rewrite Hm in Hstep. cbn in Hstep. injection Hstep as <- <- <-.
      destruct (Hres r Hr) as [-> _]. split; [reflexivity|]. split; [exact Hr|].
      split; [exact Hnum|]. intros x Hx. by apply Hp, Hfile.
  - destruct (exec wall TSubscriber (sub_coro w) w) as [w1 [c|c|[st|rs]|e]]; discriminate.
  - destruct (lookup_task n (delayed w)) as [c|]; [|discriminate].
    destruct (exec wall (TDelayed n) c w) as [w1 [c1|c1|u|e]]; discriminate.
  - destruct (ready w); [|discriminate]. destruct (fire_timers w); discriminate.
Qed.

Lemma finished_run {G : Type} `{RandomGen G} (entropy : G) (wall : Z -> Z) (args : Args)
    (fuel : nat) produced received final :
  simulate entropy wall args fuel = Some (Finished (produced, received) final) ->
  file final = received
  /\ sub_result final = Some received
  /\ numbered received
  /\ forall x, x ∈ received -> item x ∈ produced.
Proof.
  unfold simulate. intros Hrun.
  destruct (run_loop_invariant wall Inv (step_Inv wall) fuel _ _ (Inv_init args _) Hrun)
    as (last & Hlast & Hstep).
  by apply (Inv_finished wall last).
Qed.
End Run.

(** X22.  In every run that finishes, the list the subscriber returns is
    line for line what it wrote to the output file, and its records carry
    the arrival indices 1, 2, 3, ... in order. *)
Theorem subscriber_log_is_received {G : Type} `{Sim.RandomGen G} (entropy : G)
    (wall : Z -> Z) (args : Sim.Args) (fuel : nat)
    (produced : list Message) (received : list Received) (final : Sim.World) :
  Sim.simulate entropy wall args fuel = Some (Sim.Finished (produced, received) final) ->
  Sim.file final = received
  /\ Sim.sub_result final = Some received
  /\ List.map arrival_index received = List.map Z.of_nat (List.seq 1 (length received)).
Proof.
  intros Hrun. destruct (Run.finished_run entropy wall args fuel _ _ _ Hrun)
    as (Hfile & Hres & Hnum & _).
  by repeat split.
Qed.

Lemma subscriber_log_is_received_witness :
  exists produced received final,
    Sim.simulate (H := Sim.LcgGen) 7%Z wall_a replay_args 200
    = Some (Sim.Finished (produced, received) final)
    /\ Sim.file final = received
    /\ Sim.sub_result final = Some received
    /\ List.map arrival_index received = List.map Z.of_nat (List.seq 1 (length received)).
Proof.
  destruct (Sim.simulate (H := Sim.LcgGen) 7%Z wall_a replay_args 200)
    as [[[produced received] final| |]|] eqn:E;
    try (vm_compute in E; discriminate E).
  exists produced, received, final. split; [reflexivity|].
  exact (subscriber_log_is_received (H := Sim.LcgGen) 7%Z wall_a replay_args 200 _ _ _ E).
Defined.

(** X23.  In every run that finishes, each record received carries a
    message of the produced history, field for field: the subscriber is
    handed nothing the publisher did not make, and every sequence number
    received is one that was produced. *)
Theorem received_were_produced {G : Type} `{Sim.RandomGen G} (entropy : G)
    (wall : Z -> Z) (args : Sim.Args) (fuel : nat)
    (produced : list Message) (received : list Received) (final : Sim.World) :
  Sim.simulate entropy wall args fuel = Some (Sim.Finished (produced, received) final) ->
  (forall x, x ∈ received -> item x ∈ produced)
  /\ forall s, s ∈ received_seq_ids received -> s ∈ List.map sequence_id produced.
Proof.
  intros Hrun. destruct (Run.finished_run entropy wall args fuel _ _ _ Hrun)
    as (_ & _ & _ & Hin).
  split; [exact Hin|]. intros s Hs. unfold received_seq_ids in Hs.
  rewrite map_fmap in Hs. apply list_elem_of_fmap in Hs as (x & -> & Hx).
  rewrite map_fmap. apply list_elem_of_fmap_2. by apply Hin.
Qed.

Lemma received_were_produced_witness :
  exists produced received final,
    Sim.simulate (H := Sim.LcgGen) 7%Z wall_a replay_args 200
    = Some (Sim.Finished (produced, received) final)
    /\ (forall x, x ∈ received -> item x ∈ produced)
    /\ forall s, s ∈ received_seq_ids received -> s ∈ List.map sequence_id produced.
Proof.
  destruct (Sim.simulate (H := Sim.LcgGen) 7%Z wall_a replay_args 200)
    as [[[produced received] final| |]|] eqn:E;
    try (vm_compute in E; discriminate E).
  exists produced, received, final. split; [reflexivity|].
  exact (received_were_produced (H := Sim.LcgGen) 7%Z wall_a replay_args 200 _ _ _ E).
Defined.
